(** * GenerateVideo: the adaptive streaming client (src/api_client.py)

    A shallow embedding of the response pipeline of [generate_video]:
    the content-type dispatch, the four stream parsers, the JSON payload
    extractor, the URL dereference and the inline decoder, together with
    the base64 step of [encode_image_to_base64] (src/encoder.py).

    Conventions of the embedding.
    - A Python [str] is a list of Unicode code points ([N]); a [bytes]
      object is a list of [Byte.byte].
    - Python exceptions are the [Raise] outcome of a small monad that also
      counts the GET requests issued (the network is an oracle indexed by
      that counter) and collects the calls made to [logger].
    - A [for] loop is the monadic fold [for_each]; [continue] leaves the
      loop state unchanged; an early [return] inside a loop is the
      [Return] constructor of [ctl].
    - The progress bar of [rich] is a display side channel and is left out.
    - Library functions ([json.loads], [base64.b64decode], [bytes.fromhex],
      [re.search], [str.strip], the UTF-8 codec) are modelled after CPython. *)

From Stdlib.Strings Require Import String Ascii Byte.
From Stdlib Require Import List NArith ZArith Bool Lia.
Import ListNotations.
Local Open Scope N_scope.
Local Open Scope list_scope.

Set Implicit Arguments.

(** ** Python text and bytes *)

Definition str := list N.
Definition bytes := list byte.

(** An ASCII literal as a [str]. *)
Definition s_ (x : string) : str :=
  List.map N_of_ascii (list_ascii_of_string x).

(** An ASCII literal as a [bytes] object. *)
Definition b_ (x : string) : bytes := list_byte_of_string x.

Definition nl : N := 10.

Fixpoint str_eqb (a b : str) : bool :=
  match a, b with
  | [], [] => true
  | x :: a', y :: b' => (x =? y) && str_eqb a' b'
  | _, _ => false
  end.

(** [s.startswith(p)] *)
Fixpoint startswith (p s : str) : bool :=
  match p, s with
  | [], _ => true
  | x :: p', y :: s' => (x =? y) && startswith p' s'
  | _ :: _, [] => false
  end.

(** [p in s] for two strings. *)
Fixpoint contains (p s : str) : bool :=
  startswith p s ||
  match s with
  | [] => false
  | _ :: s' => contains p s'
  end.

(** [s.split("\n")]: never empty; the last element is what follows the
    last newline. *)
Fixpoint split_nl (s : str) : list str :=
  match s with
  | [] => [[]]
  | c :: s' =>
      if c =? nl then [] :: split_nl s'
      else match split_nl s' with
           | [] => [[c]]
           | l :: ls => (c :: l) :: ls
           end
  end.

(** [Py_UNICODE_ISSPACE]: the characters removed by [str.strip()]. *)
Definition py_isspace (c : N) : bool :=
  ((9 <=? c) && (c <=? 13)) || ((28 <=? c) && (c <=? 32)) ||
  (c =? 133) || (c =? 160) || (c =? 5760) ||
  ((8192 <=? c) && (c <=? 8202)) || (c =? 8232) || (c =? 8233) ||
  (c =? 8239) || (c =? 8287) || (c =? 12288).

Fixpoint lstrip (s : str) : str :=
  match s with
  | [] => []
  | c :: s' => if py_isspace c then lstrip s' else s
  end.

Definition rstrip (s : str) : str := rev (lstrip (rev s)).

(** [s.strip()] *)
Definition strip (s : str) : str := rstrip (lstrip s).

(** [str.lower()], one code point at a time.  The mapping is Python's on
    U+0000..U+00FF.  Code points above U+00FF are left as they are: their
    lower-case forms are outside ASCII, except for U+0130 (i followed by
    U+0307) and U+212A (k), and neither can take part in an occurrence of
    the patterns that [_parse_streaming_response] looks for. *)
Definition lower_cp (c : N) : N :=
  if (65 <=? c) && (c <=? 90) then c + 32
  else if (192 <=? c) && (c <=? 222) && negb (c =? 215) then c + 32
  else c.

Definition lower (s : str) : str := List.map lower_cp s.

(** ** Bytes as numbers *)

Definition byte_of_N (n : N) : byte :=
  match Byte.of_N (n mod 256) with
  | Some b => b
  | None => x00
  end.

(** [s.encode('ascii')]: [None] stands for [UnicodeEncodeError]. *)
Definition encode_ascii (s : str) : option bytes :=
  if forallb (fun c => c <? 128) s then Some (List.map byte_of_N s) else None.

(** [b.decode('utf-8')] of bytes that are all below 0x80, as produced by
    [base64.b64encode]. *)
Definition decode_ascii (b : bytes) : str := List.map Byte.to_N b.

(** ** base64 (binascii) *)

(** [table_b2a_base64] *)
Definition b2a_char (v : N) : N :=
  if v <? 26 then v + 65
  else if v <? 52 then v - 26 + 97
  else if v <? 62 then v - 52 + 48
  else if v =? 62 then 43
  else 47.

(** [table_a2b_base64]: [None] for a byte outside the alphabet. *)
Definition a2b_value (c : N) : option N :=
  if (65 <=? c) && (c <=? 90) then Some (c - 65)
  else if (97 <=? c) && (c <=? 122) then Some (c - 97 + 26)
  else if (48 <=? c) && (c <=? 57) then Some (c - 48 + 52)
  else if c =? 43 then Some 62
  else if c =? 47 then Some 63
  else None.

Definition BASE64_PAD : N := 61.

(** [binascii.b2a_base64(data, newline=False)]: three bytes give four
    characters, and the last group is padded with [=]. *)
Fixpoint b2a_base64 (data : bytes) : bytes :=
  match data with
  | [] => []
  | [x] =>
      let a := Byte.to_N x in
      [byte_of_N (b2a_char (N.shiftr a 2));
       byte_of_N (b2a_char (N.shiftl (N.land a 3) 4));
       byte_of_N BASE64_PAD; byte_of_N BASE64_PAD]
  | [x; y] =>
      let a := Byte.to_N x in
      let b := Byte.to_N y in
      [byte_of_N (b2a_char (N.shiftr a 2));
       byte_of_N (b2a_char (N.lor (N.shiftl (N.land a 3) 4) (N.shiftr b 4)));
       byte_of_N (b2a_char (N.shiftl (N.land b 15) 2));
       byte_of_N BASE64_PAD]
  | x :: y :: z :: rest =>
      let a := Byte.to_N x in
      let b := Byte.to_N y in
      let c := Byte.to_N z in
      byte_of_N (b2a_char (N.shiftr a 2)) ::
      byte_of_N (b2a_char (N.lor (N.shiftl (N.land a 3) 4) (N.shiftr b 4))) ::
      byte_of_N (b2a_char (N.lor (N.shiftl (N.land b 15) 2) (N.shiftr c 6))) ::
      byte_of_N (b2a_char (N.land c 63)) ::
      b2a_base64 rest
  end.

(** [base64.b64encode(s)] *)
Definition b64encode (s : bytes) : bytes := b2a_base64 s.

(** The loop of [binascii.a2b_base64] with [strict_mode] off, as
    [base64.b64decode] calls it by default: bytes outside the alphabet are
    dropped, a pad that completes a quad ends the decoding, and input that
    stops in the middle of a quad is an error ([None]). *)
Fixpoint a2b_loop (data : list N) (quad_pos leftchar pads : N) (out : bytes)
  : option bytes :=
  match data with
  | [] => if quad_pos =? 0 then Some out else None
  | this_ch :: rest =>
      if this_ch =? BASE64_PAD then
        if 2 <=? quad_pos then
          if 4 <=? quad_pos + (pads + 1) then Some out
          else a2b_loop rest quad_pos leftchar (pads + 1) out
        else a2b_loop rest quad_pos leftchar pads out
      else
        match a2b_value this_ch with
        | None => a2b_loop rest quad_pos leftchar pads out
        | Some v =>
            if quad_pos =? 0 then a2b_loop rest 1 v 0 out
            else if quad_pos =? 1 then
              a2b_loop rest 2 (N.land v 15) 0
                (out ++ [byte_of_N (N.lor (N.shiftl leftchar 2) (N.shiftr v 4))])
            else if quad_pos =? 2 then
              a2b_loop rest 3 (N.land v 3) 0
                (out ++ [byte_of_N (N.lor (N.shiftl leftchar 4) (N.shiftr v 2))])
            else
              a2b_loop rest 0 0 0
                (out ++ [byte_of_N (N.lor (N.shiftl leftchar 6) v)])
        end
  end.

Definition a2b_base64 (data : bytes) : option bytes :=
  a2b_loop (List.map Byte.to_N data) 0 0 0 [].

(** [base64.b64decode(s)] for a [str] argument: it is encoded to ASCII
    first.  [None] stands for the [ValueError] / [binascii.Error] raised. *)
Definition b64decode (s : str) : option bytes :=
  match encode_ascii s with
  | None => None
  | Some data => a2b_base64 data
  end.

(** ** bytes.fromhex *)

(** [Py_ISSPACE] *)
Definition ascii_isspace (c : N) : bool :=
  ((9 <=? c) && (c <=? 13)) || (c =? 32).

Definition hex_value (c : N) : option N :=
  if (48 <=? c) && (c <=? 57) then Some (c - 48)
  else if (97 <=? c) && (c <=? 102) then Some (c - 97 + 10)
  else if (65 <=? c) && (c <=? 70) then Some (c - 65 + 10)
  else None.

(** The loop of [_PyBytes_FromHex]: white space is skipped between bytes,
    never between the two digits of a byte. *)
Fixpoint fromhex_loop (s : str) (out : bytes) : option bytes :=
  match s with
  | [] => Some out
  | c :: rest =>
      if ascii_isspace c then fromhex_loop rest out
      else
        match hex_value c, rest with
        | Some top, d :: rest' =>
            match hex_value d with
            | Some bot => fromhex_loop rest' (out ++ [byte_of_N (N.shiftl top 4 + bot)])
            | None => None
            end
        | _, _ => None
        end
  end.

(** [bytes.fromhex(s)]; [None] stands for [ValueError]. *)
Definition fromhex (s : str) : option bytes :=
  if forallb (fun c => c <? 128) s then fromhex_loop s [] else None.

(** ** Python values *)

(** The values that reach the extractor: what [json.loads] builds, and
    [bytes].  A [float] keeps its lexeme; a [dict] keeps insertion order. *)
#[local] Unset Elimination Schemes.
Inductive value : Type :=
| VNone
| VBool (b : bool)
| VInt (z : Z)
| VFloat (lexeme : str)
| VStr (s : str)
| VBytes (b : bytes)
| VList (l : list value)
| VDict (d : list (str * value)).
#[local] Set Elimination Schemes.

(** ** _decode_video_data (src/api_client.py, 518-544) *)

Definition _decode_video_data (v : value) : option bytes :=
  match v with
  | VBytes b => Some b
  | VStr s =>
      match b64decode s with
      | Some b => Some b
      | None =>
          match fromhex s with
          | Some b => Some b
          | None => None
          end
      end
  | _ => None
  end.

(** ** Exceptions, log records and the effect monad *)

(** The exceptions that can travel through the pipeline.  [StreamingError]
    and [APIError] are the classes of src/errors.py and carry the constant
    part of their message; [TimeoutException] and [HTTPError] are httpx's
    (the second stands for every transport failure that is not a timeout). *)
Inductive exn : Type :=
| StreamingError (msg : str)
| APIError (msg : str)
| TypeError
| KeyError
| AttributeError
| ValueError
| UnicodeDecodeError
| TimeoutException
| HTTPError.

Inductive outcome (A : Type) : Type :=
| Ok (a : A)
| Raise (e : exn).
Arguments Ok {A} a.
Arguments Raise {A} e.

(** Where the extractor found a field. *)
Inductive place : Type := InDelta | InMessage | TopLevel.

Inductive strategy : Type := Binary | ServerSentEvents | NdjsonStream | Unknown.

Inductive level : Type := DEBUG | INFO | WARNING | ERROR.

(** One constructor per call to [logger] in the modelled functions, with
    the interpolated values as arguments. *)
Inductive log_entry : Type :=
| LogApiError (status : Z) (text : str)  (* error:   API error {status}: {text} *)
| LogStatus (status : Z)                 (* info:    Response status: ... *)
| LogContentType (ct : str)              (* info:    Content-Type: ... *)
| LogReceived (n : nat)                  (* info:    Successfully received {n} bytes *)
| LogTimeout                             (* error:   Request timeout after ... *)
| LogHttpError                           (* error:   HTTP error: ... *)
| LogUnexpected (e : exn)                (* error:   Unexpected error: ... *)
| LogDetected (s : strategy) (ct : str)  (* info, or warning for Unknown *)
| LogSseLine (n : nat) (line : str)      (* info:    SSE Line {n}: ... *)
| LogSseEvent (data : value)             (* info:    SSE event: ... *)
| LogSseExtracted (n : nat)              (* info:    Extracted {n} bytes *)
| LogSseNoVideo (keys : list str)        (* warning: No video data found in event *)
| LogSseBadJson                          (* warning: Failed to parse SSE JSON: ... *)
| LogSseProblem (data_str : str)         (* warning: Problematic data: ... *)
| LogJsonBadLine                         (* warning: Failed to parse JSON line: ... *)
| LogAutoBinary                          (* info:    Auto-detected binary video format *)
| LogAutoSse                             (* info:    Auto-detected SSE format *)
| LogAutoJson                            (* info:    Auto-detected JSON format *)
| LogFallback                            (* info:    Falling back to raw binary stream *)
| LogFoundUrl (p : place) (field : str)  (* info:    Found video URL in ... *)
| LogDownloading                         (* info:    Downloading video from URL... *)
| LogFullUrl (url : str)                 (* debug:   Full URL: ... *)
| LogDownloaded (n : nat)                (* info:    Successfully downloaded {n} bytes *)
| LogDownloadStatus (status : Z)         (* error:   Failed to download video: HTTP ... *)
| LogDownloadResponse                    (* error:   Response: ... *)
| LogDownloadError.                      (* error:   Error downloading video from URL *)

Definition level_of (e : log_entry) : level :=
  match e with
  | LogApiError _ _ | LogTimeout | LogHttpError | LogUnexpected _
  | LogDownloadStatus _ | LogDownloadResponse | LogDownloadError => ERROR
  | LogDetected Unknown _ | LogSseNoVideo _ | LogSseBadJson | LogSseProblem _
  | LogJsonBadLine => WARNING
  | LogFullUrl _ => DEBUG
  | _ => INFO
  end.

(** What one [client.get(url)] gives: a response, or an exception. *)
Inductive http_reply : Type :=
| Reply (status_code : Z) (content : bytes)
| Failed.

(** The world outside: the reply the network gives to the [n]-th GET of
    the run, and the number of GETs issued so far. *)
Record world : Type := { net : nat -> str -> http_reply; gets : nat }.

Definition M (A : Type) : Type := world -> outcome A * world * list log_entry.

Definition ret {A} (a : A) : M A := fun w => (Ok a, w, []).

Definition raise {A} (e : exn) : M A := fun w => (Raise e, w, []).

Definition bind {A B} (m : M A) (f : A -> M B) : M B :=
  fun w =>
    match m w with
    | (Ok a, w', l) =>
        match f a w' with
        | (r, w'', l') => (r, w'', l ++ l')
        end
    | (Raise e, w', l) => (Raise e, w', l)
    end.

Notation "x <- c ;; k" := (bind c (fun x => k))
  (at level 61, c at next level, right associativity).
Notation "c ;;; k" := (bind c (fun _ => k))
  (at level 61, right associativity).

Definition lift {A} (o : outcome A) : M A := fun w => (o, w, []).

Definition logger (e : log_entry) : M unit := fun w => (Ok tt, w, [e]).

(** [client.get(url)] *)
Definition client_get (url : str) : M http_reply :=
  fun w => (Ok (net w (gets w) url), {| net := net w; gets := S (gets w) |}, []).

(** [try: m except E: h] for the exceptions selected by [handles]. *)
Definition try_except {A} (m : M A) (handles : exn -> bool) (h : exn -> M A) : M A :=
  fun w =>
    match m w with
    | (Ok a, w', l) => (Ok a, w', l)
    | (Raise e, w', l) =>
        if handles e then
          match h e w' with
          | (r, w'', l') => (r, w'', l ++ l')
          end
        else (Raise e, w', l)
    end.

(** The body of a loop either returns from the enclosing function or
    lets the loop go on. *)
Inductive ctl (A : Type) : Type :=
| Return (a : A)
| Continue.
Arguments Return {A} a.
Arguments Continue {A}.

(** [for x in xs: body], the loop state threaded through. *)
Fixpoint for_each {X S : Type} (xs : list X) (body : X -> S -> M S) (st : S) : M S :=
  match xs with
  | [] => ret st
  | x :: xs' => st' <- body x st ;; for_each xs' body st'
  end.

(** [for x in xs: body], where the body may [return]. *)
Fixpoint for_return {X A : Type} (xs : list X) (body : X -> M (ctl A)) : M (ctl A) :=
  match xs with
  | [] => ret Continue
  | x :: xs' =>
      r <- body x ;;
      match r with
      | Return a => ret (Return a)
      | Continue => for_return xs' body
      end
  end.

(** Two statements in a row, the first of which may [return]. *)
Definition and_then {A} (c1 c2 : M (ctl A)) : M (ctl A) :=
  r <- c1 ;;
  match r with
  | Return a => ret (Return a)
  | Continue => c2
  end.

(** ** Dynamic operations of Python *)

Fixpoint dict_get (key : str) (d : list (str * value)) : option value :=
  match d with
  | [] => None
  | (k, v) :: d' => if str_eqb k key then Some v else dict_get key d'
  end.

(** [d[key] = v] on a dict: a present key keeps its position. *)
Fixpoint dict_set (key : str) (v : value) (d : list (str * value)) : list (str * value) :=
  match d with
  | [] => [(key, v)]
  | (k, v0) :: d' =>
      if str_eqb k key then (k, v) :: d' else (k, v0) :: dict_set key v d'
  end.

(** [key in obj] for a [str] key. *)
Definition py_in (key : str) (obj : value) : outcome bool :=
  match obj with
  | VDict d => Ok (match dict_get key d with Some _ => true | None => false end)
  | VList l =>
      Ok (existsb (fun v => match v with VStr s => str_eqb s key | _ => false end) l)
  | VStr s => Ok (contains key s)
  | _ => Raise TypeError
  end.

(** [obj[key]] for a [str] key. *)
Definition py_getitem (obj : value) (key : str) : outcome value :=
  match obj with
  | VDict d =>
      match dict_get key d with
      | Some v => Ok v
      | None => Raise KeyError
      end
  | _ => Raise TypeError
  end.

(** The items [for x in obj] goes through. *)
Definition py_iter (obj : value) : outcome (list value) :=
  match obj with
  | VList l => Ok l
  | VDict d => Ok (List.map (fun kv => VStr (fst kv)) d)
  | VStr s => Ok (List.map (fun c => VStr [c]) s)
  | VBytes b => Ok (List.map (fun x => VInt (Z.of_N (Byte.to_N x))) b)
  | _ => Raise TypeError
  end.

(** ** The regular expression of extract_url_from_html *)

Definition is_quote (c : N) : bool := (c =? 39) || (c =? 34).

(** The longest prefix of [s] made of characters satisfying [p], and the rest. *)
Fixpoint span (p : N -> bool) (s : str) : str * str :=
  match s with
  | [] => ([], [])
  | c :: s' =>
      if p c then
        match span p s' with
        | (a, b) => (c :: a, b)
        end
      else ([], s)
  end.

(** The end of the pattern, [src=] then a quote (single or double), group 1
    (one or more characters that are not quotes) and a quote, matched at
    the head of [t]; the result is group 1.  The group is the whole run of
    non-quote characters: a shorter one would not be followed by a quote. *)
Definition match_src (t : str) : option str :=
  if startswith (s_ "src=") t then
    match skipn 4 t with
    | q :: r =>
        if is_quote q then
          match span (fun c => negb (is_quote c)) r with
          | (c :: g, _ :: _) => Some (c :: g)
          | _ => None
          end
        else None
    | [] => None
    end
  else None.

(** [[^>]*] followed by [match_src], the longest repetition tried first. *)
Fixpoint match_attrs (t : str) : option str :=
  match t with
  | [] => match_src t
  | c :: t' =>
      if c =? 62 then match_src t
      else
        match match_attrs t' with
        | Some g => Some g
        | None => match_src t
        end
  end.

(** The whole pattern matched at the head of [t]. *)
Definition match_video_tag (t : str) : option str :=
  if startswith (s_ "<video") t then
    match skipn 6 t with
    | c :: t' => if c =? 62 then None else match_attrs t'
    | [] => None
    end
  else None.

(** [re.search] with the pattern of the source (the text [<video], one or
    more characters other than [>], then the end matched by [match_src]):
    group 1 of the leftmost match. *)
Fixpoint re_search_video_src (t : str) : option str :=
  match match_video_tag t with
  | Some g => Some g
  | None =>
      match t with
      | [] => None
      | _ :: t' => re_search_video_src t'
      end
  end.

(** ** The payload extractor (src/api_client.py, 390-515) *)

Definition possible_fields : list str :=
  [s_ "video"; s_ "data"; s_ "content"; s_ "file"; s_ "video_data";
   s_ "video_content"; s_ "binary"; s_ "base64"].

Definition url_fields : list str :=
  [s_ "url"; s_ "video_url"; s_ "download_url"; s_ "file_url"; s_ "uri";
   s_ "content"].

Definition extract_url_from_html (text : value) : option str :=
  match text with
  | VStr t =>
      match re_search_video_src t with
      | Some g => Some g
      | None => if startswith (s_ "http") t then Some t else None
      end
  | _ => None
  end.

(** [_download_video_from_url]: every failure is logged and gives [None]. *)
Definition _download_video_from_url (url : str) : M (option bytes) :=
  logger LogDownloading ;;;
  logger (LogFullUrl url) ;;;
  response <- client_get url ;;
  match response with
  | Reply status_code content =>
      if (status_code =? 200)%Z then
        logger (LogDownloaded (length content)) ;;;
        ret (Some content)
      else
        logger (LogDownloadStatus status_code) ;;;
        logger LogDownloadResponse ;;;
        ret None
  | Failed =>
      logger LogDownloadError ;;;
      ret None
  end.

(** The body of [for field in url_fields: if field in obj: ...], where
    [obj] is the expression the source evaluates at each test and at each
    access ([choice["delta"]], [choice["message"]] or [data]). *)
Definition url_field (p : place) (obj : outcome value) (field : str)
  : M (ctl (option bytes)) :=
  o <- lift obj ;;
  present <- lift (py_in field o) ;;
  if present : bool then
    o' <- lift obj ;;
    value <- lift (py_getitem o' field) ;;
    match extract_url_from_html value with
    | Some (c :: u) =>
        logger (LogFoundUrl p field) ;;;
        r <- _download_video_from_url (c :: u) ;;
        ret (Return r)
    | _ => ret Continue
    end
  else ret Continue.

Definition url_loop (p : place) (obj : outcome value) : M (ctl (option bytes)) :=
  for_return url_fields (url_field p obj).

(** The body of [for field in possible_fields: if field in obj and
    field != "content": return _decode_video_data(obj[field])]. *)
Definition data_field (obj : outcome value) (field : str) : M (ctl (option bytes)) :=
  o <- lift obj ;;
  present <- lift (py_in field o) ;;
  if present && negb (str_eqb field (s_ "content")) then
    o' <- lift obj ;;
    value <- lift (py_getitem o' field) ;;
    ret (Return (_decode_video_data value))
  else ret Continue.

Definition data_loop (obj : outcome value) : M (ctl (option bytes)) :=
  for_return possible_fields (data_field obj).

(** The search in one candidate object: the URL fields first, then the
    data fields (442-453, 457-468 and 471-482 of the source are three
    copies of these two loops). *)
Definition scan (p : place) (obj : outcome value) : M (ctl (option bytes)) :=
  and_then (url_loop p obj) (data_loop obj).

(** The body of [for choice in data["choices"]]. *)
Definition choice_body (choice : value) : M (ctl (option bytes)) :=
  and_then
    (has_delta <- lift (py_in (s_ "delta") choice) ;;
     if has_delta : bool then scan InDelta (py_getitem choice (s_ "delta"))
     else ret Continue)
    (has_message <- lift (py_in (s_ "message") choice) ;;
     if has_message : bool then scan InMessage (py_getitem choice (s_ "message"))
     else ret Continue).

(** [if "choices" in data: for choice in data["choices"]: ...] *)
Definition choices_part (data : value) : M (ctl (option bytes)) :=
  has_choices <- lift (py_in (s_ "choices") data) ;;
  if has_choices : bool then
    choices <- lift (py_getitem data (s_ "choices")) ;;
    items <- lift (py_iter choices) ;;
    for_return items choice_body
  else ret Continue.

(** The end of a function whose last statement is [return None]. *)
Definition or_none {A} (r : ctl (option A)) : M (option A) :=
  match r with
  | Return x => ret x
  | Continue => ret None
  end.

Definition _extract_video_from_json (data : value) : M (option bytes) :=
  r <- and_then (choices_part data) (scan TopLevel (Ok data)) ;;
  or_none r.

(** ** json.loads

    The decoder of CPython's [json] module (scanner, [scanstring] in strict
    mode, object and array parsers) on a [str].  [None] stands for
    [json.JSONDecodeError].  The recursion is on [fuel]; of two nested
    calls in a row at least one is made after a character has been
    consumed, so the fuel given by [json_loads], two levels for each
    character and two more, is enough for its text.  The interpreter's
    limits (recursion depth, digits of an integer) are not modelled. *)

Definition json_ws (c : N) : bool :=
  (c =? 32) || (c =? 9) || (c =? 10) || (c =? 13).

Fixpoint skip_ws (s : str) : str :=
  match s with
  | [] => []
  | c :: s' => if json_ws c then skip_ws s' else s
  end.

Definition is_digit (c : N) : bool := (48 <=? c) && (c <=? 57).

Definition hex4 (a b c d : N) : option N :=
  match hex_value a, hex_value b, hex_value c, hex_value d with
  | Some x, Some y, Some z, Some t => Some (((x * 16 + y) * 16 + z) * 16 + t)
  | _, _, _, _ => None
  end.

Definition simple_escape (c : N) : option N :=
  if c =? 34 then Some 34          (* quote *)
  else if c =? 92 then Some 92     (* backslash *)
  else if c =? 47 then Some 47     (* slash *)
  else if c =? 98 then Some 8      (* b *)
  else if c =? 102 then Some 12    (* f *)
  else if c =? 110 then Some 10    (* n *)
  else if c =? 114 then Some 13    (* r *)
  else if c =? 116 then Some 9     (* t *)
  else None.

Definition is_high_surrogate (c : N) : bool := (55296 <=? c) && (c <=? 56319).
Definition is_low_surrogate (c : N) : bool := (56320 <=? c) && (c <=? 57343).
Definition join_surrogates (hi lo : N) : N :=
  65536 + (hi - 55296) * 1024 + (lo - 56320).

(** [scanstring], from the character after the opening quote: the decoded
    text and what follows the closing quote. *)
Fixpoint scanstring (s : str) (acc : str) : option (str * str) :=
  match s with
  | [] => None
  | c :: r =>
      if c =? 34 then Some (acc, r)
      else if c =? 92 then
        match r with
        | [] => None
        | e :: r1 =>
            if e =? 117 then
              match r1 with
              | h1 :: h2 :: h3 :: h4 :: r2 =>
                  match hex4 h1 h2 h3 h4 with
                  | None => None
                  | Some u =>
                      if is_high_surrogate u then
                        match r2 with
                        | b :: u' :: g1 :: g2 :: g3 :: g4 :: r3 =>
                            if (b =? 92) && (u' =? 117) then
                              match hex4 g1 g2 g3 g4 with
                              | None => None
                              | Some u2 =>
                                  if is_low_surrogate u2
                                  then scanstring r3 (acc ++ [join_surrogates u u2])
                                  else scanstring r2 (acc ++ [u])
                              end
                            else scanstring r2 (acc ++ [u])
                        | _ => scanstring r2 (acc ++ [u])
                        end
                      else scanstring r2 (acc ++ [u])
                  end
              | _ => None
              end
            else
              match simple_escape e with
              | Some x => scanstring r1 (acc ++ [x])
              | None => None
              end
        end
      else if c <=? 31 then None
      else scanstring r (acc ++ [c])
  end.

Definition digits_value (ds : str) : Z :=
  fold_left (fun acc d => (acc * 10 + Z.of_N (d - 48))%Z) ds 0%Z.

(** The integer part of a number: [0], or a non-zero digit and the digits
    after it. *)
Definition int_part (s : str) : option (str * str) :=
  match s with
  | [] => None
  | d :: r =>
      if d =? 48 then Some ([d], r)
      else if is_digit d then
        match span is_digit r with
        | (ds, r1) => Some (d :: ds, r1)
        end
      else None
  end.

(** The optional fraction: a dot and at least one digit. *)
Definition frac_part (s : str) : str * str :=
  match s with
  | dot :: f :: r =>
      if (dot =? 46) && is_digit f then
        match span is_digit r with
        | (fs, r1) => (dot :: f :: fs, r1)
        end
      else ([], s)
  | _ => ([], s)
  end.

(** The optional exponent: [e] or [E], an optional sign, at least one digit. *)
Definition exp_part (s : str) : str * str :=
  match s with
  | e :: r =>
      if (e =? 101) || (e =? 69) then
        let sr :=
          match r with
          | sg :: r1 => if (sg =? 43) || (sg =? 45) then ([sg], r1) else ([], r)
          | [] => ([], r)
          end in
        match span is_digit (snd sr) with
        | ([], _) => ([], s)
        | (es, r2) => (e :: fst sr ++ es, r2)
        end
      else ([], s)
  | [] => ([], s)
  end.

(** [_match_number]: an [int] when there is neither fraction nor exponent. *)
Definition match_number (s : str) : option (value * str) :=
  let neg := match s with c :: _ => c =? 45 | [] => false end in
  let s1 := if neg then tl s else s in
  match int_part s1 with
  | None => None
  | Some (int_digits, r1) =>
      match frac_part r1 with
      | (frac, r2) =>
          match exp_part r2 with
          | (expo, r3) =>
              match frac, expo with
              | [], [] =>
                  Some (VInt (if neg then (- digits_value int_digits)%Z
                              else digits_value int_digits), r3)
              | _, _ =>
                  Some (VFloat ((if neg then [45] else []) ++
                                int_digits ++ frac ++ expo), r3)
              end
          end
      end
  end.

Fixpoint scan_once (fuel : nat) (s : str) : option (value * str) :=
  match fuel with
  | O => None
  | S fuel' =>
      match s with
      | [] => None
      | c :: r =>
          if c =? 34 then
            match scanstring r [] with
            | Some (t, r') => Some (VStr t, r')
            | None => None
            end
          else if c =? 123 then
            match skip_ws r with
            | [] => None
            | c' :: r' =>
                if c' =? 125 then Some (VDict [], r')
                else parse_members fuel' (c' :: r') []
            end
          else if c =? 91 then
            match skip_ws r with
            | [] => None
            | c' :: r' =>
                if c' =? 93 then Some (VList [], r')
                else parse_items fuel' (c' :: r') []
            end
          else if startswith (s_ "null") s then Some (VNone, skipn 4 s)
          else if startswith (s_ "true") s then Some (VBool true, skipn 4 s)
          else if startswith (s_ "false") s then Some (VBool false, skipn 5 s)
          else if startswith (s_ "NaN") s then Some (VFloat (s_ "NaN"), skipn 3 s)
          else if startswith (s_ "Infinity") s
               then Some (VFloat (s_ "Infinity"), skipn 8 s)
          else if startswith (s_ "-Infinity") s
               then Some (VFloat (s_ "-Infinity"), skipn 9 s)
          else match_number s
      end
  end

with parse_members (fuel : nat) (s : str) (acc : list (str * value))
  : option (value * str) :=
  match fuel with
  | O => None
  | S fuel' =>
      match s with
      | [] => None
      | q :: r =>
          if q =? 34 then
            match scanstring r [] with
            | None => None
            | Some (key, r1) =>
                match skip_ws r1 with
                | [] => None
                | colon :: r2 =>
                    if colon =? 58 then
                      match scan_once fuel' (skip_ws r2) with
                      | None => None
                      | Some (v, r3) =>
                          match skip_ws r3 with
                          | [] => None
                          | sep :: r4 =>
                              if sep =? 125 then Some (VDict (dict_set key v acc), r4)
                              else if sep =? 44
                              then parse_members fuel' (skip_ws r4) (dict_set key v acc)
                              else None
                          end
                      end
                    else None
                end
            end
          else None
      end
  end

with parse_items (fuel : nat) (s : str) (acc : list value) : option (value * str) :=
  match fuel with
  | O => None
  | S fuel' =>
      match scan_once fuel' s with
      | None => None
      | Some (v, r) =>
          match skip_ws r with
          | [] => None
          | sep :: r1 =>
              if sep =? 93 then Some (VList (acc ++ [v]), r1)
              else if sep =? 44 then parse_items fuel' (skip_ws r1) (acc ++ [v])
              else None
          end
      end
  end.

(** [json.loads(s)] *)
Definition json_loads (s : str) : option value :=
  if startswith [65279] s then None
  else
    match scan_once (2 * S (length s)) (skip_ws s) with
    | Some (v, r) =>
        match skip_ws r with
        | [] => Some v
        | _ :: _ => None
        end
    | None => None
    end.

(** ** The UTF-8 codec *)

Definition is_cont (b : N) : bool := (128 <=? b) && (b <=? 191).

(** [bytes.decode("utf-8")] on the numeric values of the bytes; [None]
    stands for [UnicodeDecodeError]. *)
Fixpoint utf8_decode_N (b : list N) : option str :=
  match b with
  | [] => Some []
  | b0 :: r =>
      if b0 <? 128 then option_map (cons b0) (utf8_decode_N r)
      else if (194 <=? b0) && (b0 <=? 223) then
        match r with
        | b1 :: r1 =>
            if is_cont b1
            then option_map (cons ((b0 - 192) * 64 + (b1 - 128))) (utf8_decode_N r1)
            else None
        | _ => None
        end
      else if (224 <=? b0) && (b0 <=? 239) then
        match r with
        | b1 :: b2 :: r2 =>
            if (if b0 =? 224 then (160 <=? b1) && (b1 <=? 191)
                else if b0 =? 237 then (128 <=? b1) && (b1 <=? 159)
                else is_cont b1) && is_cont b2
            then option_map
                   (cons ((b0 - 224) * 4096 + (b1 - 128) * 64 + (b2 - 128)))
                   (utf8_decode_N r2)
            else None
        | _ => None
        end
      else if (240 <=? b0) && (b0 <=? 244) then
        match r with
        | b1 :: b2 :: b3 :: r3 =>
            if (if b0 =? 240 then (144 <=? b1) && (b1 <=? 191)
                else if b0 =? 244 then (128 <=? b1) && (b1 <=? 143)
                else is_cont b1) && is_cont b2 && is_cont b3
            then option_map
                   (cons ((b0 - 240) * 262144 + (b1 - 128) * 4096 +
                          (b2 - 128) * 64 + (b3 - 128)))
                   (utf8_decode_N r3)
            else None
        | _ => None
        end
      else None
  end.

Definition utf8_decode (b : bytes) : option str :=
  utf8_decode_N (List.map Byte.to_N b).

(** An ASCII literal in which each apostrophe stands for a double quote,
    to write JSON text. *)
Definition dq (x : string) : str :=
  List.map (fun c => if c =? 39 then 34 else c) (s_ x).

(** ** The response of the streaming request *)

(** How the iteration over the body ends: the connection closes, or the
    iterator raises a transport exception of httpx. *)
Inductive stream_end : Type :=
| Closed
| Broken (e : exn).

(** What the code reads of the [httpx.Response]:
    - [content_type], [content_length]: [response.headers.get(...)];
    - [total_size_int]: the value of [int(content_length)] when the header
      is present and not empty ([None] stands for the [ValueError] of a
      header that is not a number);
    - [text]: the body as text, read when the status is an error;
    - [iter_bytes]: the chunks of [response.iter_bytes(chunk_size=8192)];
    - [iter_text]: the chunks of [response.iter_text()];
    - [ending]: how either iteration ends. *)
Record response : Type := {
  status_code : Z;
  content_type : option str;
  content_length : option str;
  total_size_int : option Z;
  text : str;
  iter_bytes : list bytes;
  iter_text : list str;
  ending : stream_end
}.

(** The end of a [for] loop over the body. *)
Definition stream_stop (e : stream_end) : M unit :=
  match e with
  | Closed => ret tt
  | Broken x => raise x
  end.

(** [for chunk in <body>: ...] *)
Definition for_stream {X S : Type} (xs : list X) (e : stream_end)
  (body : X -> S -> M S) (st : S) : M S :=
  st' <- for_each xs body st ;;
  stream_stop e ;;;
  ret st'.

(** [b"".join(chunks)] *)
Definition join (chunks : list bytes) : bytes := concat chunks.

(** ** _parse_binary_stream (155-174) *)

Definition _parse_binary_stream (r : response) (total_size : option Z) : M bytes :=
  st <- for_stream (iter_bytes r) (ending r)
          (fun chunk (st : list bytes * nat) =>
             let '(chunks, downloaded) := st in
             ret (chunks ++ [chunk], downloaded + length chunk)%nat)
          ([], 0%nat) ;;
  ret (join (fst st)).

(** ** The line buffer shared by the text parsers

    [buffer += chunk; lines = buffer.split("\n"); buffer = lines[-1];
     for line in lines[:-1]: ...] *)
Definition feed {S : Type} (on_line : str -> S -> M S) (chunk : str)
  (st : str * S) : M (str * S) :=
  let '(buffer, inner) := st in
  let buffer := buffer ++ chunk in
  let lines := split_nl buffer in
  let buffer := last lines [] in
  inner' <- for_each (removelast lines) on_line inner ;;
  ret (buffer, inner').

(** The truth value of an [Optional[bytes]]. *)
Definition truthy (video_chunk : option bytes) : bool :=
  match video_chunk with
  | Some (_ :: _) => true
  | _ => false
  end.

Definition or_empty (video_chunk : option bytes) : bytes :=
  match video_chunk with
  | Some b => b
  | None => []
  end.

(** ** _parse_sse_stream (177-229) *)

(** The body of [for line in lines[:-1]]; the state is [line_count] and
    [video_chunks]. *)
Definition sse_line (line : str) (st : nat * list bytes) : M (nat * list bytes) :=
  let '(line_count, video_chunks) := st in
  let line_count := S line_count in
  let line := strip line in
  match line with
  | [] => ret tt
  | _ :: _ => logger (LogSseLine line_count (firstn 200 line))
  end ;;;
  if startswith (s_ "data:") line then
    let data_str := strip (skipn 5 line) in
    if str_eqb data_str (s_ "[DONE]") then ret (line_count, video_chunks)
    else
      match json_loads data_str with
      | Some data =>
          logger (LogSseEvent data) ;;;
          video_chunk <- _extract_video_from_json data ;;
          if truthy video_chunk then
            logger (LogSseExtracted (length (or_empty video_chunk))) ;;;
            ret (line_count, video_chunks ++ [or_empty video_chunk])
          else
            match data with
            | VDict d =>
                logger (LogSseNoVideo (List.map fst d)) ;;;
                ret (line_count, video_chunks)
            | _ => raise AttributeError
            end
      | None =>
          logger LogSseBadJson ;;;
          logger (LogSseProblem (firstn 200 data_str)) ;;;
          ret (line_count, video_chunks)
      end
  else ret (line_count, video_chunks).

Definition _parse_sse_stream (r : response) (total_size : option Z) : M bytes :=
  st <- for_stream (iter_text r) (ending r) (feed sse_line) ([], (0%nat, [])) ;;
  match snd (snd st) with
  | [] => raise (StreamingError (s_ "No video data found in SSE stream"))
  | video_chunks => ret (join video_chunks)
  end.

(** ** _parse_json_stream (232-267) *)

Definition json_line (line : str) (video_chunks : list bytes) : M (list bytes) :=
  let line := strip line in
  match line with
  | [] => ret video_chunks
  | _ :: _ =>
      match json_loads line with
      | Some data =>
          video_chunk <- _extract_video_from_json data ;;
          if truthy video_chunk then ret (video_chunks ++ [or_empty video_chunk])
          else ret video_chunks
      | None =>
          logger LogJsonBadLine ;;;
          ret video_chunks
      end
  end.

Definition _parse_json_stream (r : response) (total_size : option Z) : M bytes :=
  st <- for_stream (iter_text r) (ending r) (feed json_line) ([], []) ;;
  match snd st with
  | [] => raise (StreamingError (s_ "No video data found in JSON stream"))
  | video_chunks => ret (join video_chunks)
  end.

(** ** _parse_unknown_stream (270-387) *)

Definition bytes_startswith (p s : bytes) : bool :=
  startswith (List.map Byte.to_N p) (List.map Byte.to_N s).

Definition video_signatures : list bytes :=
  [[x00; x00; x00; x18] ++ b_ "ftypmp4";
   [x00; x00; x00; x1c] ++ b_ "ftypiso";
   b_ "RIFF";
   [x1a; x45; xdf; xa3]].

(** The lines of the auto-detected SSE loop (335-347): no logging here. *)
Definition auto_sse_line (line : str) (video_chunks : list bytes) : M (list bytes) :=
  let line := strip line in
  if startswith (s_ "data:") line then
    let data_str := strip (skipn 5 line) in
    if str_eqb data_str (s_ "[DONE]") then ret video_chunks
    else
      match json_loads data_str with
      | Some data =>
          video_chunk <- _extract_video_from_json data ;;
          if truthy video_chunk then ret (video_chunks ++ [or_empty video_chunk])
          else ret video_chunks
      | None => ret video_chunks
      end
  else ret video_chunks.

(** The lines of the auto-detected JSON loop (363-373). *)
Definition auto_json_line (line : str) (video_chunks : list bytes) : M (list bytes) :=
  let line := strip line in
  match line with
  | [] => ret video_chunks
  | _ :: _ =>
      match json_loads line with
      | Some data =>
          video_chunk <- _extract_video_from_json data ;;
          if truthy video_chunk then ret (video_chunks ++ [or_empty video_chunk])
          else ret video_chunks
      | None => ret video_chunks
      end
  end.

(** The generator [chunks_iter]: the chunks it has not yielded yet and
    how it ends.  Once run to its end it yields nothing more. *)
Definition iterator : Type := (list bytes * stream_end)%type.

Definition exhausted : iterator := ([], Closed).

(** How a text loop over [chunks_iter] leaves the [try] block: it ran to
    the end of the stream, or [chunk.decode("utf-8")] raised
    [UnicodeDecodeError] with the generator stopped after that chunk. *)
Inductive attempt : Type :=
| Finished (video_chunks : list bytes)
| Undecodable (rest : iterator).

(** [for chunk in chunks_iter: buffer += chunk.decode("utf-8"); ...] *)
Fixpoint text_loop (on_line : str -> list bytes -> M (list bytes))
  (pending : list bytes) (e : stream_end) (buffer : str)
  (video_chunks : list bytes) : M attempt :=
  match pending with
  | [] => stream_stop e ;;; ret (Finished video_chunks)
  | chunk :: pending' =>
      match utf8_decode chunk with
      | None => ret (Undecodable (pending', e))
      | Some t =>
          st <- feed on_line t (buffer, video_chunks) ;;
          text_loop on_line pending' e (fst st) (snd st)
      end
  end.

(** [chunks = [first_chunk]; for chunk in chunks_iter: chunks.append(chunk);
     return b"".join(chunks)] *)
Definition drain (first_chunk : bytes) (it : iterator) : M bytes :=
  chunks <- for_stream (fst it) (snd it)
              (fun chunk chunks => ret (chunks ++ [chunk])) [first_chunk] ;;
  ret (join chunks).
(** How a statement of the [try] block (319-379) ends: the function
    returns, the next statement runs, or [UnicodeDecodeError] is raised;
    the last two carry the state of [chunks_iter]. *)
Inductive step : Type :=
| Returned (video : bytes)
| Next (it : iterator)
| DecodeError (it : iterator).

(** [video_chunks = []; buffer = text_data; for chunk in chunks_iter: ...;
     if video_chunks: return b"".join(video_chunks)] *)
Definition text_strategy (on_line : str -> list bytes -> M (list bytes))
  (text_data : str) (it : iterator) : M step :=
  a <- text_loop on_line (fst it) (snd it) text_data [] ;;
  match a with
  | Finished [] => ret (Next exhausted)
  | Finished video_chunks => ret (Returned (join video_chunks))
  | Undecodable rest => ret (DecodeError rest)
  end.

(** The [try] block: [inl] is the value returned from inside it, [inr]
    the generator as the block leaves it, at its end or through
    [except UnicodeDecodeError: pass]. *)
Definition try_text (first_chunk : bytes) (chunks_iter : iterator)
  : M (bytes + iterator) :=
  match utf8_decode first_chunk with
  | None => ret (inr chunks_iter)
  | Some text_data =>
      sse <- (if startswith (s_ "data:") (strip text_data) then
                logger LogAutoSse ;;;
                text_strategy auto_sse_line text_data chunks_iter
              else ret (Next chunks_iter)) ;;
      match sse with
      | Returned video => ret (inl video)
      | DecodeError it => ret (inr it)
      | Next it =>
          js <- (if startswith (s_ "{") (strip text_data) then
                   logger LogAutoJson ;;;
                   text_strategy auto_json_line text_data it
                 else ret (Next it)) ;;
          match js with
          | Returned video => ret (inl video)
          | DecodeError it' => ret (inr it')
          | Next it' => ret (inr it')
          end
      end
  end.

Definition _parse_unknown_stream (r : response) (total_size : option Z) : M bytes :=
  match iter_bytes r with
  | [] =>
      stream_stop (ending r) ;;;
      raise (StreamingError (s_ "Empty response received"))
  | first_chunk :: pending =>
      let chunks_iter : iterator := (pending, ending r) in
      if existsb (fun sig => bytes_startswith sig first_chunk) video_signatures then
        logger LogAutoBinary ;;;
        drain first_chunk chunks_iter
      else
        t <- try_text first_chunk chunks_iter ;;
        match t with
        | inl video => ret video
        | inr it =>
            logger LogFallback ;;;
            drain first_chunk it
        end
  end.

(** ** _parse_streaming_response (116-152) *)

(** [int(content_length) if content_length else None] *)
Definition total_size_of (r : response) : outcome (option Z) :=
  match content_length r with
  | None | Some [] => Ok None
  | Some (_ :: _) =>
      match total_size_int r with
      | Some n => Ok (Some n)
      | None => Raise ValueError
      end
  end.

Definition _parse_streaming_response (r : response) (content_type : str) : M bytes :=
  total_size <- lift (total_size_of r) ;;
  if contains (s_ "octet-stream") content_type
     || startswith (s_ "video/") content_type then
    logger (LogDetected Binary content_type) ;;;
    _parse_binary_stream r total_size
  else if contains (s_ "text/event-stream") content_type then
    logger (LogDetected ServerSentEvents content_type) ;;;
    _parse_sse_stream r total_size
  else if contains (s_ "json") content_type then
    logger (LogDetected NdjsonStream content_type) ;;;
    _parse_json_stream r total_size
  else
    logger (LogDetected Unknown content_type) ;;;
    _parse_unknown_stream r total_size.

(** ** generate_video (15-113) *)

(** What [client.stream("POST", API_ENDPOINT, ...)] gives: a response, or
    an exception of httpx raised before any response. *)
Inductive transport : Type :=
| Connected (r : response)
| NoResponse (e : exn).

(** The statements inside [with client.stream(...) as response]. *)
Definition handle_response (r : response) : M bytes :=
  if (400 <=? status_code r)%Z then
    stream_stop (ending r) ;;;
    logger (LogApiError (status_code r) (text r)) ;;;
    raise (APIError (s_ "API request failed with status"))
  else
    logger (LogStatus (status_code r)) ;;;
    let content_type :=
      lower (match content_type r with Some h => h | None => [] end) in
    logger (LogContentType content_type) ;;;
    video_data <- _parse_streaming_response r content_type ;;
    match video_data with
    | [] => raise (StreamingError (s_ "No video data received from API"))
    | _ :: _ =>
        logger (LogReceived (length video_data)) ;;;
        ret video_data
    end.

(** The three [except] clauses of [generate_video], in order. *)
Definition on_exception (e : exn) : M bytes :=
  match e with
  | TimeoutException =>
      logger LogTimeout ;;; raise (APIError (s_ "Request timeout"))
  | HTTPError =>
      logger LogHttpError ;;; raise (APIError (s_ "HTTP error"))
  | APIError _ | StreamingError _ => raise e
  | _ =>
      logger (LogUnexpected e) ;;;
      raise (StreamingError (s_ "Unexpected error during video generation"))
  end.

(** [generate_video], from the answer to its request on. *)
Definition generate_video (t : transport) : M bytes :=
  try_except
    (match t with
     | Connected r => handle_response r
     | NoResponse e => raise e
     end)
    (fun _ => true) on_exception.

(** ** encode_image_to_base64 (src/encoder.py)

    The file at [image_path] is absent ([None]) or has a suffix, a size
    and a content.  [MAX_IMAGE_SIZE] and [VALID_IMAGE_FORMATS] come from
    src/config.py and are parameters here. *)

Record image_file : Type := {
  suffix : str;
  st_size : N;
  image_data : bytes
}.

Inductive encoded : Type :=
| Encoded (s : str)
| InvalidImageError (msg : str).

Definition encode_image_to_base64 (MAX_IMAGE_SIZE : N)
  (VALID_IMAGE_FORMATS : list str) (image_path : option image_file) : encoded :=
  match image_path with
  | None => InvalidImageError (s_ "Image file not found")
  | Some f =>
      let file_extension := lower (suffix f) in
      if negb (existsb (str_eqb file_extension) VALID_IMAGE_FORMATS) then
        InvalidImageError (s_ "Invalid image format")
      else if MAX_IMAGE_SIZE <? st_size f then
        InvalidImageError (s_ "Image file too large")
      else
        let encoded := b64encode (image_data f) in
        Encoded (decode_ascii encoded)
  end.

(** ** The classifier as the specification words it (section 4.2)

    A case-insensitive match compares characters up to their case; the
    four rules are tried in order, and a missing header is Unknown. *)

Definition same_letter (a b : N) : bool := lower_cp a =? lower_cp b.

Fixpoint ci_startswith (p s : str) : bool :=
  match p, s with
  | [], _ => true
  | x :: p', y :: s' => same_letter x y && ci_startswith p' s'
  | _ :: _, [] => false
  end.

Fixpoint ci_contains (p s : str) : bool :=
  ci_startswith p s ||
  match s with
  | [] => false
  | _ :: s' => ci_contains p s'
  end.

Definition classify (header : option str) : strategy :=
  match header with
  | None => Unknown
  | Some h =>
      if ci_contains (s_ "octet-stream") h || ci_startswith (s_ "video/") h
      then Binary
      else if ci_contains (s_ "text/event-stream") h then ServerSentEvents
      else if ci_contains (s_ "json") h then NdjsonStream
      else Unknown
  end.

(** The parser that goes with each strategy. *)
Definition parser_of (s : strategy) : response -> option Z -> M bytes :=
  match s with
  | Binary => _parse_binary_stream
  | ServerSentEvents => _parse_sse_stream
  | NdjsonStream => _parse_json_stream
  | Unknown => _parse_unknown_stream
  end.

(** [response.headers.get("content-type", "").lower()] *)
Definition lowered_content_type (r : response) : str :=
  lower (match content_type r with Some h => h | None => [] end).

(** ** The text parsers, line by line

    What each text parser does once the chunking is forgotten: it handles
    a list of lines in order, meets the end of the stream, and joins what
    it has extracted. *)

Definition sse_result (st : nat * list bytes) : M bytes :=
  match snd st with
  | [] => raise (StreamingError (s_ "No video data found in SSE stream"))
  | video_chunks => ret (join video_chunks)
  end.

Definition sse_over_lines (lines : list str) (e : stream_end) : M bytes :=
  st <- for_each lines sse_line (0%nat, []) ;;
  stream_stop e ;;;
  sse_result st.

Definition json_result (video_chunks : list bytes) : M bytes :=
  match video_chunks with
  | [] => raise (StreamingError (s_ "No video data found in JSON stream"))
  | _ :: _ => ret (join video_chunks)
  end.

Definition json_over_lines (lines : list str) (e : stream_end) : M bytes :=
  video_chunks <- for_each lines json_line [] ;;
  stream_stop e ;;;
  json_result video_chunks.

Definition no_nl (s : str) : bool := forallb (fun c => negb (c =? nl)) s.

(** The complete lines of a text: what precedes its last newline. *)
Definition complete_lines (s : str) : list str := removelast (split_nl s).

(** The unterminated rest of a text: what follows its last newline. *)
Definition residual (s : str) : str := last (split_nl s) [].

(** The whole text of a response, and its complete lines. *)
Definition body_text (r : response) : str := concat (iter_text r).

Definition lines_of (r : response) : list str := complete_lines (body_text r).


(** A line that the NDJSON parser hands to [json.loads], which rejects it. *)
Definition json_malformed (line : str) : Prop :=
  strip line <> [] /\ json_loads (strip line) = None.

(** A response that streams the given text chunks and closes. *)
Definition text_response (header : str) (chunks : list str) : response :=
  {| status_code := 200; content_type := Some header;
     content_length := None; total_size_int := None; text := [];
     iter_bytes := []; iter_text := chunks; ending := Closed |}.

(** An ASCII literal in which each vertical bar stands for a newline. *)
Definition lf (x : str) : str :=
  List.map (fun c => if c =? 124 then nl else c) x.

(** ** The search in a candidate object, as a first-match rule

    The first URL field, in the order of [fields], whose value yields a
    URL; and the first data field present, [content] left out. *)

Fixpoint first_url (fields : list str) (d : list (str * value)) : option (str * str) :=
  match fields with
  | [] => None
  | field :: rest =>
      match dict_get field d with
      | Some v =>
          match extract_url_from_html v with
          | Some (c :: u) => Some (field, c :: u)
          | _ => first_url rest d
          end
      | None => first_url rest d
      end
  end.

Fixpoint first_data (fields : list str) (d : list (str * value)) : option value :=
  match fields with
  | [] => None
  | field :: rest =>
      match dict_get field d with
      | Some v =>
          if negb (str_eqb field (s_ "content")) then Some v
          else first_data rest d
      | None => first_data rest d
      end
  end.

(** What the search in a dict [d] does, by that rule: the first URL
    found is dereferenced and decides; else the first data field present
    is decoded and decides; else the search goes on elsewhere. *)
Definition first_match (p : place) (d : list (str * value)) : M (ctl (option bytes)) :=
  match first_url url_fields d with
  | Some (field, url) =>
      logger (LogFoundUrl p field) ;;;
      r <- _download_video_from_url url ;;
      ret (Return r)
  | None =>
      match first_data possible_fields d with
      | Some v => ret (Return (_decode_video_data v))
      | None => ret Continue
      end
  end.

(** An object with none of the URL or data field names among its keys. *)
Definition no_media_field (d : list (str * value)) : bool :=
  forallb (fun field => match dict_get field d with Some _ => false | None => true end)
          (url_fields ++ possible_fields).

(** An object in which the search finds nothing: no URL field yields a
    URL and no data field (content apart) is present. *)
Definition silent (d : list (str * value)) : bool :=
  match first_url url_fields d, first_data possible_fields d with
  | None, None => true
  | _, _ => false
  end.

(** A sub-object of a choice that is absent, or a dict in which the
    search finds nothing. *)
Definition quiet_sub (key : str) (c : list (str * value)) : bool :=
  match dict_get key c with
  | None => true
  | Some (VDict d) => silent d
  | Some _ => false
  end.

(** An entry of [choices] in whose delta and message the search finds
    nothing. *)
Definition quiet_choice (choice : value) : bool :=
  match choice with
  | VDict c => quiet_sub (s_ "delta") c && quiet_sub (s_ "message") c
  | _ => false
  end.

(** An object whose [choices], if any, give nothing to the search. *)
Definition choices_silent (top : list (str * value)) : bool :=
  match dict_get (s_ "choices") top with
  | None => true
  | Some (VList items) => forallb quiet_choice items
  | Some _ => false
  end.

(** What one GET for [url] gives in the world [w]: the value returned by
    [_download_video_from_url], its log, and the world after it. *)
Definition deref (w : world) (url : str) : option bytes :=
  match net w (gets w) url with
  | Reply status_code content => if (status_code =? 200)%Z then Some content else None
  | Failed => None
  end.

Definition deref_log (w : world) (url : str) : list log_entry :=
  [LogDownloading; LogFullUrl url] ++
  match net w (gets w) url with
  | Reply status_code content =>
      if (status_code =? 200)%Z then [LogDownloaded (length content)]
      else [LogDownloadStatus status_code; LogDownloadResponse]
  | Failed => [LogDownloadError]
  end.

Definition after_get (w : world) : world :=
  {| net := net w; gets := S (gets w) |}.

(** The places searched in a chat-style object, in order: for each entry
    of [choices] its delta then its message (those that are dicts), and
    the top level last. *)
Definition sub_location (p : place) (key : str) (c : list (str * value))
  : list (place * list (str * value)) :=
  match dict_get key c with
  | Some (VDict d) => [(p, d)]
  | _ => []
  end.

Definition choice_locations (choice : value) : list (place * list (str * value)) :=
  match choice with
  | VDict c =>
      sub_location InDelta (s_ "delta") c ++ sub_location InMessage (s_ "message") c
  | _ => []
  end.

Definition locations (top : list (str * value)) : list (place * list (str * value)) :=
  match dict_get (s_ "choices") top with
  | Some (VList items) => flat_map choice_locations items
  | _ => []
  end ++ [(TopLevel, top)].

(** The first match over a list of places. *)
Definition search (locs : list (place * list (str * value))) : M (ctl (option bytes)) :=
  for_return locs (fun pd => first_match (fst pd) (snd pd)).

(** A sub-object of a choice that is absent or is a dict. *)
Definition plain_sub (key : str) (c : list (str * value)) : bool :=
  match dict_get key c with
  | None | Some (VDict _) => true
  | Some _ => false
  end.

(** Chat-style framing: [choices] is absent, or is an array of objects
    whose delta and message, when present, are objects. *)
Definition plain_choice (choice : value) : bool :=
  match choice with
  | VDict c => plain_sub (s_ "delta") c && plain_sub (s_ "message") c
  | _ => false
  end.

Definition chat_style (top : list (str * value)) : bool :=
  match dict_get (s_ "choices") top with
  | None => true
  | Some (VList items) => forallb plain_choice items
  | Some _ => false
  end.

(** The reading of the specification that the code does not follow: a
    result of None would mean that no data field of the object decodes. *)
Definition exhaustive_search : Prop :=
  forall (d : list (str * value)) (w : world),
    fst (fst (_extract_video_from_json (VDict d) w)) = Ok None ->
    forall field v,
      In field possible_fields -> str_eqb field (s_ "content") = false ->
      dict_get field d = Some v ->
      _decode_video_data v = None.

(** The line handler of the text strategy that [_parse_unknown_stream]
    tries for a first chunk that decodes to [text_data], if any. *)
Definition text_attempt (text_data : str)
  : option (str -> list bytes -> M (list bytes)) :=
  if startswith (s_ "data:") (strip text_data) then Some auto_sse_line
  else if startswith (s_ "{") (strip text_data) then Some auto_json_line
  else None.

(** A response without content type that streams the given byte chunks
    and closes. *)
Definition untyped_response (chunks : list bytes) : response :=
  {| status_code := 200; content_type := None;
     content_length := None; total_size_int := None; text := [];
     iter_bytes := chunks; iter_text := []; ending := Closed |}.

(** The chunks that [iter_bytes(chunk_size=8192)] can produce: every
    chunk but the last has 8192 bytes, and the last is not empty. *)
Fixpoint chunked_8192 (chunks : list bytes) : bool :=
  match chunks with
  | [] => true
  | [c] => (0 <? N.of_nat (length c)) && (N.of_nat (length c) <=? 8192)
  | c :: rest => (N.of_nat (length c) =? 8192) && chunked_8192 rest
  end.

(** A JSON body of 8194 bytes, an object padded with spaces and ended by
    a newline, as the two chunks in which it arrives. *)
Definition padded_object_head : bytes := b_ "{" ++ repeat x20 (N.to_nat 8191).
Definition padded_object_tail : bytes := b_ "}" ++ [x0a].

(** A hexadecimal digit, as [bytes.fromhex] reads it. *)
Definition is_hex_digit (c : N) : bool :=
  match hex_value c with Some _ => true | None => false end.

(** ** Auxiliary definitions and the inputs of the examples *)

(** The facts about one sextet, checked on all 64 of them. *)
Definition sextet_ok (v : N) : bool :=
  (b2a_char v <? 128) && negb (b2a_char v =? BASE64_PAD) &&
  match a2b_value (b2a_char v) with
  | Some v' => v' =? v
  | None => false
  end.

(** The four sextets of three bytes. *)
Definition sx0 (a : N) : N := N.shiftr a 2.
Definition sx1 (a b : N) : N := N.lor (N.shiftl (N.land a 3) 4) (N.shiftr b 4).
Definition sx2 (b c : N) : N := N.lor (N.shiftl (N.land b 15) 2) (N.shiftr c 6).
Definition sx3 (c : N) : N := N.land c 63.
(** What the decoder rebuilds from them, checked on all pairs of bytes:
    [a] and [b] are two bytes in a row, in any position of a group. *)
Definition pair_ok (a b : N) : bool :=
  (sx0 a <? 64) && (sx1 a b <? 64) && (sx2 a b <? 64) && (sx3 a <? 64) &&
  (N.lor (N.shiftl (sx0 a) 2) (N.shiftr (sx1 a b) 4) =? a) &&
  (N.land (sx1 a b) 15 =? N.shiftr b 4) &&
  (N.lor (N.shiftl (N.shiftr a 4) 4) (N.shiftr (sx2 a b) 2) =? a) &&
  (N.land (sx2 a b) 3 =? N.shiftr b 6) &&
  (N.lor (N.shiftl (N.shiftr a 6) 6) (sx3 a) =? a).

(** The example of the specification: the chunks AB and CD give ABCD, and
    a binary stream without chunks is a [StreamingError]. *)
Definition binary_response (chunks : list bytes) : response :=
  {| status_code := 200; content_type := Some (s_ "Video/MP4");
     content_length := None; total_size_int := None; text := [];
     iter_bytes := chunks; iter_text := []; ending := Closed |}.

Definition quiet_world : world :=
  {| net := fun _ _ => Failed; gets := 0 |}.

(** One SSE event without its newline is lost; with the newline it is found. *)
Definition lone_event : str := dq "data: {'video':'aGk='}".

(** The outcome and the world of a run, the log left out, the state seen
    through [f]. *)
Definition mask {A B} (f : A -> B) (x : outcome A * world * list log_entry)
  : outcome B * world :=
  (match fst (fst x) with Ok a => Ok (f a) | Raise e => Raise e end, snd (fst x)).

Ltac run := repeat (unfold bind, ret, raise, logger, lift; cbn beta iota).

(** The examples of the specification: a malformed first line, then a
    line that carries the base64 of two bytes. *)
Definition ndjson_two_lines : str := lf (dq "{oops|{'data':'b2s='}|").
Definition ndjson_good_line : str := lf (dq "{'data':'b2s='}|").
Definition sse_two_lines : str :=
  lf (dq "data: not-json|data: {'choices':[{'delta':{'video':'aGk='}}]}|").

(** A network on which every GET answers 200 with the bytes LIVE. *)
Definition live_world : world :=
  {| net := fun _ _ => Reply 200 (b_ "LIVE"); gets := 0 |}.

Definition url_and_video : list (str * value) :=
  [(s_ "video", VStr (s_ "aGk=")); (s_ "url", VStr (s_ "http://x/y.mp4"))].

(** A chat-style object whose delta carries a role and a prose content,
    and an inline [video] at the top level. *)
Definition chat_delta_and_video : list (str * value) :=
  [(s_ "choices",
    VList [VDict [(s_ "delta",
                   VDict [(s_ "role", VStr (s_ "assistant"));
                          (s_ "content", VStr (s_ "Hello"))])]]);
   (s_ "video", VStr (s_ "aGk="))].

(** An undecodable [video] field hides a decodable [data] field. *)
Definition video_then_data : list (str * value) :=
  [(s_ "video", VStr (s_ "zz")); (s_ "data", VStr (s_ "aGk="))].

(** A broken URL hides a decodable [video] field. *)
Definition broken_url_then_video : list (str * value) :=
  [(s_ "url", VStr (s_ "http://gone")); (s_ "video", VStr (s_ "aGk="))].

(** * Further parts of the program

    The request that [generate_video] builds and the three call sites
    that fill it, the model catalog and the selector, and the saver;
    then the predicates and the inputs used by the further properties. *)

(** ** The request of generate_video (src/api_client.py, 37-67)

    The JSON payload, as the [value] that [json=payload] serialises. *)

Definition image_entry (b64 : str) : value :=
  VDict [(s_ "type", VStr (s_ "image_url"));
         (s_ "image_url",
          VDict [(s_ "url", VStr (s_ "data:image/jpeg;base64," ++ b64))])].

Definition text_entry (prompt : str) : value :=
  VDict [(s_ "type", VStr (s_ "text")); (s_ "text", VStr prompt)].

(** [content = []; if img1_b64: content.append(...); if img2_b64: ...;
     content.append(<text entry>)]: [None] and the empty string are false. *)
Definition request_content (prompt : str) (img1_b64 img2_b64 : option str)
  : list value :=
  let content := [] in
  let content :=
    match img1_b64 with
    | Some (c :: s) => content ++ [image_entry (c :: s)]
    | _ => content
    end in
  let content :=
    match img2_b64 with
    | Some (c :: s) => content ++ [image_entry (c :: s)]
    | _ => content
    end in
  content ++ [text_entry prompt].

Definition request_payload (prompt model : str) (img1_b64 img2_b64 : option str)
  : value :=
  VDict [(s_ "model", VStr model);
         (s_ "messages",
          VList [VDict [(s_ "role", VStr (s_ "user"));
                        (s_ "content",
                         VList (request_content prompt img1_b64 img2_b64))]]);
         (s_ "stream", VBool true)].

(** The call of the entry point generate_video.py (line 35), which passes
    three positional arguments to the four parameters
    [(prompt, model, img1_b64, img2_b64)]; the fourth keeps its default. *)
Definition main_request (img1_b64 img2_b64 prompt_text : str) : value :=
  request_payload img1_b64 img2_b64 (Some prompt_text) None.

(** The calls of the commands i2v (cli/i2v.py, 75-80) and t2v
    (cli/t2v.py, 43-48), by keyword. *)
Definition i2v_request (prompt_text model_id img1_b64 : str) (img2_b64 : option str)
  : value :=
  request_payload prompt_text model_id (Some img1_b64) img2_b64.

Definition t2v_request (prompt_text model_id : str) : value :=
  request_payload prompt_text model_id None None.

(** ** The model catalog and the selector (src/models)

    [self.models] is the state of a [ModelCatalog]: a dict from model id
    to [ModelInfo], in insertion order.  The field [recommended] is the
    truth value of what the catalog file holds. *)

Module Models.

Record ModelInfo : Type := {
  id : str;
  name : str;
  category : str;
  description : str;
  features : list str;
  recommended : bool
}.

Inductive error : Type :=
| ModelNotFoundError
| ValueError.

Inductive result (A : Type) : Type :=
| Done (a : A)
| Fails (e : error).
Arguments Done {A} a.
Arguments Fails {A} e.

Definition catalog : Type := list (str * ModelInfo).

Fixpoint lookup (model_id : str) (models : catalog) : option ModelInfo :=
  match models with
  | [] => None
  | (k, m) :: models' => if str_eqb k model_id then Some m else lookup model_id models'
  end.

(** [self.models.values()] *)
Definition values (models : catalog) : list ModelInfo := List.map snd models.

Definition get_model (models : catalog) (model_id : str) : result ModelInfo :=
  match lookup model_id models with
  | None => Fails ModelNotFoundError
  | Some m => Done m
  end.

Definition list_models (models : catalog) (filter_category : option str)
  : list ModelInfo :=
  match filter_category with
  | Some (c :: s) =>
      List.filter (fun model => str_eqb (category model) (c :: s)) (values models)
  | _ => values models
  end.

Definition get_recommended (models : catalog) (category_ : str) : result ModelInfo :=
  let recommended_ :=
    List.filter (fun model => str_eqb (category model) category_ && recommended model)
                (values models) in
  match recommended_ with
  | [] => Fails ModelNotFoundError
  | model :: _ => Done model
  end.

(** [ModelSelector.select_model] (selector.py, 18-77) *)
Definition select_model (models : catalog) (mode : str) (image_count : Z)
  (manual_model : option str) (orientation : str) : result str :=
  match manual_model with
  | Some (c :: s) =>
      match get_model models (c :: s) with
      | Fails e => Fails e
      | Done _ => Done (c :: s)
      end
  | _ =>
      if str_eqb mode (s_ "t2v") then
        if str_eqb orientation (s_ "portrait")
        then Done (s_ "veo_3_1_t2v_fast_portrait")
        else Done (s_ "veo_3_1_t2v_fast_landscape")
      else if str_eqb mode (s_ "i2v") then
        if (image_count =? 1)%Z then
          if str_eqb orientation (s_ "portrait")
          then Done (s_ "veo_3_1_i2v_s_portrait")
          else Done (s_ "veo_3_1_i2v_s_landscape")
        else if (image_count =? 2)%Z then
          if str_eqb orientation (s_ "portrait")
          then Done (s_ "veo_3_1_i2v_s_fast_portrait_fl")
          else Done (s_ "veo_3_1_i2v_s_fast_fl")
        else Fails ValueError
      else Fails ValueError
  end.

(** A catalog with one model of each kind. *)
Definition sample : catalog :=
  [(s_ "veo_3_1_t2v_fast_landscape",
    {| id := s_ "veo_3_1_t2v_fast_landscape"; name := s_ "Veo 3.1 fast";
       category := s_ "t2v"; description := []; features := [];
       recommended := true |});
   (s_ "veo_3_1_i2v_s_landscape",
    {| id := s_ "veo_3_1_i2v_s_landscape"; name := s_ "Veo 3.1 i2v";
       category := s_ "i2v"; description := []; features := [];
       recommended := false |})].

End Models.

(** ** save_video_stream (src/video_saver.py, 37-60)

    The files on disk, by path.  What [write_bytes] and [unlink] do is
    given from outside: the write succeeds, or raises [OSError] either
    before the file is opened (the disk is as it was) or after (the path
    holds a part of the new content); the [unlink] of the handler
    succeeds or raises [OSError]. *)

Definition disk : Type := list (str * bytes).

Fixpoint read_bytes (path : str) (d : disk) : option bytes :=
  match d with
  | [] => None
  | (p, content) :: d' => if str_eqb p path then Some content else read_bytes path d'
  end.

Fixpoint remove_file (path : str) (d : disk) : disk :=
  match d with
  | [] => []
  | (p, content) :: d' =>
      if str_eqb p path then remove_file path d' else (p, content) :: remove_file path d'
  end.

Definition put_file (path : str) (content : bytes) (d : disk) : disk :=
  (path, content) :: remove_file path d.

Inductive write_outcome : Type :=
| Written
| WriteFailed (partial : option bytes).

Inductive save_result : Type :=
| Saved
| SaveError
| OSError.

Definition save_video_stream (write : write_outcome) (unlink_fails : bool)
  (stream_content : bytes) (output_path : str) (d : disk) : save_result * disk :=
  match write with
  | Written => (Saved, put_file output_path stream_content d)
  | WriteFailed partial =>
      let d :=
        match partial with
        | Some part => put_file output_path part d
        | None => d
        end in
      if unlink_fails then (OSError, d)
      else (SaveError, remove_file output_path d)
  end.

(** ** Further inputs of the examples *)

(** A response with an error status, whose body is the given text. *)
Definition error_response (status : Z) (body : str) : response :=
  {| status_code := status; content_type := Some (s_ "application/json");
     content_length := None; total_size_int := None; text := body;
     iter_bytes := []; iter_text := []; ending := Closed |}.

(** A binary response whose connection breaks after the given chunks. *)
Definition broken_response (chunks : list bytes) (e : exn) : response :=
  {| status_code := 200; content_type := Some (s_ "video/mp4");
     content_length := None; total_size_int := None; text := [];
     iter_bytes := chunks; iter_text := []; ending := Broken e |}.

(** The first bytes of an MP4 file, and a chunk that reads as a JSON line. *)
Definition mp4_head : bytes := [x00; x00; x00; x18] ++ b_ "ftypmp42".
Definition json_looking_chunk : bytes := b_ "{}" ++ [x0a].

(** A byte that cannot start a UTF-8 sequence. *)
Definition stray_byte : bytes := [xff].

(** A JSON line that carries the base64 of two bytes, as bytes. *)
Definition video_line_bytes : bytes :=
  List.map byte_of_N (dq "{'video':'aGk='}") ++ [x0a].

(** ** Lines and events singled out by the further properties *)

(** A line that the SSE parser passes over: it does not start with data:
    once stripped, or its payload is the end marker. *)
Definition sse_ignored (line : str) : Prop :=
  startswith (s_ "data:") (strip line) = false \/
  str_eqb (strip (skipn 5 (strip line))) (s_ "[DONE]") = true.



(** All the chunks of a list are non-empty. *)
Definition all_nonempty (chunks : list bytes) : Prop :=
  Forall (fun c => c <> []) chunks.



(** ** The cost of a search in GET requests *)

(** A search step that issues at most one GET, and only when it returns:
    when it goes on to the next step, or raises, the network is as it
    found it. *)
Definition frugal {A} (c : M (ctl A)) : Prop :=
  forall w,
    match c w with
    | (Ok (Return _), w', _) => w' = w \/ w' = after_get w
    | (_, w', _) => w' = w
    end.

(** A computation that leaves the network as it found it, and one that
    issues at most one GET. *)
Definition still {A} (m : M A) : Prop := forall w, snd (fst (m w)) = w.

Definition at_most_one_get {A} (m : M A) : Prop :=
  forall w,
    net (snd (fst (m w))) = net w /\
    (gets w <= gets (snd (fst (m w))) <= S (gets w))%nat.

(** ** Inputs of the examples on the extractor and the encoder *)

(** An object whose only media field is a [content] in base64. *)
Definition content_only : list (str * value) :=
  [(s_ "role", VStr (s_ "assistant")); (s_ "content", VStr (s_ "aGk="))].

(** A PNG file of three bytes whose suffix is in upper case, and an
    empty one. *)
Definition small_png : image_file :=
  {| suffix := s_ ".PNG"; st_size := 3; image_data := b_ "png" |}.

Definition empty_png : image_file :=
  {| suffix := s_ ".png"; st_size := 0; image_data := [] |}.

(** ** Responses that differ by their length header *)

(** The fields of a response that the parsers read. *)
Definition same_body (r r' : response) : Prop :=
  status_code r' = status_code r /\ content_type r' = content_type r /\
  text r' = text r /\ iter_bytes r' = iter_bytes r /\
  iter_text r' = iter_text r /\ ending r' = ending r.

(** A binary response that announces [announced] bytes. *)
Definition announced_response (announced : Z) (header : str) (chunks : list bytes)
  : response :=
  {| status_code := 200; content_type := Some (s_ "Video/MP4");
     content_length := Some header; total_size_int := Some announced; text := [];
     iter_bytes := chunks; iter_text := []; ending := Closed |}.

(** A binary response whose length header is not a number. *)
Definition bad_length_response (chunks : list bytes) : response :=
  {| status_code := 200; content_type := Some (s_ "Video/MP4");
     content_length := Some (s_ "unknown"); total_size_int := None; text := [];
     iter_bytes := chunks; iter_text := []; ending := Closed |}.

(** A complete NDJSON answer with a video, sent in one chunk. *)
Definition one_chunk_answer : bytes := video_line_bytes.

(** ** Byte chunks and the texts they decode to *)

(** Every chunk of [chunks] is valid UTF-8 by itself, and [texts] are the
    decoded chunks. *)
Definition decoded (chunks : list bytes) (texts : list str) : Prop :=
  Forall2 (fun chunk t => utf8_decode chunk = Some t) chunks texts.

(** * Properties *)

(** ** Bytes and small numbers *)

Lemma forallb_below (P : N -> bool) (k : nat) :
  forallb P (List.map N.of_nat (seq 0 k)) = true ->
  forall n, n < N.of_nat k -> P n = true.
Proof.
  intros H n Hn. rewrite forallb_forall in H. apply H.
  apply in_map_iff. exists (N.to_nat n). split.
  - apply N2Nat.id.
  - apply in_seq. lia.
Qed.

Lemma to_N_lt (x : byte) : Byte.to_N x < 256.
Proof. pose proof (Byte.to_N_bounded x). lia. Qed.

Lemma byte_of_to_N (x : byte) : byte_of_N (Byte.to_N x) = x.
Proof.
  unfold byte_of_N. rewrite N.mod_small by apply to_N_lt.
  now rewrite Byte.of_to_N.
Qed.

Lemma to_N_byte_of (n : N) : n < 256 -> Byte.to_N (byte_of_N n) = n.
Proof.
  intros H. unfold byte_of_N. rewrite N.mod_small by assumption.
  destruct (Byte.of_N n) as [b|] eqn:E.
  - now apply Byte.to_of_N.
  - apply Byte.of_N_None_iff in E. lia.
Qed.

(** ** base64: decoding what the encoder wrote *)

Lemma sextet_ok_all : forall v, v < 64 -> sextet_ok v = true.
Proof. apply (forallb_below sextet_ok 64). vm_compute. reflexivity. Qed.

Lemma b2a_char_ascii v : v < 64 -> b2a_char v < 128.
Proof.
  intros H. pose proof (sextet_ok_all H) as E. unfold sextet_ok in E.
  apply andb_prop in E as [E _]. apply andb_prop in E as [E _].
  now apply N.ltb_lt.
Qed.

Lemma b2a_char_not_pad v : v < 64 -> (b2a_char v =? BASE64_PAD) = false.
Proof.
  intros H. pose proof (sextet_ok_all H) as E. unfold sextet_ok in E.
  apply andb_prop in E as [E _]. apply andb_prop in E as [_ E].
  now apply negb_true_iff.
Qed.

Lemma a2b_b2a v : v < 64 -> a2b_value (b2a_char v) = Some v.
Proof.
  intros H. pose proof (sextet_ok_all H) as E. unfold sextet_ok in E.
  apply andb_prop in E as [_ E].
  destruct (a2b_value (b2a_char v)); [|discriminate].
  apply N.eqb_eq in E. now subst.
Qed.

Lemma pair_ok_all : forall a b, a < 256 -> b < 256 -> pair_ok a b = true.
Proof.
  intros a b Ha Hb.
  assert (H : forall a, a < 256 ->
              forallb (pair_ok a) (List.map N.of_nat (seq 0 256)) = true).
  { apply (forallb_below
             (fun a => forallb (pair_ok a) (List.map N.of_nat (seq 0 256))) 256).
    vm_compute. reflexivity. }
  exact (forallb_below (pair_ok a) 256 (H a Ha) Hb).
Qed.

Lemma pair_facts a b :
  a < 256 -> b < 256 ->
  sx0 a < 64 /\ sx1 a b < 64 /\ sx2 a b < 64 /\ sx3 a < 64 /\
  N.lor (N.shiftl (sx0 a) 2) (N.shiftr (sx1 a b) 4) = a /\
  N.land (sx1 a b) 15 = N.shiftr b 4 /\
  N.lor (N.shiftl (N.shiftr a 4) 4) (N.shiftr (sx2 a b) 2) = a /\
  N.land (sx2 a b) 3 = N.shiftr b 6 /\
  N.lor (N.shiftl (N.shiftr a 6) 6) (sx3 a) = a.
Proof.
  intros Ha Hb. pose proof (pair_ok_all Ha Hb) as E. unfold pair_ok in E.
  repeat (apply andb_prop in E as [E ?]).
  repeat match goal with
         | H : (_ <? _) = true |- _ => apply N.ltb_lt in H
         | H : (_ =? _) = true |- _ => apply N.eqb_eq in H
         end.
  tauto.
Qed.

(** One turn of the decoder's loop on a character of the alphabet, for
    each position in the quad. *)
Lemma a2b_loop_q0 v rest lc p out :
  v < 64 -> a2b_loop (b2a_char v :: rest) 0 lc p out = a2b_loop rest 1 v 0 out.
Proof.
  intros H. cbn [a2b_loop].
  rewrite (b2a_char_not_pad H), (a2b_b2a H). reflexivity.
Qed.

Lemma a2b_loop_q1 v rest lc p out :
  v < 64 ->
  a2b_loop (b2a_char v :: rest) 1 lc p out =
  a2b_loop rest 2 (N.land v 15) 0
    (out ++ [byte_of_N (N.lor (N.shiftl lc 2) (N.shiftr v 4))]).
Proof.
  intros H. cbn [a2b_loop].
  rewrite (b2a_char_not_pad H), (a2b_b2a H). reflexivity.
Qed.

Lemma a2b_loop_q2 v rest lc p out :
  v < 64 ->
  a2b_loop (b2a_char v :: rest) 2 lc p out =
  a2b_loop rest 3 (N.land v 3) 0
    (out ++ [byte_of_N (N.lor (N.shiftl lc 4) (N.shiftr v 2))]).
Proof.
  intros H. cbn [a2b_loop].
  rewrite (b2a_char_not_pad H), (a2b_b2a H). reflexivity.
Qed.

Lemma a2b_loop_q3 v rest lc p out :
  v < 64 ->
  a2b_loop (b2a_char v :: rest) 3 lc p out =
  a2b_loop rest 0 0 0 (out ++ [byte_of_N (N.lor (N.shiftl lc 6) v)]).
Proof.
  intros H. cbn [a2b_loop].
  rewrite (b2a_char_not_pad H), (a2b_b2a H). reflexivity.
Qed.

Lemma to_N_b2a v : v < 64 -> Byte.to_N (byte_of_N (b2a_char v)) = b2a_char v.
Proof.
  intros H. apply to_N_byte_of. pose proof (b2a_char_ascii H). lia.
Qed.

Lemma list_ind3 (A : Type) (P : list A -> Prop) :
  P [] -> (forall x, P [x]) -> (forall x y, P [x; y]) ->
  (forall x y z l, P l -> P (x :: y :: z :: l)) ->
  forall l, P l.
Proof.
  intros H0 H1 H2 H3.
  fix IH 1. intros [|x [|y [|z l]]].
  - exact H0.
  - apply H1.
  - apply H2.
  - apply H3, IH.
Qed.

(** The zero sextets that pad the last group. *)
Lemma sx1_zero a : sx1 a 0 = N.shiftl (N.land a 3) 4.
Proof. unfold sx1. rewrite N.shiftr_0_l. apply N.lor_0_r. Qed.

Lemma sx2_zero b : sx2 b 0 = N.shiftl (N.land b 15) 2.
Proof. unfold sx2. rewrite N.shiftr_0_l. apply N.lor_0_r. Qed.

Lemma a2b_b2a_loop data :
  forall out,
    a2b_loop (List.map Byte.to_N (b2a_base64 data)) 0 0 0 out = Some (out ++ data).
Proof.
  induction data as [|x|x y|x y z l IH] using list_ind3; intros out.
  - cbn. now rewrite app_nil_r.
  - pose proof (to_N_lt x) as Hx.
    destruct (@pair_facts (Byte.to_N x) 0 Hx eq_refl)
      as (H0 & H1 & _ & _ & E0 & _).
    cbn [b2a_base64 List.map]. rewrite <- sx1_zero. fold (sx0 (Byte.to_N x)).
    rewrite !to_N_b2a by assumption.
    rewrite (a2b_loop_q0 _ _ _ _ H0), (a2b_loop_q1 _ _ _ _ H1).
    rewrite E0, byte_of_to_N. reflexivity.
  - pose proof (to_N_lt x) as Hx. pose proof (to_N_lt y) as Hy.
    destruct (@pair_facts (Byte.to_N x) (Byte.to_N y) Hx Hy)
      as (H0 & H1 & _ & _ & E0 & L1 & _).
    destruct (@pair_facts (Byte.to_N y) 0 Hy eq_refl)
      as (_ & _ & H2 & _ & _ & _ & E1 & _).
    cbn [b2a_base64 List.map]. rewrite <- sx2_zero.
    fold (sx0 (Byte.to_N x)). fold (sx1 (Byte.to_N x) (Byte.to_N y)).
    rewrite !to_N_b2a by assumption.
    rewrite (a2b_loop_q0 _ _ _ _ H0), (a2b_loop_q1 _ _ _ _ H1),
      L1, (a2b_loop_q2 _ _ _ _ H2).
    rewrite E0, E1, !byte_of_to_N, <- app_assoc. reflexivity.
  - pose proof (to_N_lt x) as Hx. pose proof (to_N_lt y) as Hy.
    pose proof (to_N_lt z) as Hz.
    destruct (@pair_facts (Byte.to_N x) (Byte.to_N y) Hx Hy)
      as (H0 & H1 & _ & _ & E0 & L1 & _).
    destruct (@pair_facts (Byte.to_N y) (Byte.to_N z) Hy Hz)
      as (_ & _ & H2 & _ & _ & _ & E1 & L2 & _).
    destruct (@pair_facts (Byte.to_N z) 0 Hz eq_refl)
      as (_ & _ & _ & H3 & _ & _ & _ & _ & E2).
    cbn [b2a_base64 List.map].
    fold (sx0 (Byte.to_N x)). fold (sx1 (Byte.to_N x) (Byte.to_N y)).
    fold (sx2 (Byte.to_N y) (Byte.to_N z)). fold (sx3 (Byte.to_N z)).
    rewrite !to_N_b2a by assumption.
    rewrite (a2b_loop_q0 _ _ _ _ H0), (a2b_loop_q1 _ _ _ _ H1),
      L1, (a2b_loop_q2 _ _ _ _ H2), L2, (a2b_loop_q3 _ _ _ _ H3).
    rewrite E0, E1, E2, !byte_of_to_N.
    rewrite IH, <- !app_assoc. reflexivity.
Qed.

Lemma b2a_base64_ascii data :
  forallb (fun c => c <? 128) (List.map Byte.to_N (b2a_base64 data)) = true.
Proof.
  induction data as [|x|x y|x y z l IH] using list_ind3.
  - reflexivity.
  - pose proof (to_N_lt x) as Hx.
    destruct (@pair_facts (Byte.to_N x) 0 Hx eq_refl) as (H0 & H1 & _).
    cbn [b2a_base64 List.map forallb]. rewrite <- sx1_zero.
    fold (sx0 (Byte.to_N x)). rewrite !to_N_b2a by assumption.
    apply b2a_char_ascii, N.ltb_lt in H0, H1. now rewrite H0, H1.
  - pose proof (to_N_lt x) as Hx. pose proof (to_N_lt y) as Hy.
    destruct (@pair_facts (Byte.to_N x) (Byte.to_N y) Hx Hy) as (H0 & H1 & _).
    destruct (@pair_facts (Byte.to_N y) 0 Hy eq_refl) as (_ & _ & H2 & _).
    cbn [b2a_base64 List.map forallb]. rewrite <- sx2_zero.
    fold (sx0 (Byte.to_N x)). fold (sx1 (Byte.to_N x) (Byte.to_N y)).
    rewrite !to_N_b2a by assumption.
    apply b2a_char_ascii, N.ltb_lt in H0, H1, H2. now rewrite H0, H1, H2.
  - pose proof (to_N_lt x) as Hx. pose proof (to_N_lt y) as Hy.
    pose proof (to_N_lt z) as Hz.
    destruct (@pair_facts (Byte.to_N x) (Byte.to_N y) Hx Hy) as (H0 & H1 & _).
    destruct (@pair_facts (Byte.to_N y) (Byte.to_N z) Hy Hz) as (_ & _ & H2 & _).
    destruct (@pair_facts (Byte.to_N z) 0 Hz eq_refl) as (_ & _ & _ & H3 & _).
    cbn [b2a_base64 List.map forallb].
    fold (sx0 (Byte.to_N x)). fold (sx1 (Byte.to_N x) (Byte.to_N y)).
    fold (sx2 (Byte.to_N y) (Byte.to_N z)). fold (sx3 (Byte.to_N z)).
    rewrite !to_N_b2a by assumption.
    apply b2a_char_ascii, N.ltb_lt in H0, H1, H2, H3.
    now rewrite H0, H1, H2, H3, IH.
Qed.

Lemma map_byte_of_to_N (b : bytes) : List.map byte_of_N (List.map Byte.to_N b) = b.
Proof.
  induction b as [|x b IH]; cbn; [reflexivity|].
  now rewrite byte_of_to_N, IH.
Qed.

(** Text made of ASCII bytes encodes back to those bytes. *)
Lemma encode_decode_ascii data :
  encode_ascii (decode_ascii (b64encode data)) = Some (b64encode data).
Proof.
  unfold encode_ascii, decode_ascii, b64encode.
  now rewrite b2a_base64_ascii, map_byte_of_to_N.
Qed.

Lemma b64decode_b64encode data :
  b64decode (decode_ascii (b64encode data)) = Some data.
Proof.
  unfold b64decode. rewrite encode_decode_ascii.
  unfold a2b_base64, b64encode. apply (a2b_b2a_loop data []).
Qed.

(** On ASCII bytes the UTF-8 codec is the identity on the byte values. *)
Lemma utf8_decode_N_ascii (l : list N) :
  forallb (fun c => c <? 128) l = true -> utf8_decode_N l = Some l.
Proof.
  induction l as [|c l IH]; cbn [forallb utf8_decode_N]; [reflexivity|].
  intros H. apply andb_prop in H as [Hc Hl].
  rewrite Hc, (IH Hl). reflexivity.
Qed.

(** ** Lines and the line buffer *)

Lemma split_nl_not_nil s : split_nl s <> [].
Proof.
  destruct s as [|c s]; cbn; [discriminate|].
  destruct (c =? nl); [discriminate|].
  destruct (split_nl s); discriminate.
Qed.

Lemma split_nl_no_nl s : no_nl s = true -> split_nl s = [s].
Proof.
  induction s as [|c s IH]; cbn; [reflexivity|].
  intros H. apply andb_prop in H as [Hc Hs].
  apply negb_true_iff in Hc. rewrite Hc, (IH Hs). reflexivity.
Qed.

Lemma residual_no_nl s : no_nl (residual s) = true.
Proof.
  unfold residual. induction s as [|c s IH]; cbn; [reflexivity|].
  destruct (c =? nl) eqn:E.
  - pose proof (split_nl_not_nil s) as Hn.
    destruct (split_nl s) as [|l ls]; [contradiction|exact IH].
  - pose proof (split_nl_not_nil s) as Hn.
    destruct (split_nl s) as [|l [|l' ls]]; [contradiction| |exact IH].
    cbn in *. now rewrite E.
Qed.

Lemma split_nl_app a b :
  split_nl (a ++ b) = complete_lines a ++ split_nl (residual a ++ b).
Proof.
  unfold complete_lines, residual.
  induction a as [|c a IH]; [reflexivity|].
  cbn [app split_nl]. rewrite IH. clear IH.
  pose proof (split_nl_not_nil a) as Hn.
  destruct (c =? nl) eqn:E.
  - destruct (split_nl a) as [|l ls]; [contradiction|]. reflexivity.
  - destruct (split_nl a) as [|l [|l' ls]]; [contradiction| |].
    + cbn [removelast last app split_nl]. rewrite E. reflexivity.
    + reflexivity.
Qed.

Lemma last_app_not_nil (A : Type) (l l' : list A) (d : A) :
  l' <> [] -> last (l ++ l') d = last l' d.
Proof.
  intros H. induction l as [|x l IH]; [reflexivity|].
  cbn [app last]. destruct (l ++ l') eqn:E; [|exact IH].
  apply app_eq_nil in E as [_ E]. contradiction.
Qed.

Lemma complete_lines_app a b :
  complete_lines (a ++ b) = complete_lines a ++ complete_lines (residual a ++ b).
Proof.
  unfold complete_lines at 1. rewrite split_nl_app.
  apply removelast_app, split_nl_not_nil.
Qed.

Lemma residual_app a b : residual (a ++ b) = residual (residual a ++ b).
Proof.
  unfold residual at 1. rewrite split_nl_app.
  apply last_app_not_nil, split_nl_not_nil.
Qed.

Lemma complete_lines_no_nl s : no_nl s = true -> complete_lines s = [].
Proof. intros H. unfold complete_lines. now rewrite split_nl_no_nl. Qed.

Lemma residual_id s : no_nl s = true -> residual s = s.
Proof. intros H. unfold residual. now rewrite split_nl_no_nl. Qed.

Lemma no_nl_app a b : no_nl (a ++ b) = no_nl a && no_nl b.
Proof. apply forallb_app. Qed.

(** A fragment without newline at the end of a text adds no line. *)
Lemma complete_lines_tail a t :
  no_nl t = true -> complete_lines (a ++ t) = complete_lines a.
Proof.
  intros H. rewrite complete_lines_app.
  rewrite (@complete_lines_no_nl (residual a ++ t)).
  - apply app_nil_r.
  - now rewrite no_nl_app, residual_no_nl.
Qed.

(** ** Laws of the monad *)

Lemma bind_ret_l A B (a : A) (f : A -> M B) w : bind (ret a) f w = f a w.
Proof. unfold bind, ret. now destruct (f a w) as [[r w'] l]. Qed.

Lemma bind_ret_r A (m : M A) w : bind m ret w = m w.
Proof.
  unfold bind, ret. destruct (m w) as [[[a|e] w'] l]; [|reflexivity].
  now rewrite app_nil_r.
Qed.

Lemma bind_assoc A B C (m : M A) (f : A -> M B) (g : B -> M C) w :
  bind (bind m f) g w = bind m (fun a => bind (f a) g) w.
Proof.
  unfold bind. destruct (m w) as [[[a|e] w1] l1]; [|reflexivity].
  destruct (f a w1) as [[[b|e] w2] l2]; [|reflexivity].
  destruct (g b w2) as [[r w3] l3]. now rewrite app_assoc.
Qed.

(** Two continuations that agree give the same computation. *)
Lemma bind_ext A B (m : M A) (f g : A -> M B) w :
  (forall a w', f a w' = g a w') -> bind m f w = bind m g w.
Proof.
  intros H. unfold bind. destruct (m w) as [[[a|e] w1] l1]; [|reflexivity].
  now rewrite H.
Qed.

Lemma for_each_app X S (xs ys : list X) (body : X -> S -> M S) st w :
  for_each (xs ++ ys) body st w =
  bind (for_each xs body st) (fun st' => for_each ys body st') w.
Proof.
  revert st w. induction xs as [|x xs IH]; intros st w; cbn [app for_each].
  - now rewrite bind_ret_l.
  - rewrite bind_assoc. apply bind_ext. intros a w'. apply IH.
Qed.

Lemma bind_ext_l A B (m m' : M A) (f : A -> M B) w :
  (forall w', m w' = m' w') -> bind m f w = bind m' f w.
Proof. intros H. unfold bind. now rewrite H. Qed.

Lemma feed_eq S (on_line : str -> S -> M S) chunk buffer st :
  feed on_line chunk (buffer, st) =
  bind (for_each (complete_lines (buffer ++ chunk)) on_line st)
       (fun inner' => ret (residual (buffer ++ chunk), inner')).
Proof. reflexivity. Qed.

(** The chunk loop of a text parser handles exactly the complete lines of
    the text received, in order, and keeps its unterminated rest. *)
Lemma for_each_feed S (on_line : str -> S -> M S) chunks :
  forall buffer st w,
    no_nl buffer = true ->
    for_each chunks (feed on_line) (buffer, st) w =
    bind (for_each (complete_lines (buffer ++ concat chunks)) on_line st)
         (fun st' => ret (residual (buffer ++ concat chunks), st')) w.
Proof.
  induction chunks as [|c chunks IH]; intros buffer st w Hb.
  - cbn [for_each concat]. rewrite app_nil_r, complete_lines_no_nl by assumption.
    cbn [for_each]. rewrite bind_ret_l, residual_id by assumption. reflexivity.
  - cbn [for_each concat]. rewrite feed_eq, bind_assoc.
    rewrite app_assoc, (complete_lines_app (buffer ++ c) (concat chunks)),
      (residual_app (buffer ++ c) (concat chunks)).
    rewrite (@bind_ext_l _ _ _ _ _ _ (for_each_app _ _ on_line st)), bind_assoc.
    apply bind_ext. intros a w'. rewrite bind_ret_l.
    apply IH, residual_no_nl.
Qed.

(** ** The inline decoder *)

Lemma hex_digit_base64 c :
  is_hex_digit c = true ->
  (c =? BASE64_PAD) = false /\ (exists v, a2b_value c = Some v) /\
  (c <? 128) = true /\ ascii_isspace c = false.
Proof.
  unfold is_hex_digit, hex_value, a2b_value, BASE64_PAD, ascii_isspace.
  destruct ((48 <=? c) && (c <=? 57)) eqn:E1.
  - intros _. apply andb_prop in E1 as [H1 H2]. apply N.leb_le in H1, H2.
    replace (c =? 61) with false by (symmetry; apply N.eqb_neq; lia).
    replace ((65 <=? c) && (c <=? 90)) with false
      by (symmetry; apply andb_false_iff; left; apply N.leb_gt; lia).
    replace ((97 <=? c) && (c <=? 122)) with false
      by (symmetry; apply andb_false_iff; left; apply N.leb_gt; lia).
    replace (c <? 128) with true by (symmetry; apply N.ltb_lt; lia).
    replace (c <=? 13) with false by (symmetry; apply N.leb_gt; lia).
    replace (c =? 32) with false by (symmetry; apply N.eqb_neq; lia).
    rewrite andb_false_r. repeat split; eauto.
  - destruct ((97 <=? c) && (c <=? 102)) eqn:E2.
    + intros _. apply andb_prop in E2 as [H1 H2]. apply N.leb_le in H1, H2.
      replace (c =? 61) with false by (symmetry; apply N.eqb_neq; lia).
      replace ((65 <=? c) && (c <=? 90)) with false
        by (symmetry; apply andb_false_iff; right; apply N.leb_gt; lia).
      replace ((97 <=? c) && (c <=? 122)) with true
        by (symmetry; apply andb_true_iff; split; apply N.leb_le; lia).
      replace (c <? 128) with true by (symmetry; apply N.ltb_lt; lia).
      replace (c <=? 13) with false by (symmetry; apply N.leb_gt; lia).
      replace (c =? 32) with false by (symmetry; apply N.eqb_neq; lia).
      rewrite andb_false_r. repeat split; eauto.
    + destruct ((65 <=? c) && (c <=? 70)) eqn:E3; [|discriminate].
      intros _. apply andb_prop in E3 as [H1 H2]. apply N.leb_le in H1, H2.
      replace (c =? 61) with false by (symmetry; apply N.eqb_neq; lia).
      replace ((65 <=? c) && (c <=? 90)) with true
        by (symmetry; apply andb_true_iff; split; apply N.leb_le; lia).
      replace (c <? 128) with true by (symmetry; apply N.ltb_lt; lia).
      replace (c <=? 13) with false by (symmetry; apply N.leb_gt; lia).
      replace (c =? 32) with false by (symmetry; apply N.eqb_neq; lia).
      rewrite andb_false_r. repeat split; eauto.
Qed.

(** On characters of the alphabet the decoder only counts: it succeeds
    exactly when the input ends on a quad. *)
Lemma a2b_loop_alphabet data :
  forall q lc p out,
    q < 4 ->
    forallb is_hex_digit data = true ->
    match a2b_loop data q lc p out with
    | Some _ => (q + N.of_nat (length data)) mod 4 = 0
    | None => (q + N.of_nat (length data)) mod 4 <> 0
    end.
Proof.
  induction data as [|c data IH]; intros q lc p out Hq Hd.
  - cbn [a2b_loop length]. rewrite N.add_0_r, (N.mod_small q 4 Hq).
    destruct (q =? 0) eqn:E; [apply N.eqb_eq in E|apply N.eqb_neq in E]; assumption.
  - cbn [forallb] in Hd. apply andb_prop in Hd as [Hc Hd].
    destruct (@hex_digit_base64 c Hc) as (Hp & [v Hv] & _).
    cbn [a2b_loop]. rewrite Hp, Hv.
    assert (R : forall q', q' < 4 -> (q' + N.of_nat (length data)) mod 4
                                = (q + N.of_nat (length (c :: data))) mod 4 ->
              forall lc' out',
              match a2b_loop data q' lc' 0 out' with
              | Some _ => (q + N.of_nat (length (c :: data))) mod 4 = 0
              | None => (q + N.of_nat (length (c :: data))) mod 4 <> 0
              end).
    { intros q' Hq' E lc' out'. rewrite <- E. now apply IH. }
    cbn [length] in *.
    destruct (q =? 0) eqn:E0.
    { apply N.eqb_eq in E0. subst q. apply R; [lia|]. f_equal. lia. }
    destruct (q =? 1) eqn:E1.
    { apply N.eqb_eq in E1. subst q. apply R; [lia|]. f_equal. lia. }
    destruct (q =? 2) eqn:E2.
    { apply N.eqb_eq in E2. subst q. apply R; [lia|]. f_equal. lia. }
    apply N.eqb_neq in E0, E1, E2. assert (q = 3) by lia. subst q.
    apply R; [lia|].
    replace (3 + N.of_nat (S (length data))) with (N.of_nat (length data) + 1 * 4) by lia.
    rewrite N.Div0.mod_add. now rewrite N.add_0_l.
Qed.

Lemma list_ind2 (A : Type) (P : list A -> Prop) :
  P [] -> (forall x, P [x]) -> (forall x y l, P l -> P (x :: y :: l)) ->
  forall l, P l.
Proof.
  intros H0 H1 H2. fix IH 1. intros [|x [|y l]].
  - exact H0.
  - apply H1.
  - apply H2, IH.
Qed.

(** On hexadecimal digits [bytes.fromhex] succeeds exactly when their
    number is even. *)
Lemma fromhex_loop_digits s :
  forall out,
    forallb is_hex_digit s = true ->
    match fromhex_loop s out with
    | Some _ => Nat.even (length s) = true
    | None => Nat.even (length s) = false
    end.
Proof.
  induction s as [|c|c d s IH] using list_ind2; intros out Hs.
  - reflexivity.
  - cbn [forallb] in Hs. apply andb_prop in Hs as [Hc _].
    destruct (@hex_digit_base64 c Hc) as (_ & _ & _ & Hsp).
    cbn [fromhex_loop]. rewrite Hsp. now destruct (hex_value c).
  - cbn [forallb] in Hs. apply andb_prop in Hs as [Hc Hs].
    apply andb_prop in Hs as [Hd Hs].
    destruct (@hex_digit_base64 c Hc) as (_ & _ & _ & Hsp).
    cbn [fromhex_loop]. rewrite Hsp. unfold is_hex_digit in Hc, Hd.
    destruct (hex_value c); [|discriminate].
    destruct (hex_value d); [|discriminate].
    cbn [length Nat.even]. now apply IH.
Qed.

Lemma hex_digits_ascii s :
  forallb is_hex_digit s = true -> forallb (fun c => c <? 128) s = true.
Proof.
  induction s as [|c s IH]; [reflexivity|]. cbn [forallb]. intros H.
  apply andb_prop in H as [Hc Hs].
  destruct (@hex_digit_base64 c Hc) as (_ & _ & Ha & _). now rewrite Ha, IH.
Qed.

Lemma to_N_byte_of_hex s :
  forallb is_hex_digit s = true ->
  List.map Byte.to_N (List.map byte_of_N s) = s.
Proof.
  induction s as [|c s IH]; [reflexivity|]. cbn [forallb List.map]. intros H.
  apply andb_prop in H as [Hc Hs].
  destruct (@hex_digit_base64 c Hc) as (_ & _ & Ha & _). apply N.ltb_lt in Ha.
  rewrite to_N_byte_of by lia. now rewrite IH.
Qed.

(** For a text made of hexadecimal digits the path taken depends on its
    length alone: base64 when it is a multiple of four, hex when it is
    even and not a multiple of four, and no result when it is odd. *)
Lemma hex_text_decoding s :
  forallb is_hex_digit s = true ->
  match (N.of_nat (length s)) mod 4 with
  | 0 => exists b, b64decode s = Some b /\ _decode_video_data (VStr s) = Some b
  | 2 => b64decode s = None /\
         exists h, fromhex s = Some h /\ _decode_video_data (VStr s) = Some h
  | _ => _decode_video_data (VStr s) = None
  end.
Proof.
  intros H. cbn [_decode_video_data].
  unfold b64decode, encode_ascii, a2b_base64, fromhex.
  rewrite (@hex_digits_ascii s H), (@to_N_byte_of_hex s H).
  pose proof (@a2b_loop_alphabet s 0 0 0 [] eq_refl H) as A.
  pose proof (@fromhex_loop_digits s [] H) as F.
  rewrite N.add_0_l in A.
  pose proof (N.Div0.div_mod (N.of_nat (length s)) 4) as D.
  pose proof (N.mod_upper_bound (N.of_nat (length s)) 4) as U.
  remember (N.of_nat (length s) mod 4) as m eqn:Em.
  remember (N.of_nat (length s) / 4) as k eqn:Ek.
  assert (Hm : m = 0 \/ m = 1 \/ m = 2 \/ m = 3) by lia.
  assert (Even : Nat.even (length s) = true -> m = 0 \/ m = 2).
  { intros E. apply Nat.even_spec in E as [j E]. lia. }
  assert (Odd : Nat.even (length s) = false -> m = 1 \/ m = 3).
  { intros E. rewrite <- Nat.negb_odd in E. apply negb_false_iff in E.
    apply Nat.odd_spec in E as [j E]. lia. }
  destruct (a2b_loop s 0 0 0 []) as [b|].
  - subst m. rewrite A. eauto.
  - destruct (fromhex_loop s []) as [h|].
    + destruct (Even F) as [->| ->]; [contradiction|]. split; eauto.
    + destruct (Odd F) as [->| ->]; reflexivity.
Qed.

Example decode_base64_hi : _decode_video_data (VStr (s_ "aGk=")) = Some (b_ "hi").
Proof. reflexivity. Qed.

(** [abcd] is valid base64 and valid hex: base64 wins. *)
Example decode_both_valid :
  b64decode (s_ "abcd") = Some [x69; xb7; x1d] /\
  fromhex (s_ "abcd") = Some [xab; xcd] /\
  _decode_video_data (VStr (s_ "abcd")) = Some [x69; xb7; x1d].
Proof. repeat split. Qed.

(** [abcdef] stops in the middle of a quad: it is decoded as hex. *)
Example decode_hex_only :
  b64decode (s_ "abcdef") = None /\
  _decode_video_data (VStr (s_ "abcdef")) = Some [xab; xcd; xef].
Proof. repeat split. Qed.

Example decode_neither : _decode_video_data (VStr (s_ "zz")) = None.
Proof. reflexivity. Qed.

(** C7. Inline decode: bytes are returned unchanged; a string is decoded
    as base64 whenever base64 decoding succeeds (also when it is valid
    hex), as hexadecimal when base64 fails and hex succeeds, and gives no
    result when both fail; any other value gives no result. *)
Theorem inline_decode_order (v : value) :
  match v with
  | VBytes b => _decode_video_data v = Some b
  | VStr s =>
      (forall b, b64decode s = Some b -> _decode_video_data v = Some b) /\
      (forall h, b64decode s = None -> fromhex s = Some h ->
                 _decode_video_data v = Some h) /\
      (b64decode s = None -> fromhex s = None -> _decode_video_data v = None)
  | _ => _decode_video_data v = None
  end.
Proof.
  destruct v; try reflexivity.
  cbn [_decode_video_data]. repeat split.
  - intros b E. now rewrite E.
  - intros h E1 E2. now rewrite E1, E2.
  - intros E1 E2. now rewrite E1, E2.
Qed.

Lemma inline_decode_order_witness :
  _decode_video_data (VBytes (b_ "raw")) = Some (b_ "raw") /\
  _decode_video_data (VStr (s_ "abcd")) = Some [x69; xb7; x1d] /\
  _decode_video_data (VStr (s_ "abcdef")) = Some [xab; xcd; xef] /\
  _decode_video_data (VStr (s_ "zz")) = None /\
  _decode_video_data (VInt 7) = None.
Proof.
  split; [exact (inline_decode_order (VBytes (b_ "raw")))|].
  split; [apply (proj1 (inline_decode_order (VStr (s_ "abcd")))); reflexivity|].
  split; [apply (proj1 (proj2 (inline_decode_order (VStr (s_ "abcdef")))));
          reflexivity|].
  split; [apply (proj2 (proj2 (inline_decode_order (VStr (s_ "zz")))));
          reflexivity|].
  exact (inline_decode_order (VInt 7)).
Defined.

(** ** The base64 round trip *)

(** C8. Round trip: the text that the image encoder produces for a byte
    sequence ([base64.b64encode] followed by [decode('utf-8')]) is decoded
    by [_decode_video_data], through its base64 path, to the same bytes. *)
Theorem base64_round_trip (data : bytes) :
  utf8_decode (b64encode data) = Some (decode_ascii (b64encode data)) /\
  b64decode (decode_ascii (b64encode data)) = Some data /\
  _decode_video_data (VStr (decode_ascii (b64encode data))) = Some data.
Proof.
  split; [|split].
  - unfold utf8_decode, decode_ascii, b64encode.
    apply utf8_decode_N_ascii, b2a_base64_ascii.
  - apply b64decode_b64encode.
  - cbn [_decode_video_data]. now rewrite b64decode_b64encode.
Qed.

(** The same through the whole of [encode_image_to_base64]. *)
Lemma encoded_image_decodes max_size formats f s :
  encode_image_to_base64 max_size formats (Some f) = Encoded s ->
  _decode_video_data (VStr s) = Some (image_data f).
Proof.
  unfold encode_image_to_base64.
  destruct (negb _); [discriminate|]. destruct (_ <? _); [discriminate|].
  intros E. injection E as <-. cbn [_decode_video_data].
  now rewrite b64decode_b64encode.
Qed.

(** ** The binary parser *)

Lemma binary_loop chunks :
  forall acc n w,
    for_each chunks
      (fun chunk (st : list bytes * nat) =>
         let '(chunks, downloaded) := st in
         ret (chunks ++ [chunk], downloaded + length chunk)%nat)
      (acc, n) w =
    (Ok (acc ++ chunks, (n + length (concat chunks))%nat), w, []).
Proof.
  induction chunks as [|c chunks IH]; intros acc n w; cbn [for_each concat].
  - now rewrite app_nil_r, Nat.add_0_r.
  - rewrite bind_ret_l, IH, <- app_assoc, length_app, Nat.add_assoc.
    reflexivity.
Qed.

Lemma parse_binary_closed r total_size w :
  ending r = Closed ->
  _parse_binary_stream r total_size w = (Ok (join (iter_bytes r)), w, []).
Proof.
  intros E. unfold _parse_binary_stream, for_stream. rewrite E.
  unfold bind at 1. unfold bind at 1. rewrite binary_loop. reflexivity.
Qed.

(** ** The classifier *)

Lemma lower_cp_idem c : lower_cp (lower_cp c) = lower_cp c.
Proof.
  unfold lower_cp.
  destruct ((65 <=? c) && (c <=? 90)) eqn:E1.
  - apply andb_prop in E1 as [H1 H2]. apply N.leb_le in H1, H2.
    replace ((65 <=? c + 32) && (c + 32 <=? 90)) with false
      by (symmetry; apply andb_false_iff; right; apply N.leb_gt; lia).
    replace ((192 <=? c + 32) && (c + 32 <=? 222)) with false
      by (symmetry; apply andb_false_iff; left; apply N.leb_gt; lia).
    reflexivity.
  - destruct ((192 <=? c) && (c <=? 222) && negb (c =? 215)) eqn:E2;
      [|now rewrite E1, E2].
    apply andb_prop in E2 as [H _]. apply andb_prop in H as [H1 H2].
    apply N.leb_le in H1, H2.
    replace ((65 <=? c + 32) && (c + 32 <=? 90)) with false
      by (symmetry; apply andb_false_iff; right; apply N.leb_gt; lia).
    replace ((192 <=? c + 32) && (c + 32 <=? 222)) with false
      by (symmetry; apply andb_false_iff; right; apply N.leb_gt; lia).
    reflexivity.
Qed.

(** Matching a lower-case pattern in the lowered text is matching up to case. *)
Lemma startswith_lower p s :
  lower p = p -> startswith p (lower s) = ci_startswith p s.
Proof.
  revert s. induction p as [|x p IH]; intros s Hp; [reflexivity|].
  cbn in Hp. injection Hp as Hx Hp.
  destruct s as [|y s]; [reflexivity|].
  cbn [lower List.map startswith ci_startswith]. fold (lower s).
  rewrite (IH s Hp). unfold same_letter. now rewrite Hx.
Qed.

Lemma contains_lower p s :
  lower p = p -> contains p (lower s) = ci_contains p s.
Proof.
  intros Hp. induction s as [|y s IH].
  - cbn [lower List.map contains ci_contains].
    now rewrite <- (startswith_lower [] Hp).
  - change (lower (y :: s)) with (lower_cp y :: lower s).
    cbn [contains ci_contains]. rewrite IH.
    change (lower_cp y :: lower s) with (lower (y :: s)).
    now rewrite (startswith_lower (y :: s) Hp).
Qed.

Lemma lower_patterns :
  lower (s_ "octet-stream") = s_ "octet-stream" /\
  lower (s_ "video/") = s_ "video/" /\
  lower (s_ "text/event-stream") = s_ "text/event-stream" /\
  lower (s_ "json") = s_ "json".
Proof. repeat split. Qed.

(** The class of a header does not depend on the case of its letters. *)
Lemma classify_lower h : classify (Some (lower h)) = classify (Some h).
Proof.
  assert (S : forall p s, ci_startswith p (lower s) = ci_startswith p s).
  { induction p as [|x p IH]; intros [|y s]; try reflexivity.
    cbn [lower List.map ci_startswith]. fold (lower s).
    unfold same_letter. now rewrite lower_cp_idem, IH. }
  assert (C : forall p s, ci_contains p (lower s) = ci_contains p s).
  { intros p. induction s as [|y s IH].
    - cbn [lower List.map ci_contains]. now rewrite <- (S p []).
    - change (lower (y :: s)) with (lower_cp y :: lower s).
      cbn [ci_contains]. rewrite IH.
      change (lower_cp y :: lower s) with (lower (y :: s)). now rewrite S. }
  unfold classify. now rewrite !C, S.
Qed.

(** The dispatch of [_parse_streaming_response] follows [classify]. *)
Lemma dispatch_by_class (r : response) (w : world) :
  _parse_streaming_response r (lowered_content_type r) w =
  (total_size <- lift (total_size_of r) ;;
   logger (LogDetected (classify (content_type r)) (lowered_content_type r)) ;;;
   parser_of (classify (content_type r)) r total_size) w.
Proof.
  destruct lower_patterns as (P1 & P2 & P3 & P4).
  unfold _parse_streaming_response. apply bind_ext. intros total_size w'.
  unfold lowered_content_type, classify.
  destruct (content_type r) as [h|]; [|reflexivity].
  rewrite (contains_lower h P1), (startswith_lower h P2),
    (contains_lower h P3), (contains_lower h P4).
  destruct (ci_contains (s_ "octet-stream") h || ci_startswith (s_ "video/") h);
    [reflexivity|].
  destruct (ci_contains (s_ "text/event-stream") h); [reflexivity|].
  destruct (ci_contains (s_ "json") h); reflexivity.
Qed.

(** C4. Format classifier: on the lowered content-type header (the empty
    text when the header is missing) [_parse_streaming_response] runs the
    parser that the case-insensitive rules of the specification select:
    Binary for octet-stream anywhere or video/ at the start, else SSE for
    text/event-stream, else NDJSON for json, else Unknown; and the class
    of a header does not change with the case of its letters. *)
Theorem content_type_dispatch (r : response) (w : world) :
  _parse_streaming_response r (lowered_content_type r) w =
  (total_size <- lift (total_size_of r) ;;
   logger (LogDetected (classify (content_type r)) (lowered_content_type r)) ;;;
   parser_of (classify (content_type r)) r total_size) w /\
  classify None = Unknown /\
  (forall h, classify (Some (lower h)) = classify (Some h)).
Proof.
  split; [apply dispatch_by_class|]. split; [reflexivity|].
  intros h. apply classify_lower.
Qed.

(** ** The binary path of generate_video *)

Lemma handle_response_binary r w total_size :
  (status_code r < 400)%Z ->
  classify (content_type r) = Binary ->
  total_size_of r = Ok total_size ->
  ending r = Closed ->
  fst (fst (handle_response r w)) =
  match join (iter_bytes r) with
  | [] => Raise (StreamingError (s_ "No video data received from API"))
  | video => Ok video
  end.
Proof.
  intros Hs Hc Ht He. unfold handle_response.
  replace (400 <=? status_code r)%Z with false by (symmetry; apply Z.leb_gt; lia).
  fold (lowered_content_type r).
  unfold bind at 1. cbn [logger]. unfold bind at 1. cbn [logger].
  unfold bind at 1. rewrite dispatch_by_class, Hc.
  unfold bind at 1. rewrite Ht. cbn [lift]. unfold bind at 1. cbn [logger].
  cbn [parser_of]. rewrite (parse_binary_closed r total_size _ He).
  destruct (join (iter_bytes r)); reflexivity.
Qed.

Lemma generate_video_outcome r w :
  fst (fst (generate_video (Connected r) w)) =
  match fst (fst (handle_response r w)) with
  | Ok video => Ok video
  | Raise e =>
      match e with
      | TimeoutException => Raise (APIError (s_ "Request timeout"))
      | HTTPError => Raise (APIError (s_ "HTTP error"))
      | APIError _ | StreamingError _ => Raise e
      | _ => Raise (StreamingError (s_ "Unexpected error during video generation"))
      end
  end.
Proof.
  unfold generate_video, try_except.
  destruct (handle_response r w) as [[[video|e] w'] l]; [reflexivity|].
  cbn [fst]. destruct e; reflexivity.
Qed.

(** C3. Binary streams: when the connection closes normally the binary
    parser returns the concatenation of the chunks in arrival order; for a
    response classified Binary, [generate_video] returns that
    concatenation, and when the stream has no chunk it raises
    [StreamingError] (a streaming-format error, not [APIError]). *)
Theorem binary_stream_concatenation (r : response) (w : world) :
  ending r = Closed ->
  (forall total_size,
      _parse_binary_stream r total_size w = (Ok (join (iter_bytes r)), w, [])) /\
  ((status_code r < 400)%Z ->
   classify (content_type r) = Binary ->
   (forall total_size, total_size_of r = Ok total_size ->
      join (iter_bytes r) <> [] ->
      fst (fst (generate_video (Connected r) w)) = Ok (join (iter_bytes r))) /\
   (forall total_size, total_size_of r = Ok total_size ->
      iter_bytes r = [] ->
      fst (fst (generate_video (Connected r) w)) =
      Raise (StreamingError (s_ "No video data received from API"))) /\
   (iter_bytes r = [] ->
      exists msg,
        fst (fst (generate_video (Connected r) w)) = Raise (StreamingError msg))).
Proof.
  intros He. split.
  - intros total_size. now apply parse_binary_closed.
  - intros Hs Hc. split; [|split].
    + intros total_size Ht Hne.
      rewrite generate_video_outcome, (handle_response_binary r w Hs Hc Ht He).
      destruct (join (iter_bytes r)); [contradiction|reflexivity].
    + intros total_size Ht Hnil.
      rewrite generate_video_outcome, (handle_response_binary r w Hs Hc Ht He).
      now rewrite Hnil.
    + intros Hnil. rewrite generate_video_outcome.
      destruct (total_size_of r) as [total_size|e] eqn:Ht.
      * rewrite (handle_response_binary r w Hs Hc Ht He), Hnil.
        cbn [join concat]. eauto.
      * unfold handle_response.
        replace (400 <=? status_code r)%Z with false
          by (symmetry; apply Z.leb_gt; lia).
        fold (lowered_content_type r).
        unfold bind at 1. cbn [logger]. unfold bind at 1. cbn [logger].
        unfold bind at 1. rewrite dispatch_by_class.
        unfold bind at 1. rewrite Ht. cbn [lift fst].
        unfold total_size_of in Ht.
        destruct (content_length r) as [[|c cl]|]; try discriminate.
        destruct (total_size_int r); [discriminate|].
        injection Ht as <-. eauto.
Qed.

Lemma binary_stream_concatenation_witness :
  _parse_binary_stream (binary_response [b_ "AB"; b_ "CD"]) None quiet_world =
    (Ok (b_ "ABCD"), quiet_world, []) /\
  fst (fst (generate_video (Connected (binary_response [b_ "AB"; b_ "CD"]))
              quiet_world)) = Ok (b_ "ABCD") /\
  fst (fst (generate_video (Connected (binary_response [])) quiet_world)) =
    Raise (StreamingError (s_ "No video data received from API")).
Proof.
  split; [|split].
  - exact (proj1 (binary_stream_concatenation
                    (binary_response [b_ "AB"; b_ "CD"]) quiet_world eq_refl) None).
  - apply (proj1 (proj2 (binary_stream_concatenation
                    (binary_response [b_ "AB"; b_ "CD"]) quiet_world eq_refl)
                    eq_refl eq_refl) None); [reflexivity|discriminate].
  - apply (proj1 (proj2 (proj2 (binary_stream_concatenation
                    (binary_response []) quiet_world eq_refl)
                    eq_refl eq_refl)) None); reflexivity.
Defined.

(** ** The text parsers see complete lines only *)

Lemma parse_sse_lines r total_size w :
  _parse_sse_stream r total_size w = sse_over_lines (lines_of r) (ending r) w.
Proof.
  unfold _parse_sse_stream, sse_over_lines, for_stream, lines_of, body_text.
  rewrite bind_assoc.
  rewrite (@bind_ext_l _ _ _ _ _ _
             (fun w' => for_each_feed sse_line (iter_text r) [] (0%nat, []) w' eq_refl)).
  cbn [app]. rewrite bind_assoc. apply bind_ext. intros st w1.
  rewrite bind_ret_l, !bind_assoc. apply bind_ext. intros u w2.
  rewrite bind_ret_l. unfold sse_result. cbn [snd]. reflexivity.
Qed.

Lemma parse_json_lines r total_size w :
  _parse_json_stream r total_size w = json_over_lines (lines_of r) (ending r) w.
Proof.
  unfold _parse_json_stream, json_over_lines, for_stream, lines_of, body_text.
  rewrite bind_assoc.
  rewrite (@bind_ext_l _ _ _ _ _ _
             (fun w' => for_each_feed json_line (iter_text r) [] [] w' eq_refl)).
  cbn [app]. rewrite bind_assoc. apply bind_ext. intros st w1.
  rewrite bind_ret_l, !bind_assoc. apply bind_ext. intros u w2.
  rewrite bind_ret_l. unfold json_result. cbn [snd].
  destruct st; reflexivity.
Qed.

(** C9. The residual line buffer is never processed: the result of the
    SSE parser and of the NDJSON parser depends only on the complete
    lines of the text (what follows the last newline is dropped), so a
    final fragment without newline changes nothing, and a stream whose
    text has no newline at all, such as one data: event without its
    newline, extracts nothing and raises [StreamingError]. *)
Theorem residual_line_dropped (r : response) (total_size : option Z) (w : world) :
  (forall r',
      ending r' = ending r -> lines_of r' = lines_of r ->
      _parse_sse_stream r' total_size w = _parse_sse_stream r total_size w /\
      _parse_json_stream r' total_size w = _parse_json_stream r total_size w) /\
  (forall r' fragment,
      ending r' = ending r -> iter_text r' = iter_text r ++ [fragment] ->
      no_nl fragment = true ->
      _parse_sse_stream r' total_size w = _parse_sse_stream r total_size w /\
      _parse_json_stream r' total_size w = _parse_json_stream r total_size w) /\
  (ending r = Closed -> no_nl (body_text r) = true ->
   _parse_sse_stream r total_size w =
     (Raise (StreamingError (s_ "No video data found in SSE stream")), w, []) /\
   _parse_json_stream r total_size w =
     (Raise (StreamingError (s_ "No video data found in JSON stream")), w, [])).
Proof.
  assert (A : forall r', ending r' = ending r -> lines_of r' = lines_of r ->
      _parse_sse_stream r' total_size w = _parse_sse_stream r total_size w /\
      _parse_json_stream r' total_size w = _parse_json_stream r total_size w).
  { intros r' He Hl. rewrite !parse_sse_lines, !parse_json_lines, He, Hl.
    split; reflexivity. }
  split; [exact A|split].
  - intros r' fragment He Ht Hf. apply A; [exact He|].
    unfold lines_of, body_text. rewrite Ht, concat_app. cbn [concat].
    rewrite app_nil_r. now apply complete_lines_tail.
  - intros He Hn. rewrite parse_sse_lines, parse_json_lines.
    unfold lines_of. rewrite (complete_lines_no_nl _ Hn), He. split; reflexivity.
Qed.

Lemma residual_line_dropped_witness :
  _parse_sse_stream (text_response (s_ "text/event-stream") [lone_event])
     None quiet_world =
    (Raise (StreamingError (s_ "No video data found in SSE stream")),
     quiet_world, []) /\
  _parse_json_stream
     (text_response (s_ "application/json") [dq "{'video':'aGk='}"])
     None quiet_world =
    (Raise (StreamingError (s_ "No video data found in JSON stream")),
     quiet_world, []) /\
  _parse_sse_stream
     (text_response (s_ "text/event-stream") [lf (s_ "data: [DONE]|"); lone_event])
     None quiet_world =
  _parse_sse_stream
     (text_response (s_ "text/event-stream") [lf (s_ "data: [DONE]|")])
     None quiet_world.
Proof.
  split; [|split].
  - apply (proj2 (proj2 (residual_line_dropped
             (text_response (s_ "text/event-stream") [lone_event])
             None quiet_world))); reflexivity.
  - apply (proj2 (proj2 (residual_line_dropped
             (text_response (s_ "application/json") [dq "{'video':'aGk='}"])
             None quiet_world))); reflexivity.
  - apply (proj1 (proj2 (residual_line_dropped
             (text_response (s_ "text/event-stream") [lf (s_ "data: [DONE]|")])
             None quiet_world))
             (text_response (s_ "text/event-stream")
                [lf (s_ "data: [DONE]|"); lone_event]) lone_event);
      reflexivity.
Defined.

Example lone_event_terminated :
  fst (fst (_parse_sse_stream
              (text_response (s_ "text/event-stream") [lone_event ++ [nl]])
              None quiet_world)) = Ok (b_ "hi").
Proof. vm_compute. reflexivity. Qed.

(** ** A malformed line is skipped *)

Lemma mask_bind A B C (f : B -> C) (m : M A) (k : A -> M B) w :
  mask f (bind m k w) =
  match m w with
  | (Ok a, w', _) => mask f (k a w')
  | (Raise e, w', _) => (Raise e, w')
  end.
Proof.
  unfold bind, mask. destruct (m w) as [[[a|e] w'] l]; [|reflexivity].
  now destruct (k a w') as [[r w''] l'].
Qed.

Lemma log_bind A B (m : M A) (k : A -> M B) w a w' l :
  m w = (Ok a, w', l) -> snd (bind m k w) = l ++ snd (k a w').
Proof.
  intros E. unfold bind. rewrite E. now destruct (k a w') as [[r w''] l'].
Qed.



(** [line_count] is used for the log only. *)
Lemma sse_line_count line n n' acc w :
  mask snd (sse_line line (n, acc) w) = mask snd (sse_line line (n', acc) w).
Proof.
  unfold sse_line.
  destruct (strip line) as [|c l] eqn:El.
  - reflexivity.
  - rewrite !mask_bind. cbn [logger].
    destruct (startswith (s_ "data:") (c :: l)); [|reflexivity].
    destruct (str_eqb _ _); [reflexivity|].
    destruct (json_loads _) as [data|]; [|reflexivity].
    rewrite !mask_bind. cbn [logger]. rewrite !mask_bind.
    destruct (_extract_video_from_json data w) as [[[vc|e] w1] l1];
      [|reflexivity].
    destruct (truthy vc); [reflexivity|].
    destruct data; reflexivity.
Qed.

Lemma sse_lines_count lines :
  forall n n' acc w,
    mask snd (for_each lines sse_line (n, acc) w) =
    mask snd (for_each lines sse_line (n', acc) w).
Proof.
  induction lines as [|line lines IH]; intros n n' acc w; [reflexivity|].
  cbn [for_each]. rewrite !mask_bind.
  pose proof (sse_line_count line n n' acc w) as H. unfold mask in H.
  destruct (sse_line line (n, acc) w) as [[[[k a]|e] w1] l1],
           (sse_line line (n', acc) w) as [[[[k' a']|e'] w1'] l1'];
    cbn in H; try discriminate; injection H as -> ->.
  - apply IH.
  - reflexivity.
Qed.



Lemma sse_over_lines_fst ls ls' e w :
  mask snd (for_each ls sse_line (0%nat, []) w) =
  mask snd (for_each ls' sse_line (0%nat, []) w) ->
  fst (sse_over_lines ls e w) = fst (sse_over_lines ls' e w).
Proof.
  unfold sse_over_lines, mask. intros H. unfold bind at 1 3.
  destruct (for_each ls sse_line (0%nat, []) w) as [[[[k a]|x] w1] l1],
           (for_each ls' sse_line (0%nat, []) w) as [[[[k' a']|x'] w1'] l1'];
    cbn in H; try discriminate; injection H as -> ->; [|reflexivity].
  unfold sse_result. cbn [snd].
  destruct e, a'; reflexivity.
Qed.






Example ndjson_two_lines_result :
  fst (fst (_parse_json_stream
              (text_response (s_ "application/x-ndjson") [ndjson_two_lines])
              None quiet_world)) = Ok (b_ "ok").
Proof. vm_compute. reflexivity. Qed.

Example sse_two_lines_result :
  fst (fst (_parse_sse_stream
              (text_response (s_ "text/event-stream") [sse_two_lines])
              None quiet_world)) = Ok (b_ "hi").
Proof. vm_compute. reflexivity. Qed.

(** ** The payload extractor *)

Lemma bind_lift_ok A B (a : A) (f : A -> M B) w : bind (lift (Ok a)) f w = f a w.
Proof. exact (bind_ret_l a f w). Qed.

Lemma download_run url w :
  _download_video_from_url url w = (Ok (deref w url), after_get w, deref_log w url).
Proof.
  unfold _download_video_from_url, deref, deref_log, after_get, client_get.
  run. destruct (net w (gets w) url) as [status_code content|]; [|reflexivity].
  destruct (status_code =? 200)%Z; reflexivity.
Qed.

Lemma and_then_ext A (c1 c1' c2 c2' : M (ctl A)) w :
  (forall w', c1 w' = c1' w') -> (forall w', c2 w' = c2' w') ->
  and_then c1 c2 w = and_then c1' c2' w.
Proof.
  intros H1 H2. unfold and_then, bind. rewrite H1.
  destruct (c1' w) as [[[[a|]|e] w1] l1]; try reflexivity. now rewrite H2.
Qed.

Lemma and_then_continue_l A (c : M (ctl A)) w : and_then (ret Continue) c w = c w.
Proof. unfold and_then. now rewrite bind_ret_l. Qed.

Lemma and_then_continue_r A (c : M (ctl A)) w : and_then c (ret Continue) w = c w.
Proof.
  unfold and_then, bind, ret.
  destruct (c w) as [[[[a|]|e] w1] l1]; try reflexivity; now rewrite app_nil_r.
Qed.

Lemma and_then_assoc A (c1 c2 c3 : M (ctl A)) w :
  and_then (and_then c1 c2) c3 w = and_then c1 (and_then c2 c3) w.
Proof.
  unfold and_then. rewrite bind_assoc. apply bind_ext. intros [a|] w'.
  - now rewrite bind_ret_l.
  - reflexivity.
Qed.

Lemma for_return_cons X A (x : X) xs (body : X -> M (ctl A)) w :
  for_return (x :: xs) body w = and_then (body x) (for_return xs body) w.
Proof. reflexivity. Qed.

Lemma for_return_app X A (xs ys : list X) (body : X -> M (ctl A)) w :
  for_return (xs ++ ys) body w =
  and_then (for_return xs body) (for_return ys body) w.
Proof.
  revert w. induction xs as [|x xs IH]; intros w; cbn [app].
  - cbn [for_return]. now rewrite and_then_continue_l.
  - change (for_return (x :: xs) body)
      with (and_then (body x) (for_return xs body)).
    rewrite for_return_cons, and_then_assoc.
    apply and_then_ext; [reflexivity|exact IH].
Qed.

Lemma for_return_flat_map X Y A (g : X -> list Y) xs (body : Y -> M (ctl A)) w :
  for_return (flat_map g xs) body w =
  for_return xs (fun x => for_return (g x) body) w.
Proof.
  revert w. induction xs as [|x xs IH]; intros w; cbn [flat_map]; [reflexivity|].
  rewrite for_return_app, for_return_cons.
  apply and_then_ext; [reflexivity|exact IH].
Qed.

Lemma for_return_ext X A xs (body body' : X -> M (ctl A)) w :
  (forall x w', In x xs -> body x w' = body' x w') ->
  for_return xs body w = for_return xs body' w.
Proof.
  revert w. induction xs as [|x xs IH]; intros w H; [reflexivity|].
  rewrite !for_return_cons. apply and_then_ext.
  - intros w'. apply H. now left.
  - intros w'. apply IH. intros y w'' Hy. apply H. now right.
Qed.

Lemma nil_log A (x : outcome A * world * list log_entry) :
  (let (p, l') := x in let (r, w'') := p in (r, w'', [] ++ l')) = x.
Proof. now destruct x as [[r w'] l]. Qed.

(** One URL field of a dict. *)
Lemma url_field_dict p d field w :
  url_field p (Ok (VDict d)) field w =
  match dict_get field d with
  | Some v =>
      match extract_url_from_html v with
      | Some (c :: u) =>
          (logger (LogFoundUrl p field) ;;;
           r <- _download_video_from_url (c :: u) ;;
           ret (Return r)) w
      | _ => (Ok Continue, w, [])
      end
  | None => (Ok Continue, w, [])
  end.
Proof.
  unfold url_field. rewrite bind_lift_ok. cbn [py_in].
  destruct (dict_get field d) as [v|] eqn:E; rewrite bind_lift_ok;
    [|reflexivity].
  rewrite bind_lift_ok. cbn [py_getitem]. rewrite E, bind_lift_ok.
  destruct (extract_url_from_html v) as [[|c u]|]; reflexivity.
Qed.

(** One data field of a dict. *)
Lemma data_field_dict d field w :
  data_field (Ok (VDict d)) field w =
  match dict_get field d with
  | Some v =>
      if negb (str_eqb field (s_ "content"))
      then (Ok (Return (_decode_video_data v)), w, [])
      else (Ok Continue, w, [])
  | None => (Ok Continue, w, [])
  end.
Proof.
  unfold data_field. rewrite bind_lift_ok. cbn [py_in].
  destruct (dict_get field d) as [v|] eqn:E; rewrite bind_lift_ok;
    [|reflexivity].
  cbn [andb]. destruct (negb _); [|reflexivity].
  rewrite bind_lift_ok. cbn [py_getitem]. rewrite E, bind_lift_ok. reflexivity.
Qed.

Lemma url_fields_dict p d fields w :
  for_return fields (url_field p (Ok (VDict d))) w =
  match first_url fields d with
  | Some (field, url) =>
      (logger (LogFoundUrl p field) ;;;
       r <- _download_video_from_url url ;;
       ret (Return r)) w
  | None => (Ok Continue, w, [])
  end.
Proof.
  induction fields as [|field fields IH]; [reflexivity|].
  rewrite for_return_cons. unfold and_then, bind at 1.
  rewrite url_field_dict. cbn [first_url].
  destruct (dict_get field d) as [v|]; [|rewrite nil_log; exact IH].
  destruct (extract_url_from_html v) as [[|c u]|];
    try (rewrite nil_log; exact IH).
  unfold bind, logger, ret. rewrite download_run.
  now rewrite !app_nil_r.
Qed.

Lemma data_fields_dict d fields w :
  for_return fields (data_field (Ok (VDict d))) w =
  match first_data fields d with
  | Some v => (Ok (Return (_decode_video_data v)), w, [])
  | None => (Ok Continue, w, [])
  end.
Proof.
  induction fields as [|field fields IH]; [reflexivity|].
  rewrite for_return_cons. unfold and_then, bind at 1.
  rewrite data_field_dict. cbn [first_data].
  destruct (dict_get field d) as [v|]; [|rewrite nil_log; exact IH].
  destruct (negb _); [reflexivity|rewrite nil_log; exact IH].
Qed.

(** The search in a dict is the first-match rule. *)
Lemma scan_dict p d w : scan p (Ok (VDict d)) w = first_match p d w.
Proof.
  unfold scan, and_then, url_loop, data_loop, first_match, bind at 1.
  rewrite url_fields_dict.
  destruct (first_url url_fields d) as [[field url]|].
  - unfold bind, logger, ret. rewrite download_run. now rewrite !app_nil_r.
  - rewrite data_fields_dict.
    destruct (first_data possible_fields d); reflexivity.
Qed.

(** A URL that [extract_url_from_html] returns is never empty. *)
Lemma match_src_nonempty t g : match_src t = Some g -> g <> [].
Proof.
  unfold match_src. destruct (startswith _ t); [|discriminate].
  destruct (skipn 4 t) as [|q r]; [discriminate|].
  destruct (is_quote q); [|discriminate].
  destruct (span _ r) as [[|c g'] [|x rest]]; try discriminate.
  intros E. injection E as <-. discriminate.
Qed.

Lemma match_attrs_nonempty t g : match_attrs t = Some g -> g <> [].
Proof.
  induction t as [|c t IH]; cbn [match_attrs].
  - apply match_src_nonempty.
  - destruct (c =? 62); [apply match_src_nonempty|].
    destruct (match_attrs t) as [g'|].
    + intros E. injection E as <-. now apply IH.
    + apply match_src_nonempty.
Qed.

Lemma re_search_nonempty t g : re_search_video_src t = Some g -> g <> [].
Proof.
  assert (T : forall t, match_video_tag t = Some g -> g <> []).
  { intros t'. unfold match_video_tag. destruct (startswith _ t'); [|discriminate].
    destruct (skipn 6 t') as [|c r]; [discriminate|].
    destruct (c =? 62); [discriminate|apply match_attrs_nonempty]. }
  induction t as [|c t IH]; cbn [re_search_video_src].
  - destruct (match_video_tag []) eqn:E; [|discriminate].
    intros E'. injection E' as <-. exact (T _ E).
  - destruct (match_video_tag (c :: t)) eqn:E; [|exact IH].
    intros E'. injection E' as <-. exact (T _ E).
Qed.

Lemma extract_url_nonempty v url : extract_url_from_html v = Some url -> url <> [].
Proof.
  destruct v; try discriminate. cbn [extract_url_from_html].
  destruct (re_search_video_src s) as [g|] eqn:E.
  - intros E'. injection E' as <-. exact (re_search_nonempty _ E).
  - destruct (startswith (s_ "http") s) eqn:Es; [|discriminate].
    intros E'. injection E' as <-. now destruct s.
Qed.

Lemma and_then_return A (c1 c2 : M (ctl A)) w a w1 l1 :
  c1 w = (Ok (Return a), w1, l1) -> and_then c1 c2 w = (Ok (Return a), w1, l1).
Proof. intros E. unfold and_then, bind, ret. rewrite E. now rewrite app_nil_r. Qed.

Lemma and_then_skip A (c1 c2 : M (ctl A)) w w1 :
  c1 w = (Ok Continue, w1, []) -> and_then c1 c2 w = c2 w1.
Proof. intros E. unfold and_then, bind. rewrite E. apply nil_log. Qed.

Lemma search_one p d w : search [(p, d)] w = first_match p d w.
Proof.
  unfold search. rewrite for_return_cons. cbn [for_return fst snd].
  apply and_then_continue_r.
Qed.

(** The delta part, or the message part, of the body of the choices loop. *)
Lemma sub_part p key c w :
  plain_sub key c = true ->
  (has <- lift (py_in key (VDict c)) ;;
   if has : bool then scan p (py_getitem (VDict c) key) else ret Continue) w =
  search (sub_location p key c) w.
Proof.
  unfold plain_sub, sub_location. intros H. cbn [py_in]. rewrite bind_lift_ok.
  cbn [py_getitem]. destruct (dict_get key c) as [[]|]; try discriminate.
  - rewrite search_one. apply scan_dict.
  - reflexivity.
Qed.

Lemma choice_body_plain choice w :
  plain_choice choice = true ->
  choice_body choice w = search (choice_locations choice) w.
Proof.
  destruct choice as [| | | | | | |c]; try discriminate.
  cbn [plain_choice choice_locations]. intros H.
  apply andb_prop in H as [Hd Hm].
  unfold choice_body, search. rewrite for_return_app.
  apply and_then_ext; intros w'; now apply sub_part.
Qed.

Lemma choices_part_chat top w :
  chat_style top = true ->
  choices_part (VDict top) w =
  search (match dict_get (s_ "choices") top with
          | Some (VList items) => flat_map choice_locations items
          | _ => []
          end) w.
Proof.
  unfold chat_style, choices_part. intros H. cbn [py_in]. rewrite bind_lift_ok.
  cbn [py_getitem]. destruct (dict_get (s_ "choices") top) as [[]|];
    try discriminate; [|reflexivity].
  rewrite !bind_lift_ok. cbn [py_iter]. rewrite bind_lift_ok.
  unfold search. rewrite for_return_flat_map.
  apply for_return_ext. intros x w' Hx. apply choice_body_plain.
  rewrite forallb_forall in H. now apply H.
Qed.

(** On a chat-style object the extractor is the first match over the
    places of the object, in order. *)
Lemma extract_chat top w :
  chat_style top = true ->
  _extract_video_from_json (VDict top) w =
  (r <- search (locations top) ;; or_none r) w.
Proof.
  intros H. unfold _extract_video_from_json, locations, search.
  apply bind_ext_l. intros w'. rewrite for_return_app.
  apply and_then_ext.
  - intros w''. now apply choices_part_chat.
  - intros w''. rewrite scan_dict. symmetry.
    exact (search_one TopLevel top w'').
Qed.

(** ** Falling through the choices *)

Lemma first_url_absent fields d :
  (forall field, In field fields -> dict_get field d = None) ->
  first_url fields d = None.
Proof.
  induction fields as [|field fields IH]; intros H; [reflexivity|].
  cbn [first_url]. rewrite (H field (or_introl eq_refl)).
  apply IH. intros f Hf. apply H. now right.
Qed.

Lemma first_data_absent fields d :
  (forall field, In field fields -> dict_get field d = None) ->
  first_data fields d = None.
Proof.
  induction fields as [|field fields IH]; intros H; [reflexivity|].
  cbn [first_data]. rewrite (H field (or_introl eq_refl)).
  apply IH. intros f Hf. apply H. now right.
Qed.

Lemma no_media_field_absent d field :
  no_media_field d = true -> In field (url_fields ++ possible_fields) ->
  dict_get field d = None.
Proof.
  unfold no_media_field. rewrite forallb_forall. intros H Hf.
  specialize (H field Hf). now destruct (dict_get field d).
Qed.

Lemma no_media_field_silent d : no_media_field d = true -> silent d = true.
Proof.
  intros H. unfold silent.
  rewrite first_url_absent, first_data_absent; [reflexivity| |];
    intros field Hf; apply (no_media_field_absent _ H), in_or_app; auto.
Qed.

Lemma first_match_quiet p d w :
  silent d = true -> first_match p d w = (Ok Continue, w, []).
Proof.
  unfold silent, first_match.
  destruct (first_url url_fields d) as [[field url]|]; [discriminate|].
  destruct (first_data possible_fields d); [discriminate|reflexivity].
Qed.

Lemma quiet_sub_part p key c w :
  quiet_sub key c = true ->
  (has <- lift (py_in key (VDict c)) ;;
   if has : bool then scan p (py_getitem (VDict c) key) else ret Continue) w =
  (Ok Continue, w, []).
Proof.
  unfold quiet_sub. intros H. cbn [py_in]. rewrite bind_lift_ok.
  cbn [py_getitem]. destruct (dict_get key c) as [[]|]; try discriminate.
  - rewrite scan_dict. now apply first_match_quiet.
  - reflexivity.
Qed.

Lemma choice_body_quiet choice w :
  quiet_choice choice = true -> choice_body choice w = (Ok Continue, w, []).
Proof.
  destruct choice as [| | | | | | |c]; try discriminate.
  cbn [quiet_choice]. intros H. apply andb_prop in H as [Hd Hm].
  unfold choice_body. rewrite (@and_then_skip _ _ _ w w).
  - now apply quiet_sub_part.
  - now apply quiet_sub_part.
Qed.

Lemma choices_quiet items w :
  forallb quiet_choice items = true ->
  for_return items choice_body w = (Ok Continue, w, []).
Proof.
  induction items as [|choice items IH]; [reflexivity|].
  cbn [forallb]. intros H. apply andb_prop in H as [Hc Hi].
  rewrite for_return_cons, (@and_then_skip _ _ _ w w).
  - now apply IH.
  - now apply choice_body_quiet.
Qed.

Lemma choices_part_silent top w :
  choices_silent top = true -> choices_part (VDict top) w = (Ok Continue, w, []).
Proof.
  unfold choices_silent, choices_part. intros H. cbn [py_in py_getitem].
  destruct (dict_get (s_ "choices") top) as [[]|]; try discriminate.
  - rewrite !bind_lift_ok. cbn [py_iter]. rewrite bind_lift_ok.
    now apply choices_quiet.
  - reflexivity.
Qed.

Lemma extract_choices_silent top w :
  choices_silent top = true ->
  _extract_video_from_json (VDict top) w =
  (r <- first_match TopLevel top ;; or_none r) w.
Proof.
  intros H. unfold _extract_video_from_json. apply bind_ext_l. intros w'.
  rewrite (@and_then_skip _ _ _ w' w').
  - apply scan_dict.
  - now apply choices_part_silent.
Qed.

(** C10. Top-level search with [choices] present: when the object has a
    [choices] array in which no entry's delta or message gives anything
    to the search (in particular when none of them contains a URL field
    or a data field), the extractor goes on to the top-level object and
    returns what the search of its URL fields, then of its data fields,
    gives (None when that search finds nothing). *)
Theorem top_level_after_choices (top : list (str * value)) (items : list value)
  (w : world) :
  dict_get (s_ "choices") top = Some (VList items) ->
  forallb quiet_choice items = true ->
  _extract_video_from_json (VDict top) w =
  (r <- scan TopLevel (Ok (VDict top)) ;; or_none r) w /\
  scan TopLevel (Ok (VDict top)) w = first_match TopLevel top w /\
  (forall d, no_media_field d = true -> silent d = true).
Proof.
  intros Hc Hq. split; [|split; [apply scan_dict|apply no_media_field_silent]].
  unfold _extract_video_from_json. apply bind_ext_l. intros w'.
  apply and_then_skip. unfold choices_part. cbn [py_in]. rewrite Hc.
  rewrite bind_lift_ok. cbn [py_getitem]. rewrite Hc, bind_lift_ok.
  cbn [py_iter]. rewrite bind_lift_ok. now apply choices_quiet.
Qed.

Lemma top_level_after_choices_witness :
  _extract_video_from_json (VDict chat_delta_and_video) quiet_world =
  (Ok (Some (b_ "hi")), quiet_world, []).
Proof.
  rewrite (proj1 (@top_level_after_choices chat_delta_and_video
                    [VDict [(s_ "delta",
                             VDict [(s_ "role", VStr (s_ "assistant"));
                                    (s_ "content", VStr (s_ "Hello"))])]]
                    quiet_world eq_refl eq_refl)).
  reflexivity.
Defined.

(** ** URL fields before data fields *)

(** A candidate with a [url] field that is dereferenced with success. *)
Lemma first_match_url p d w url_value url body :
  dict_get (s_ "url") d = Some url_value ->
  extract_url_from_html url_value = Some url ->
  net w (gets w) url = Reply 200 body ->
  first_match p d w =
  (Ok (Return (Some body)), after_get w,
   LogFoundUrl p (s_ "url") :: deref_log w url).
Proof.
  intros Hu He Hn. unfold first_match. cbn [url_fields first_url].
  rewrite Hu, He. pose proof (extract_url_nonempty _ He) as Hne.
  destruct url as [|c u]; [contradiction|].
  unfold bind, logger, ret. rewrite download_run. unfold deref. rewrite Hn.
  cbn [Z.eqb Pos.eqb]. now rewrite !app_nil_r.
Qed.

(** The choices loop when the search in the first entry returns. *)
Lemma extract_first_choice top c rest w a w1 l1 :
  dict_get (s_ "choices") top = Some (VList (VDict c :: rest)) ->
  choice_body (VDict c) w = (Ok (Return a), w1, l1) ->
  fst (fst (_extract_video_from_json (VDict top) w)) = Ok a.
Proof.
  intros Hc Hb. unfold _extract_video_from_json.
  assert (E : and_then (choices_part (VDict top)) (scan TopLevel (Ok (VDict top))) w
              = (Ok (Return a), w1, l1)).
  { apply and_then_return. unfold choices_part. cbn [py_in]. rewrite Hc.
    rewrite bind_lift_ok. cbn [py_getitem]. rewrite Hc, bind_lift_ok.
    cbn [py_iter]. rewrite bind_lift_ok, for_return_cons.
    now apply and_then_return. }
  unfold bind. rewrite E. reflexivity.
Qed.

(** C5. Extractor field priority: in a candidate object the URL fields
    are searched, in the order url, video_url, download_url, file_url, uri,
    content, before the data fields (the search is the first-match rule
    [first_match]), so an object with a [url] field
    whose dereference succeeds (status 200) and a [video] field gives the
    bytes fetched from the URL: in the search of the candidate itself,
    for a top-level object (one without [choices], or whose [choices]
    give nothing to the search), and for the delta or the message of the
    first entry of [choices]. *)
Theorem url_before_data (d : list (str * value)) (w : world)
  (url_value video_value : value) (url : str) (body : bytes) :
  dict_get (s_ "url") d = Some url_value ->
  extract_url_from_html url_value = Some url ->
  net w (gets w) url = Reply 200 body ->
  dict_get (s_ "video") d = Some video_value ->
  (forall p w', scan p (Ok (VDict d)) w' = first_match p d w') /\
  (forall p, fst (fst (scan p (Ok (VDict d)) w)) = Ok (Return (Some body))) /\
  (choices_silent d = true ->
   fst (fst (_extract_video_from_json (VDict d) w)) = Ok (Some body)) /\
  (forall top c rest,
      dict_get (s_ "choices") top = Some (VList (VDict c :: rest)) ->
      dict_get (s_ "delta") c = Some (VDict d) ->
      fst (fst (_extract_video_from_json (VDict top) w)) = Ok (Some body)) /\
  (forall top c rest,
      dict_get (s_ "choices") top = Some (VList (VDict c :: rest)) ->
      dict_get (s_ "delta") c = None ->
      dict_get (s_ "message") c = Some (VDict d) ->
      fst (fst (_extract_video_from_json (VDict top) w)) = Ok (Some body)).
Proof.
  intros Hu He Hn Hv.
  pose proof (fun p => @first_match_url p d w url_value url body Hu He Hn) as F.
  split; [|split; [|split; [|split]]].
  - intros p w'. apply scan_dict.
  - intros p. now rewrite scan_dict, F.
  - intros Hc. rewrite (@extract_choices_silent d w Hc). unfold bind.
    now rewrite F.
  - intros top c rest Hc Hd.
    apply (@extract_first_choice top c rest w (Some body) (after_get w)
             (LogFoundUrl InDelta (s_ "url") :: deref_log w url) Hc).
    unfold choice_body. apply and_then_return.
    cbn [py_in py_getitem]. rewrite Hd, bind_lift_ok, scan_dict. apply F.
  - intros top c rest Hc Hd Hm.
    apply (@extract_first_choice top c rest w (Some body) (after_get w)
             (LogFoundUrl InMessage (s_ "url") :: deref_log w url) Hc).
    unfold choice_body. rewrite (@and_then_skip _ _ _ w w).
    + cbn [py_in py_getitem]. rewrite Hm, bind_lift_ok, scan_dict. apply F.
    + cbn [py_in]. rewrite Hd. reflexivity.
Qed.

Lemma url_before_data_witness :
  fst (fst (_extract_video_from_json (VDict url_and_video) live_world)) =
    Ok (Some (b_ "LIVE")) /\
  fst (fst (_extract_video_from_json
              (VDict [(s_ "choices",
                       VList [VDict [(s_ "delta", VDict url_and_video)]])])
              live_world)) = Ok (Some (b_ "LIVE")) /\
  _decode_video_data (VStr (s_ "aGk=")) = Some (b_ "hi").
Proof.
  pose proof (@url_before_data url_and_video live_world
                (VStr (s_ "http://x/y.mp4")) (VStr (s_ "aGk="))
                (s_ "http://x/y.mp4") (b_ "LIVE")
                eq_refl eq_refl eq_refl eq_refl) as (_ & _ & H1 & H2 & _).
  split; [exact (H1 eq_refl)|]. split; [|reflexivity].
  exact (H2 [(s_ "choices", VList [VDict [(s_ "delta", VDict url_and_video)]])]
            [(s_ "delta", VDict url_and_video)] [] eq_refl eq_refl).
Defined.

(** ** The first match decides *)

Example broken_url_hides_video :
  fst (fst (_extract_video_from_json (VDict broken_url_then_video) quiet_world)) =
  Ok None.
Proof. reflexivity. Qed.

(** C2, as stated, fails: the extractor answers None on an object whose
    [data] field decodes, because the [video] field before it does not. *)
Lemma exhaustive_search_fails : ~ exhaustive_search.
Proof.
  intros H.
  specialize (H video_then_data quiet_world eq_refl (s_ "data") (VStr (s_ "aGk="))).
  cbn [possible_fields In] in H.
  specialize (H (or_intror (or_introl eq_refl)) eq_refl eq_refl).
  discriminate H.
Qed.

(** C2, amended. On a chat-style object the extractor returns the first
    match over the places of the object in order (the delta, then the
    message of each entry of [choices], then the top level): in a place, a
    URL field that is absent or yields no URL is passed over, the first
    URL found is dereferenced and the first data field present (content
    apart) is decoded, and the result of that one operation is returned
    at once, None included; a GET that does not answer 200, or fails, is
    logged and gives None without raising; None is otherwise returned
    only when no place has a URL or a data field. *)
Theorem first_match_decides (top : list (str * value)) (w : world) :
  chat_style top = true ->
  _extract_video_from_json (VDict top) w =
    (r <- search (locations top) ;; or_none r) w /\
  (forall p d w', scan p (Ok (VDict d)) w' = first_match p d w') /\
  (forall url w',
      _download_video_from_url url w' =
      (Ok (deref w' url), after_get w', deref_log w' url)).
Proof.
  intros H. split; [now apply extract_chat|split].
  - intros p d w'. apply scan_dict.
  - intros url w'. apply download_run.
Qed.

Lemma first_match_decides_witness :
  _extract_video_from_json (VDict video_then_data) quiet_world =
    (Ok None, quiet_world, []) /\
  fst (fst (_extract_video_from_json (VDict broken_url_then_video) quiet_world)) =
    Ok None /\
  fst (fst (_extract_video_from_json (VDict chat_delta_and_video) quiet_world)) =
    Ok (Some (b_ "hi")).
Proof.
  split; [|split].
  - rewrite (proj1 (@first_match_decides video_then_data quiet_world eq_refl)).
    reflexivity.
  - rewrite (proj1 (@first_match_decides broken_url_then_video quiet_world eq_refl)).
    reflexivity.
  - rewrite (proj1 (@first_match_decides chat_delta_and_video quiet_world eq_refl)).
    reflexivity.
Defined.

(** ** The fallback of the auto-detecting parser *)

Lemma sse_like_not_json_like s :
  startswith (s_ "data:") s = true -> startswith (s_ "{") s = false.
Proof.
  destruct s as [|c s]; [discriminate|]. cbn [s_ List.map list_ascii_of_string startswith].
  intros H. apply andb_prop in H as [H _]. apply N.eqb_eq in H. now subst c.
Qed.

Lemma drain_exhausted first_chunk w :
  drain first_chunk exhausted w = (Ok first_chunk, w, []).
Proof.
  unfold drain, exhausted, for_stream. cbn [fst snd for_each stream_stop].
  run. unfold join. cbn [concat]. now rewrite app_nil_r.
Qed.

(** When the text strategy chosen for the first chunk runs to the end of
    the stream and extracts nothing, the generator is spent: the fallback
    returns the first chunk alone. *)
Lemma text_attempt_fallback r total_size w first_chunk pending text_data
  on_line w1 l1 :
  iter_bytes r = first_chunk :: pending ->
  existsb (fun sig => bytes_startswith sig first_chunk) video_signatures = false ->
  utf8_decode first_chunk = Some text_data ->
  text_attempt text_data = Some on_line ->
  text_loop on_line pending (ending r) text_data [] w = (Ok (Finished []), w1, l1) ->
  fst (fst (_parse_unknown_stream r total_size w)) = Ok first_chunk /\
  snd (fst (_parse_unknown_stream r total_size w)) = w1.
Proof.
  intros Hi Hs Hd Ha Hl. unfold _parse_unknown_stream. rewrite Hi, Hs.
  unfold try_text. rewrite Hd. unfold text_attempt in Ha.
  destruct (startswith (s_ "data:") (strip text_data)) eqn:Esse.
  - injection Ha as <-. rewrite (sse_like_not_json_like _ Esse).
    unfold text_strategy. cbn [fst snd].
    unfold bind, logger, ret. rewrite Hl. cbn [fst snd].
    rewrite drain_exhausted. split; reflexivity.
  - destruct (startswith (s_ "{") (strip text_data)) eqn:Ejs; [|discriminate].
    injection Ha as <-. unfold text_strategy.
    unfold bind, logger, ret. cbn [fst snd]. rewrite Hl. cbn [fst snd].
    rewrite drain_exhausted. split; reflexivity.
Qed.

(** C1. Auto-detect fallback: the claim asks for the concatenation of all
    the chunks when the text strategy extracts nothing.  The code gives
    something else: when the strategy chosen for the first chunk (SSE for
    a text that starts with data:, NDJSON for one that starts with a
    brace) runs to the end of the stream and extracts nothing, the
    fallback loop iterates a generator that is already spent, and the
    parser returns the first chunk alone, without raising; that is not
    the concatenation of all the chunks as soon as a later chunk is not
    empty. *)
Theorem fallback_returns_first_chunk (r : response) (total_size : option Z)
  (w w1 : world) (l1 : list log_entry) (first_chunk : bytes)
  (pending : list bytes) (text_data : str)
  (on_line : str -> list bytes -> M (list bytes)) :
  iter_bytes r = first_chunk :: pending ->
  existsb (fun sig => bytes_startswith sig first_chunk) video_signatures = false ->
  utf8_decode first_chunk = Some text_data ->
  text_attempt text_data = Some on_line ->
  text_loop on_line pending (ending r) text_data [] w = (Ok (Finished []), w1, l1) ->
  fst (fst (_parse_unknown_stream r total_size w)) = Ok first_chunk /\
  (join pending <> [] ->
   fst (fst (_parse_unknown_stream r total_size w)) <> Ok (join (iter_bytes r))).
Proof.
  intros Hi Hs Hd Ha Hl.
  pose proof (proj1 (@text_attempt_fallback r total_size w first_chunk pending
                       text_data on_line w1 l1 Hi Hs Hd Ha Hl)) as E.
  split; [exact E|].
  intros Hne. rewrite E, Hi. unfold join. cbn [concat]. intros H.
  injection H as H. apply Hne.
  rewrite <- (app_nil_r first_chunk) in H at 1.
  apply app_inv_head in H. now symmetry.
Qed.

(** The failing input: a JSON object of 8194 bytes without media field,
    sent without content type, arrives as a chunk of 8192 bytes and a
    chunk of 2 bytes; the parser returns the first 8192 bytes. *)
Lemma fallback_returns_first_chunk_witness :
  chunked_8192 [padded_object_head; padded_object_tail] = true /\
  fst (fst (_parse_unknown_stream
              (untyped_response [padded_object_head; padded_object_tail])
              None quiet_world)) = Ok padded_object_head /\
  fst (fst (_parse_unknown_stream
              (untyped_response [padded_object_head; padded_object_tail])
              None quiet_world)) <>
  Ok (join [padded_object_head; padded_object_tail]).
Proof.
  split; [vm_compute; reflexivity|].
  assert (A : text_attempt (decode_ascii padded_object_head) = Some auto_json_line).
  { unfold text_attempt.
    replace (startswith (s_ "data:") (strip (decode_ascii padded_object_head)))
      with false by (vm_compute; reflexivity).
    replace (startswith (s_ "{") (strip (decode_ascii padded_object_head)))
      with true by (vm_compute; reflexivity).
    reflexivity. }
  assert (D : utf8_decode padded_object_head = Some (decode_ascii padded_object_head))
    by (vm_compute; reflexivity).
  assert (T : text_loop auto_json_line [padded_object_tail] Closed
                (decode_ascii padded_object_head) [] quiet_world =
              (Ok (Finished []), quiet_world, []))
    by (vm_compute; reflexivity).
  assert (S : existsb (fun sig => bytes_startswith sig padded_object_head)
                video_signatures = false)
    by (vm_compute; reflexivity).
  destruct (@fallback_returns_first_chunk
              (untyped_response [padded_object_head; padded_object_tail])
              None quiet_world quiet_world [] padded_object_head
              [padded_object_tail] (decode_ascii padded_object_head)
              auto_json_line eq_refl S D A T) as [H1 H2].
  split; [exact H1|]. apply H2. discriminate.
Defined.

(** * Further properties of the code *)

(** ** The contract of generate_video *)

Lemma bind_ok_inv A B (m : M A) (k : A -> M B) w b w' l :
  bind m k w = (Ok b, w', l) ->
  exists a w1 l1 l2, m w = (Ok a, w1, l1) /\ k a w1 = (Ok b, w', l2) /\ l = l1 ++ l2.
Proof.
  unfold bind. destruct (m w) as [[[a|e] w1] l1]; [|discriminate].
  destruct (k a w1) as [[r w2] l2] eqn:E. intros H. injection H as -> -> <-.
  exists a, w1, l1, l2. auto.
Qed.

Lemma handle_response_nonempty r w video w' l :
  handle_response r w = (Ok video, w', l) -> video <> [].
Proof.
  unfold handle_response. destruct (400 <=? status_code r)%Z.
  - intros H. apply bind_ok_inv in H as (a & w1 & l1 & l2 & _ & H & _).
    apply bind_ok_inv in H as (a' & w2 & l3 & l4 & _ & H & _). discriminate.
  - intros H. apply bind_ok_inv in H as (a & w1 & l1 & l2 & _ & H & _).
    apply bind_ok_inv in H as (a' & w2 & l3 & l4 & _ & H & _).
    apply bind_ok_inv in H as (v & w3 & l5 & l6 & _ & H & _).
    destruct v as [|x v]; [discriminate|].
    apply bind_ok_inv in H as (a'' & w4 & l7 & l8 & _ & H & _).
    injection H as <- _. discriminate.
Qed.

(** X1. Whatever the transport and the network do, [generate_video] either
    returns a video that is not empty or raises [APIError] or
    [StreamingError]: no other exception leaves it, and it never returns
    empty bytes. *)
Theorem generate_video_contract (t : transport) (w : world) :
  match fst (fst (generate_video t w)) with
  | Ok video => video <> []
  | Raise (APIError _) | Raise (StreamingError _) => True
  | Raise _ => False
  end.
Proof.
  unfold generate_video, try_except.
  destruct t as [r|e0].
  - destruct (handle_response r w) as [[[v|e] w'] l] eqn:E.
    + cbn [fst]. exact (@handle_response_nonempty _ _ _ _ _ E).
    + destruct e; cbn; exact I.
  - unfold raise at 1. destruct e0; cbn; exact I.
Qed.

(** X2. A response whose status is 400 or more is never parsed: whatever
    its headers say, the body is read and logged and [APIError] is raised,
    without any GET; when reading the body fails with a transport error of
    httpx the error is still an [APIError]. *)
Theorem error_status_is_api_error (r : response) (w : world) :
  (400 <= status_code r)%Z ->
  match ending r with
  | Closed =>
      generate_video (Connected r) w =
      (Raise (APIError (s_ "API request failed with status")), w,
       [LogApiError (status_code r) (text r)])
  | Broken TimeoutException =>
      generate_video (Connected r) w =
      (Raise (APIError (s_ "Request timeout")), w, [LogTimeout])
  | Broken HTTPError =>
      generate_video (Connected r) w =
      (Raise (APIError (s_ "HTTP error")), w, [LogHttpError])
  | Broken _ => True
  end.
Proof.
  intros H. apply Z.leb_le in H.
  unfold generate_video, try_except, handle_response. rewrite H.
  destruct (ending r) as [|e]; [reflexivity|].
  destruct e; try exact I; reflexivity.
Qed.

Lemma error_status_is_api_error_witness :
  generate_video (Connected (error_response 503 (s_ "overloaded"))) quiet_world =
  (Raise (APIError (s_ "API request failed with status")), quiet_world,
   [LogApiError 503 (s_ "overloaded")]).
Proof.
  apply (@error_status_is_api_error (error_response 503 (s_ "overloaded")) quiet_world).
  cbn. lia.
Defined.

(** ** A connection that breaks *)

Lemma parse_binary_broken r total_size w e :
  ending r = Broken e -> _parse_binary_stream r total_size w = (Raise e, w, []).
Proof.
  intros He. unfold _parse_binary_stream, for_stream. rewrite He.
  unfold bind at 1. unfold bind at 1. rewrite binary_loop. reflexivity.
Qed.

(** X3. When the connection breaks while a binary stream is read, the
    chunks already received are discarded and the exception of the
    transport leaves the parser; [generate_video] turns a timeout and any
    other httpx failure into [APIError], also when no response arrived. *)
Theorem broken_stream_is_api_error (r : response) (w : world) (e : exn)
  (total_size : option Z) :
  ending r = Broken e ->
  _parse_binary_stream r total_size w = (Raise e, w, []) /\
  ((status_code r < 400)%Z ->
   classify (content_type r) = Binary ->
   total_size_of r = Ok total_size ->
   fst (fst (generate_video (Connected r) w)) =
   fst (fst (generate_video (NoResponse e) w))) /\
  fst (fst (generate_video (NoResponse TimeoutException) w)) =
    Raise (APIError (s_ "Request timeout")) /\
  fst (fst (generate_video (NoResponse HTTPError) w)) =
    Raise (APIError (s_ "HTTP error")).
Proof.
  intros He. split; [now apply parse_binary_broken|]. split; [|split; reflexivity].
  intros Hs Hc Ht. rewrite generate_video_outcome.
  unfold handle_response. apply Z.leb_gt in Hs. rewrite Hs.
  fold (lowered_content_type r).
  unfold bind at 1. cbn [logger]. unfold bind at 1. cbn [logger].
  unfold bind at 1. rewrite dispatch_by_class, Hc, Ht.
  unfold bind at 1. cbn [lift]. unfold bind at 1. cbn [logger parser_of].
  rewrite (parse_binary_broken r total_size _ He). cbn [fst].
  destruct e; reflexivity.
Qed.

Lemma broken_stream_is_api_error_witness :
  _parse_binary_stream (broken_response [b_ "AB"] TimeoutException) None quiet_world =
    (Raise TimeoutException, quiet_world, []) /\
  fst (fst (generate_video
              (Connected (broken_response [b_ "AB"] TimeoutException)) quiet_world)) =
    Raise (APIError (s_ "Request timeout")).
Proof.
  destruct (@broken_stream_is_api_error (broken_response [b_ "AB"] TimeoutException)
              quiet_world TimeoutException None eq_refl) as (H1 & H2 & H3 & _).
  split; [exact H1|]. rewrite (H2 ltac:(cbn; lia) eq_refl eq_refl). exact H3.
Defined.

(** ** The paths of the auto-detecting parser that keep every chunk *)

Lemma append_loop (chunks : list bytes) :
  forall acc w,
    for_each chunks (fun chunk chunks => ret (chunks ++ [chunk])) acc w =
    (Ok (acc ++ chunks), w, []).
Proof.
  induction chunks as [|c chunks IH]; intros acc w; cbn [for_each].
  - unfold ret. now rewrite app_nil_r.
  - unfold bind, ret at 1. rewrite IH, <- app_assoc. reflexivity.
Qed.

Lemma drain_closed first_chunk pending w :
  drain first_chunk (pending, Closed) w = (Ok (join (first_chunk :: pending)), w, []).
Proof.
  unfold drain, for_stream. cbn [fst snd stream_stop].
  unfold bind at 1. unfold bind at 1. rewrite append_loop. reflexivity.
Qed.

Lemma drain_broken first_chunk pending e w :
  drain first_chunk (pending, Broken e) w = (Raise e, w, []).
Proof.
  unfold drain, for_stream. cbn [fst snd stream_stop].
  unfold bind at 1. unfold bind at 1. rewrite append_loop. reflexivity.
Qed.

(** X4. A stream without a known content type whose first chunk starts
    with one of the four video signatures is read as binary: the result is
    the concatenation of all its chunks, whatever the later chunks look
    like, nothing is decoded and no GET is issued; and a connection that
    breaks is an exception, not a partial video. *)
Theorem signature_means_binary (r : response) (total_size : option Z) (w : world)
  (first_chunk : bytes) (pending : list bytes) :
  iter_bytes r = first_chunk :: pending ->
  existsb (fun sig => bytes_startswith sig first_chunk) video_signatures = true ->
  match ending r with
  | Closed =>
      _parse_unknown_stream r total_size w =
      (Ok (join (iter_bytes r)), w, [LogAutoBinary])
  | Broken e =>
      _parse_unknown_stream r total_size w = (Raise e, w, [LogAutoBinary])
  end.
Proof.
  intros Hi Hs. unfold _parse_unknown_stream. rewrite Hi, Hs.
  destruct (ending r) as [|e]; unfold bind, logger.
  - rewrite drain_closed. reflexivity.
  - rewrite drain_broken. reflexivity.
Qed.

Lemma signature_means_binary_witness :
  _parse_unknown_stream (untyped_response [mp4_head; json_looking_chunk])
    None quiet_world =
  (Ok (mp4_head ++ json_looking_chunk), quiet_world, [LogAutoBinary]).
Proof.
  apply (@signature_means_binary (untyped_response [mp4_head; json_looking_chunk])
           None quiet_world mp4_head [json_looking_chunk] eq_refl).
  vm_compute. reflexivity.
Defined.

(** X5. When no text strategy is tried, because the first chunk is not
    UTF-8 or because its text starts neither with data: nor with a brace,
    the fallback returns the concatenation of all the chunks of the
    stream. *)
Theorem untried_text_keeps_every_chunk (r : response) (total_size : option Z)
  (w : world) (first_chunk : bytes) (pending : list bytes) :
  iter_bytes r = first_chunk :: pending ->
  existsb (fun sig => bytes_startswith sig first_chunk) video_signatures = false ->
  match utf8_decode first_chunk with
  | Some text_data => text_attempt text_data = None
  | None => True
  end ->
  ending r = Closed ->
  _parse_unknown_stream r total_size w = (Ok (join (iter_bytes r)), w, [LogFallback]).
Proof.
  intros Hi Hs Ht He. unfold _parse_unknown_stream. rewrite Hi, Hs, He.
  unfold try_text. destruct (utf8_decode first_chunk) as [text_data|].
  - unfold text_attempt in Ht.
    destruct (startswith (s_ "data:") (strip text_data)); [discriminate|].
    destruct (startswith (s_ "{") (strip text_data)); [discriminate|].
    unfold bind, ret, logger. rewrite drain_closed. reflexivity.
  - unfold bind, ret, logger. rewrite drain_closed. reflexivity.
Qed.

Lemma untried_text_keeps_every_chunk_witness :
  _parse_unknown_stream (untyped_response [stray_byte; json_looking_chunk])
    None quiet_world =
    (Ok (stray_byte ++ json_looking_chunk), quiet_world, [LogFallback]) /\
  _parse_unknown_stream (untyped_response [b_ "plain"; json_looking_chunk])
    None quiet_world =
    (Ok (b_ "plain" ++ json_looking_chunk), quiet_world, [LogFallback]).
Proof.
  split.
  - apply (@untried_text_keeps_every_chunk
             (untyped_response [stray_byte; json_looking_chunk])
             None quiet_world stray_byte [json_looking_chunk] eq_refl);
      vm_compute; reflexivity.
  - apply (@untried_text_keeps_every_chunk
             (untyped_response [b_ "plain"; json_looking_chunk])
             None quiet_world (b_ "plain") [json_looking_chunk] eq_refl);
      vm_compute; reflexivity.
Defined.

(** ** A chunk that is not UTF-8 in the middle of a text attempt *)

Lemma text_loop_undecodable on_line (pre : list bytes) :
  forall bad post e buffer video_chunks w found w1 l1,
    utf8_decode bad = None ->
    text_loop on_line pre Closed buffer video_chunks w = (Ok (Finished found), w1, l1) ->
    text_loop on_line (pre ++ bad :: post) e buffer video_chunks w =
    (Ok (Undecodable (post, e)), w1, l1).
Proof.
  induction pre as [|chunk pre IH]; intros bad post e buffer vc w found w1 l1 Hb H.
  - cbn in H. injection H as _ <- <-. cbn [app text_loop]. rewrite Hb. reflexivity.
  - cbn [app text_loop] in *. destruct (utf8_decode chunk) as [t|]; [|discriminate].
    unfold bind in *.
    destruct (feed on_line t (buffer, vc) w) as [[[st|x] w2] l2]; [|discriminate].
    destruct (text_loop on_line pre Closed (fst st) (snd st) w2)
      as [[a w3] l3] eqn:E.
    injection H as -> -> <-.
    now rewrite (IH bad post e (fst st) (snd st) w2 found w1 l3 Hb E).
Qed.

(** X6. When a later chunk is not valid UTF-8 (a multi-byte character cut
    by a chunk boundary is enough), the text attempt is abandoned: the
    video chunks it had extracted are dropped, and the fallback returns
    the first chunk followed by the chunks that come after the undecodable
    one; the chunks read before it, and that chunk itself, are lost. *)
Theorem undecodable_chunk_abandons_text (r : response) (total_size : option Z)
  (w w1 : world) (l1 : list log_entry) (first_chunk bad : bytes)
  (pre post found : list bytes) (text_data : str)
  (on_line : str -> list bytes -> M (list bytes)) :
  iter_bytes r = first_chunk :: pre ++ bad :: post ->
  existsb (fun sig => bytes_startswith sig first_chunk) video_signatures = false ->
  utf8_decode first_chunk = Some text_data ->
  text_attempt text_data = Some on_line ->
  text_loop on_line pre Closed text_data [] w = (Ok (Finished found), w1, l1) ->
  utf8_decode bad = None ->
  ending r = Closed ->
  fst (_parse_unknown_stream r total_size w) = (Ok (join (first_chunk :: post)), w1).
Proof.
  intros Hi Hs Hd Ha Hl Hb He.
  pose proof (@text_loop_undecodable on_line pre bad post Closed text_data [] w
                found w1 l1 Hb Hl) as E.
  unfold _parse_unknown_stream. rewrite Hi, Hs, He.
  unfold try_text. rewrite Hd. unfold text_attempt in Ha.
  destruct (startswith (s_ "data:") (strip text_data)) eqn:Esse.
  - injection Ha as <-. unfold text_strategy. cbn [fst snd].
    unfold bind, logger, ret. rewrite E. cbn [fst snd].
    rewrite drain_closed. reflexivity.
  - destruct (startswith (s_ "{") (strip text_data)) eqn:Ejs; [|discriminate].
    injection Ha as <-. unfold text_strategy.
    unfold bind, logger, ret. cbn [fst snd]. rewrite E. cbn [fst snd].
    rewrite drain_closed. reflexivity.
Qed.

(** A JSON line with a video, the newline that completes it, a stray byte
    and a tail: the video is extracted and then dropped. *)
Lemma undecodable_chunk_abandons_text_witness :
  text_loop auto_json_line [[x0a]] Closed (decode_ascii video_line_bytes) []
    quiet_world = (Ok (Finished [b_ "hi"]), quiet_world, []) /\
  fst (_parse_unknown_stream
         (untyped_response [video_line_bytes; [x0a]; stray_byte; b_ "tail"])
         None quiet_world) =
  (Ok (video_line_bytes ++ b_ "tail"), quiet_world).
Proof.
  assert (A : text_attempt (decode_ascii video_line_bytes) = Some auto_json_line).
  { unfold text_attempt.
    replace (startswith (s_ "data:") (strip (decode_ascii video_line_bytes)))
      with false by (vm_compute; reflexivity).
    replace (startswith (s_ "{") (strip (decode_ascii video_line_bytes)))
      with true by (vm_compute; reflexivity).
    reflexivity. }
  assert (D : utf8_decode video_line_bytes = Some (decode_ascii video_line_bytes))
    by (vm_compute; reflexivity).
  assert (T : text_loop auto_json_line [[x0a]] Closed
                (decode_ascii video_line_bytes) [] quiet_world =
              (Ok (Finished [b_ "hi"]), quiet_world, []))
    by (vm_compute; reflexivity).
  assert (S : existsb (fun sig => bytes_startswith sig video_line_bytes)
                video_signatures = false)
    by (vm_compute; reflexivity).
  split; [exact T|].
  exact (@undecodable_chunk_abandons_text
           (untyped_response [video_line_bytes; [x0a]; stray_byte; b_ "tail"])
           None quiet_world quiet_world [] video_line_bytes stray_byte
           [[x0a]] [b_ "tail"] [b_ "hi"] (decode_ascii video_line_bytes)
           auto_json_line eq_refl S D A T eq_refl eq_refl).
Defined.

(** ** Lines that the text parsers pass over *)

Lemma str_eqb_eq a : forall b, str_eqb a b = true -> a = b.
Proof.
  induction a as [|x a IH]; intros [|y b] H; try discriminate; [reflexivity|].
  cbn in H. apply andb_prop in H as [H1 H2]. apply N.eqb_eq in H1.
  now rewrite H1, (IH b H2).
Qed.

Lemma sse_line_ignored line n acc w :
  sse_ignored line -> mask snd (sse_line line (n, acc) w) = (Ok acc, w).
Proof.
  intros H. unfold sse_line. rewrite mask_bind.
  assert (E : forall w' : world,
             mask snd
               ((if startswith (s_ "data:") (strip line)
                 then
                   if str_eqb (strip (skipn 5 (strip line))) (s_ "[DONE]")
                   then ret (S n, acc)
                   else
                     match json_loads (strip (skipn 5 (strip line))) with
                     | Some data =>
                         logger (LogSseEvent data) ;;;
                         video_chunk <- _extract_video_from_json data ;;
                         (if truthy video_chunk
                          then
                            logger (LogSseExtracted (length (or_empty video_chunk))) ;;;
                            ret (S n, acc ++ [or_empty video_chunk])
                          else
                            match data with
                            | VDict d =>
                                logger (LogSseNoVideo (List.map fst d)) ;;;
                                ret (S n, acc)
                            | _ => raise AttributeError
                            end)
                     | None =>
                         logger LogSseBadJson ;;;
                         logger (LogSseProblem (firstn 200 (strip (skipn 5 (strip line))))) ;;;
                         ret (S n, acc)
                     end
                 else ret (S n, acc)) w') = (Ok acc, w')).
  { intros w'. destruct H as [H|H].
    - rewrite H. reflexivity.
    - rewrite H. destruct (startswith _ _); reflexivity. }
  destruct (strip line) as [|c l]; cbn [ret logger]; apply E.
Qed.

Lemma sse_lines_skip_ignored pre line post n acc w :
  sse_ignored line ->
  mask snd (for_each (pre ++ line :: post) sse_line (n, acc) w) =
  mask snd (for_each (pre ++ post) sse_line (n, acc) w).
Proof.
  intros Hb. rewrite !for_each_app, !mask_bind.
  destruct (for_each pre sse_line (n, acc) w) as [[[[k a]|e] w1] l1];
    [|reflexivity].
  cbn [for_each]. rewrite mask_bind.
  pose proof (@sse_line_ignored line k a w1 Hb) as E. unfold mask in E.
  destruct (sse_line line (k, a) w1) as [[[[k' a']|e] w2] l2];
    cbn in E; [|discriminate].
  injection E as -> ->. apply sse_lines_count.
Qed.

(** X7. The SSE parser passes over every complete line that does not
    start with data: (a blank line, a comment, an event: or id: line) and
    over the end marker data: [DONE]: the stream gives the same outcome,
    in the same state of the network, as the stream without that line.
    In particular the marker does not end the parsing: the events that
    follow it are still extracted. *)
Theorem sse_ignored_line_skipped (r r' : response) (total_size : option Z)
  (w : world) (pre post : list str) (line : str) :
  ending r' = ending r ->
  lines_of r = pre ++ line :: post ->
  lines_of r' = pre ++ post ->
  sse_ignored line ->
  fst (_parse_sse_stream r total_size w) = fst (_parse_sse_stream r' total_size w).
Proof.
  intros He Hl Hl' Hi. rewrite !parse_sse_lines, Hl, Hl', He.
  apply sse_over_lines_fst. now apply sse_lines_skip_ignored.
Qed.

Lemma sse_ignored_line_skipped_witness :
  fst (_parse_sse_stream
         (text_response (s_ "text/event-stream")
            [lf (dq "data: [DONE]|data: {'video':'aGk='}|")])
         None quiet_world) =
  fst (_parse_sse_stream
         (text_response (s_ "text/event-stream") [lf (dq "data: {'video':'aGk='}|")])
         None quiet_world) /\
  fst (_parse_sse_stream
         (text_response (s_ "text/event-stream")
            [lf (dq "event: video|data: {'video':'aGk='}|")])
         None quiet_world) =
  fst (_parse_sse_stream
         (text_response (s_ "text/event-stream") [lf (dq "data: {'video':'aGk='}|")])
         None quiet_world) /\
  fst (fst (_parse_sse_stream
         (text_response (s_ "text/event-stream") [lf (dq "data: {'video':'aGk='}|")])
         None quiet_world)) = Ok (b_ "hi").
Proof.
  split; [|split].
  - apply (@sse_ignored_line_skipped
             (text_response (s_ "text/event-stream")
                [lf (dq "data: [DONE]|data: {'video':'aGk='}|")])
             (text_response (s_ "text/event-stream")
                [lf (dq "data: {'video':'aGk='}|")])
             None quiet_world [] [dq "data: {'video':'aGk='}"] (s_ "data: [DONE]")
             eq_refl eq_refl eq_refl).
    right. reflexivity.
  - apply (@sse_ignored_line_skipped
             (text_response (s_ "text/event-stream")
                [lf (dq "event: video|data: {'video':'aGk='}|")])
             (text_response (s_ "text/event-stream")
                [lf (dq "data: {'video':'aGk='}|")])
             None quiet_world [] [dq "data: {'video':'aGk='}"] (s_ "event: video")
             eq_refl eq_refl eq_refl).
    left. reflexivity.
  - vm_compute. reflexivity.
Defined.

Lemma json_line_blank line acc w :
  strip line = [] -> json_line line acc w = (Ok acc, w, []).
Proof. intros H. unfold json_line. now rewrite H. Qed.

(** X8. The NDJSON parser passes over blank lines, and lines made of
    white space only, without a trace: outcome, network state and log are
    those of the stream without the line.  The end marker of SSE has no
    special role here: [DONE] in brackets is one more line that
    [json.loads] rejects. *)
Theorem blank_json_line_skipped (r r' : response) (total_size : option Z)
  (w : world) (pre post : list str) (line : str) :
  ending r' = ending r ->
  lines_of r = pre ++ line :: post ->
  lines_of r' = pre ++ post ->
  strip line = [] ->
  _parse_json_stream r total_size w = _parse_json_stream r' total_size w /\
  json_malformed (s_ "[DONE]").
Proof.
  intros He Hl Hl' Hb. split; [|split; [discriminate|vm_compute; reflexivity]].
  rewrite !parse_json_lines, Hl, Hl', He.
  unfold json_over_lines. apply bind_ext_l. intros w0.
  rewrite !for_each_app. apply bind_ext. intros acc w1.
  cbn [for_each]. unfold bind at 1. rewrite (@json_line_blank line acc w1 Hb).
  apply nil_log.
Qed.

Lemma blank_json_line_skipped_witness :
  _parse_json_stream
    (text_response (s_ "application/x-ndjson") [lf (dq "{'data':'b2s='}| |")])
    None quiet_world =
  _parse_json_stream
    (text_response (s_ "application/x-ndjson") [lf (dq "{'data':'b2s='}|")])
    None quiet_world.
Proof.
  apply (@blank_json_line_skipped
           (text_response (s_ "application/x-ndjson") [lf (dq "{'data':'b2s='}| |")])
           (text_response (s_ "application/x-ndjson") [lf (dq "{'data':'b2s='}|")])
           None quiet_world [dq "{'data':'b2s='}"] [] (s_ " ")
           eq_refl eq_refl eq_refl eq_refl).
Defined.



(** ** What the text parsers accumulate *)

Lemma for_each_invariant X S (P : S -> Prop) (body : X -> S -> M S) :
  (forall x st w st' w' l, P st -> body x st w = (Ok st', w', l) -> P st') ->
  forall xs st w st' w' l,
    P st -> for_each xs body st w = (Ok st', w', l) -> P st'.
Proof.
  intros Hb. induction xs as [|x xs IH]; intros st w st' w' l Hp H.
  - cbn in H. injection H as <- _ _. exact Hp.
  - cbn [for_each] in H. apply bind_ok_inv in H as (a & w1 & l1 & l2 & H1 & H2 & _).
    exact (IH a w1 st' w' l2 (Hb x st w a w1 l1 Hp H1) H2).
Qed.

Lemma all_nonempty_snoc acc video_chunk :
  all_nonempty acc -> truthy video_chunk = true ->
  all_nonempty (acc ++ [or_empty video_chunk]).
Proof.
  intros Ha Ht. apply Forall_app. split; [exact Ha|].
  constructor; [|constructor].
  destruct video_chunk as [[|b v]|]; discriminate.
Qed.

Lemma json_line_nonempty line acc w acc' w' l :
  all_nonempty acc -> json_line line acc w = (Ok acc', w', l) -> all_nonempty acc'.
Proof.
  intros Ha. unfold json_line. destruct (strip line) as [|c s].
  - intros H. injection H as <- _ _. exact Ha.
  - destruct (json_loads (c :: s)) as [data|].
    + intros H. apply bind_ok_inv in H as (vc & w1 & l1 & l2 & _ & H & _).
      destruct (truthy vc) eqn:Et; injection H as <- _ _;
        [now apply all_nonempty_snoc|exact Ha].
    + intros H. injection H as <- _ _. exact Ha.
Qed.

Lemma sse_line_nonempty line st w st' w' l :
  all_nonempty (snd st) -> sse_line line st w = (Ok st', w', l) ->
  all_nonempty (snd st').
Proof.
  destruct st as [n acc]. cbn [snd]. intros Ha. unfold sse_line.
  intros H. apply bind_ok_inv in H as (u & w1 & l1 & l2 & _ & H & _).
  destruct (startswith (s_ "data:") (strip line)).
  - destruct (str_eqb _ _).
    + injection H as <- _ _. exact Ha.
    + destruct (json_loads _) as [data|].
      * apply bind_ok_inv in H as (u' & w2 & l3 & l4 & _ & H & _).
        apply bind_ok_inv in H as (vc & w3 & l5 & l6 & _ & H & _).
        destruct (truthy vc) eqn:Et.
        -- apply bind_ok_inv in H as (u'' & w4 & l7 & l8 & _ & H & _).
           injection H as <- _ _. now apply all_nonempty_snoc.
        -- destruct data; try discriminate.
           apply bind_ok_inv in H as (u'' & w4 & l7 & l8 & _ & H & _).
           injection H as <- _ _. exact Ha.
      * apply bind_ok_inv in H as (u' & w2 & l3 & l4 & _ & H & _).
        apply bind_ok_inv in H as (u'' & w3 & l5 & l6 & _ & H & _).
        injection H as <- _ _. exact Ha.
  - injection H as <- _ _. exact Ha.
Qed.

Lemma join_nonempty chunks :
  all_nonempty chunks -> chunks <> [] -> join chunks <> [].
Proof.
  intros Ha Hn. destruct chunks as [|c chunks]; [contradiction|].
  inversion Ha as [|? ? Hc _]. unfold join. cbn [concat].
  destruct c; [contradiction|discriminate].
Qed.

(** X10. The chunks that the SSE parser and the NDJSON parser accumulate
    are never empty, so a video returned by either of them is never
    empty: an event whose field decodes to nothing counts as an event
    without video. *)
Theorem text_parsers_return_no_empty_video (r : response) (total_size : option Z)
  (w : world) (video : bytes) :
  fst (fst (_parse_sse_stream r total_size w)) = Ok video \/
  fst (fst (_parse_json_stream r total_size w)) = Ok video ->
  video <> [].
Proof.
  rewrite parse_sse_lines, parse_json_lines. intros [H|H].
  - unfold sse_over_lines in H.
    destruct (bind _ _ w) as [[o w'] l] eqn:E. cbn [fst] in H. subst o.
    apply bind_ok_inv in E as (st & w1 & l1 & l2 & E1 & E2 & _).
    apply bind_ok_inv in E2 as (u & w2 & l3 & l4 & _ & E2 & _).
    assert (Ha : all_nonempty (snd st)).
    { apply (@for_each_invariant _ _ (fun st => all_nonempty (snd st)) sse_line
               (fun x st w st' w' l => @sse_line_nonempty x st w st' w' l)
               (lines_of r) (0%nat, []) w st w1 l1); [constructor|exact E1]. }
    unfold sse_result in E2. destruct (snd st) as [|c cs] eqn:Es; [discriminate|].
    injection E2 as <- _ _. apply (@join_nonempty (c :: cs) Ha). discriminate.
  - unfold json_over_lines in H.
    destruct (bind _ _ w) as [[o w'] l] eqn:E. cbn [fst] in H. subst o.
    apply bind_ok_inv in E as (acc & w1 & l1 & l2 & E1 & E2 & _).
    apply bind_ok_inv in E2 as (u & w2 & l3 & l4 & _ & E2 & _).
    assert (Ha : all_nonempty acc).
    { apply (@for_each_invariant _ _ all_nonempty json_line
               (fun x st w st' w' l => @json_line_nonempty x st w st' w' l)
               (lines_of r) [] w acc w1 l1); [constructor|exact E1]. }
    unfold json_result in E2. destruct acc as [|c cs]; [discriminate|].
    injection E2 as <- _ _. apply (@join_nonempty (c :: cs) Ha). discriminate.
Qed.

Lemma text_parsers_return_no_empty_video_witness :
  fst (fst (_parse_json_stream
              (text_response (s_ "application/x-ndjson") [ndjson_good_line])
              None quiet_world)) = Ok (b_ "ok") /\
  b_ "ok" <> [].
Proof.
  assert (E : fst (fst (_parse_json_stream
                          (text_response (s_ "application/x-ndjson") [ndjson_good_line])
                          None quiet_world)) = Ok (b_ "ok"))
    by (vm_compute; reflexivity).
  split; [exact E|].
  exact (@text_parsers_return_no_empty_video
           (text_response (s_ "application/x-ndjson") [ndjson_good_line])
           None quiet_world (b_ "ok") (or_intror E)).
Defined.

(** ** Events that are not JSON objects *)













(** ** At most one GET for each event *)

Lemma frugal_continue A : frugal (@ret (ctl A) Continue).
Proof. intros w. reflexivity. Qed.

Lemma frugal_and_then A (c1 c2 : M (ctl A)) :
  frugal c1 -> frugal c2 -> frugal (and_then c1 c2).
Proof.
  intros H1 H2 w. unfold and_then, bind. specialize (H1 w).
  destruct (c1 w) as [[[[a|]|e] w1] l1].
  - exact H1.
  - subst w1. specialize (H2 w). destruct (c2 w) as [[[[a|]|e] w2] l2]; exact H2.
  - exact H1.
Qed.

Lemma frugal_for_return X A (xs : list X) (body : X -> M (ctl A)) :
  (forall x, frugal (body x)) -> frugal (for_return xs body).
Proof.
  intros H. induction xs as [|x xs IH]; [apply frugal_continue|].
  exact (frugal_and_then (H x) IH).
Qed.

Lemma frugal_lift X A (o : outcome X) (k : X -> M (ctl A)) :
  (forall x, frugal (k x)) -> frugal (bind (lift o) k).
Proof.
  intros H w. destruct o as [x|e]; [|reflexivity].
  rewrite bind_lift_ok. apply H.
Qed.

Lemma frugal_if A (b : bool) (c1 c2 : M (ctl A)) :
  frugal c1 -> frugal c2 -> frugal (if b then c1 else c2).
Proof. now destruct b. Qed.

Lemma frugal_url_field p obj field : frugal (url_field p obj field).
Proof.
  unfold url_field. apply frugal_lift. intros o. apply frugal_lift. intros present.
  apply frugal_if; [|apply frugal_continue].
  apply frugal_lift. intros o'. apply frugal_lift. intros v.
  destruct (extract_url_from_html v) as [[|c u]|]; try apply frugal_continue.
  intros w. unfold bind at 1. cbn [logger]. unfold bind at 1.
  rewrite download_run. cbn [ret]. right. reflexivity.
Qed.

Lemma frugal_data_field obj field : frugal (data_field obj field).
Proof.
  unfold data_field. apply frugal_lift. intros o. apply frugal_lift. intros present.
  apply frugal_if; [|apply frugal_continue].
  apply frugal_lift. intros o'. apply frugal_lift. intros v.
  intros w. left. reflexivity.
Qed.

Lemma frugal_scan p obj : frugal (scan p obj).
Proof.
  apply frugal_and_then; apply frugal_for_return; intros f;
    [apply frugal_url_field|apply frugal_data_field].
Qed.

Lemma frugal_choice_body choice : frugal (choice_body choice).
Proof.
  apply frugal_and_then; apply frugal_lift; intros b;
    (apply frugal_if; [apply frugal_scan|apply frugal_continue]).
Qed.

Lemma frugal_choices_part data : frugal (choices_part data).
Proof.
  unfold choices_part. apply frugal_lift. intros b.
  apply frugal_if; [|apply frugal_continue].
  apply frugal_lift. intros choices. apply frugal_lift. intros items.
  apply frugal_for_return. apply frugal_choice_body.
Qed.

Lemma extract_cost data w :
  snd (fst (_extract_video_from_json data w)) = w \/
  (snd (fst (_extract_video_from_json data w)) = after_get w /\
   exists video_chunk, fst (fst (_extract_video_from_json data w)) = Ok video_chunk).
Proof.
  pose proof (frugal_and_then (frugal_choices_part data)
                (frugal_scan TopLevel (Ok data)) w) as H.
  unfold _extract_video_from_json, bind.
  destruct (and_then (choices_part data) (scan TopLevel (Ok data)) w)
    as [[[[a|]|e] w1] l1]; cbn [or_none ret fst snd].
  - destruct H as [->| ->]; [left; reflexivity|right; eauto].
  - left. exact H.
  - left. exact H.
Qed.

(** X13. One call of the extractor issues at most one GET, whatever the
    JSON value it is given: the first URL found is the only one that is
    dereferenced, and when the call raises, or takes its result from an
    inline field, the network has not been touched. *)
Theorem extractor_issues_at_most_one_get (data : value) (w : world) :
  (snd (fst (_extract_video_from_json data w)) = w \/
   (snd (fst (_extract_video_from_json data w)) = after_get w /\
    exists video_chunk, fst (fst (_extract_video_from_json data w)) = Ok video_chunk)) /\
  (forall p d v,
     first_url url_fields d = None -> first_data possible_fields d = Some v ->
     scan p (Ok (VDict d)) w = (Ok (Return (_decode_video_data v)), w, [])).
Proof.
  split; [apply extract_cost|].
  intros p d v Hu Hd. rewrite scan_dict. unfold first_match. now rewrite Hu, Hd.
Qed.

(** ** At most one GET for each complete line *)

Lemma still_ret A (a : A) : still (ret a).
Proof. intros w. reflexivity. Qed.

Lemma still_raise A e : still (@raise A e).
Proof. intros w. reflexivity. Qed.

Lemma still_logger e : still (logger e).
Proof. intros w. reflexivity. Qed.

Lemma still_bind A B (m : M A) (k : A -> M B) :
  still m -> (forall a, still (k a)) -> still (bind m k).
Proof.
  intros Hm Hk w. unfold bind. specialize (Hm w).
  destruct (m w) as [[[a|e] w1] l1]; cbn [fst snd] in *; [|exact Hm].
  specialize (Hk a w1). destruct (k a w1) as [[r w2] l2]. cbn [fst snd] in *.
  congruence.
Qed.

Lemma still_at_most_one_get A (m : M A) : still m -> at_most_one_get m.
Proof. intros H w. rewrite H. split; [reflexivity|lia]. Qed.

Lemma one_get_after_still A B (m : M A) (k : A -> M B) :
  still m -> (forall a, at_most_one_get (k a)) -> at_most_one_get (bind m k).
Proof.
  intros Hm Hk w. unfold bind. specialize (Hm w).
  destruct (m w) as [[[a|e] w1] l1]; cbn [fst snd] in *; subst w1.
  - specialize (Hk a w). destruct (k a w) as [[r w2] l2]. exact Hk.
  - split; [reflexivity|lia].
Qed.

Lemma one_get_then_still A B (m : M A) (k : A -> M B) :
  at_most_one_get m -> (forall a, still (k a)) -> at_most_one_get (bind m k).
Proof.
  intros Hm Hk w. unfold bind. specialize (Hm w).
  destruct (m w) as [[[a|e] w1] l1]; cbn [fst snd] in *; [|exact Hm].
  specialize (Hk a w1). destruct (k a w1) as [[r w2] l2]. cbn [fst snd] in *.
  now subst w2.
Qed.

Lemma extract_one_get data : at_most_one_get (_extract_video_from_json data).
Proof.
  intros w. destruct (extract_cost data w) as [E|[E _]]; rewrite E; cbn;
    split; auto; lia.
Qed.

Lemma json_line_one_get line video_chunks : at_most_one_get (json_line line video_chunks).
Proof.
  unfold json_line. destruct (strip line) as [|c s];
    [apply still_at_most_one_get, still_ret|].
  destruct (json_loads (c :: s)) as [data|].
  - apply one_get_then_still; [apply extract_one_get|].
    intros vc. destruct (truthy vc); apply still_ret.
  - apply still_at_most_one_get, still_bind; [apply still_logger|].
    intros _. apply still_ret.
Qed.

Lemma sse_line_one_get line st : at_most_one_get (sse_line line st).
Proof.
  destruct st as [n acc]. unfold sse_line. apply one_get_after_still.
  { destruct (strip line); [apply still_ret|apply still_logger]. }
  intros _. destruct (startswith _ _); [|apply still_at_most_one_get, still_ret].
  destruct (str_eqb _ _); [apply still_at_most_one_get, still_ret|].
  destruct (json_loads _) as [data|].
  - apply one_get_after_still; [apply still_logger|]. intros _.
    apply one_get_then_still; [apply extract_one_get|].
    intros vc. destruct (truthy vc).
    + apply still_bind; [apply still_logger|]. intros _. apply still_ret.
    + destruct data; try apply still_raise.
      apply still_bind; [apply still_logger|]. intros _. apply still_ret.
  - apply still_at_most_one_get. apply still_bind; [apply still_logger|]. intros _.
    apply still_bind; [apply still_logger|]. intros _. apply still_ret.
Qed.

Lemma lines_gets St (on_line : str -> St -> M St) :
  (forall line st, at_most_one_get (on_line line st)) ->
  forall lines st w,
    net (snd (fst (for_each lines on_line st w))) = net w /\
    (gets w <= gets (snd (fst (for_each lines on_line st w)))
     <= gets w + length lines)%nat.
Proof.
  intros H. induction lines as [|line lines IH]; intros st w.
  - cbn. split; [reflexivity|lia].
  - cbn [for_each length]. unfold bind. specialize (H line st w).
    destruct (on_line line st w) as [[[st'|e] w1] l1]; cbn [fst snd] in *.
    + specialize (IH st' w1). destruct (for_each lines on_line st' w1) as [[r w2] l2].
      cbn [fst snd] in *. destruct H as [H1 H2], IH as [I1 I2].
      split; [congruence|lia].
    + destruct H as [H1 H2]. split; [exact H1|lia].
Qed.

Lemma after_lines_bound A St (m : M St) (k : St -> M A) w (n : nat) :
  (forall st, still (k st)) ->
  net (snd (fst (m w))) = net w /\
  (gets w <= gets (snd (fst (m w))) <= gets w + n)%nat ->
  net (snd (fst (bind m k w))) = net w /\
  (gets w <= gets (snd (fst (bind m k w))) <= gets w + n)%nat.
Proof.
  intros Hk H. unfold bind. destruct (m w) as [[[st|e] w1] l1]; cbn [fst snd] in *.
  - specialize (Hk st w1). destruct (k st w1) as [[r w2] l2]. cbn [fst snd] in *.
    now subst w2.
  - exact H.
Qed.

(** X14. The SSE parser and the NDJSON parser issue at most one GET for
    each complete line of the stream, and none for a stream without a
    newline; the network itself is left as it was. *)
Theorem one_get_per_complete_line (r : response) (total_size : option Z) (w : world) :
  (net (snd (fst (_parse_sse_stream r total_size w))) = net w /\
   (gets w <= gets (snd (fst (_parse_sse_stream r total_size w)))
    <= gets w + length (lines_of r))%nat) /\
  (net (snd (fst (_parse_json_stream r total_size w))) = net w /\
   (gets w <= gets (snd (fst (_parse_json_stream r total_size w)))
    <= gets w + length (lines_of r))%nat).
Proof.
  rewrite parse_sse_lines, parse_json_lines. split.
  - unfold sse_over_lines. apply after_lines_bound.
    + intros st w'. unfold sse_result. destruct (ending r), (snd st); reflexivity.
    + apply (lines_gets sse_line sse_line_one_get).
  - unfold json_over_lines. apply after_lines_bound.
    + intros st w'. unfold json_result. destruct (ending r), st; reflexivity.
    + apply (lines_gets json_line json_line_one_get).
Qed.

(** ** The content field is a place for URLs only *)

Lemma str_eqb_refl a : str_eqb a a = true.
Proof. induction a as [|x a IH]; [reflexivity|]. cbn. now rewrite N.eqb_refl. Qed.

Lemma first_url_none fields d :
  (forall field v, In field fields -> dict_get field d = Some v ->
                   extract_url_from_html v = None) ->
  first_url fields d = None.
Proof.
  induction fields as [|f fields IH]; intros H; [reflexivity|]. cbn [first_url].
  assert (I : first_url fields d = None).
  { apply IH. intros field v Hi. apply H. now right. }
  destruct (dict_get f d) as [v|] eqn:E; [|exact I].
  now rewrite (H f v (or_introl eq_refl) E).
Qed.

Lemma first_data_none fields d :
  (forall field, In field fields -> str_eqb field (s_ "content") = false ->
                 dict_get field d = None) ->
  first_data fields d = None.
Proof.
  induction fields as [|f fields IH]; intros H; [reflexivity|]. cbn [first_data].
  assert (I : first_data fields d = None).
  { apply IH. intros field Hi. apply H. now right. }
  destruct (str_eqb f (s_ "content")) eqn:E.
  - destruct (dict_get f d); exact I.
  - now rewrite (H f (or_introl eq_refl) E).
Qed.

(** X15. The field [content] is searched for a URL and never decoded: an
    object without choices whose only media field is a [content] that
    holds no URL gives no video and no GET, even when that content is
    valid base64. *)
Theorem content_is_never_decoded (d : list (str * value)) (w : world) (text : value) :
  dict_get (s_ "content") d = Some text ->
  extract_url_from_html text = None ->
  (forall field, In field (url_fields ++ possible_fields) ->
                 str_eqb field (s_ "content") = false -> dict_get field d = None) ->
  dict_get (s_ "choices") d = None ->
  _extract_video_from_json (VDict d) w = (Ok None, w, []).
Proof.
  intros Hc Hu Ha Hn.
  rewrite extract_choices_silent by (unfold choices_silent; now rewrite Hn).
  unfold first_match. rewrite first_url_none, first_data_none; [reflexivity| |].
  - intros field Hi. apply Ha. apply in_or_app. now right.
  - intros field v Hi Hv. destruct (str_eqb field (s_ "content")) eqn:E.
    + apply str_eqb_eq in E. subst field. congruence.
    + rewrite Ha in Hv; [discriminate|apply in_or_app; now left|exact E].
Qed.

Lemma content_is_never_decoded_witness :
  _decode_video_data (VStr (s_ "aGk=")) = Some (b_ "hi") /\
  _extract_video_from_json (VDict content_only) live_world = (Ok None, live_world, []).
Proof.
  split; [vm_compute; reflexivity|].
  apply (@content_is_never_decoded content_only live_world (VStr (s_ "aGk="))
           eq_refl eq_refl); [|reflexivity].
  intros field Hi. cbn in Hi.
  repeat (destruct Hi as [<-|Hi]; [intros E; try discriminate E; reflexivity|]).
  contradiction.
Defined.

(** ** What the regular expression of extract_url_from_html captures *)

Lemma startswith_split p : forall s,
  startswith p s = true -> s = p ++ skipn (length p) s.
Proof.
  induction p as [|x p IH]; intros s H; [reflexivity|].
  destruct s as [|y s]; [discriminate|]. cbn in H.
  apply andb_prop in H as [H1 H2]. apply N.eqb_eq in H1. subst y.
  cbn. now rewrite <- (IH s H2).
Qed.

Lemma span_split (p : N -> bool) s : forall a b,
  span p s = (a, b) ->
  s = a ++ b /\ forallb p a = true /\
  match b with c :: _ => p c = false | [] => True end.
Proof.
  induction s as [|c s IH]; intros a b H.
  - injection H as <- <-. repeat split.
  - cbn [span] in H. destruct (p c) eqn:E.
    + destruct (span p s) as [a' b'] eqn:Es. injection H as <- <-.
      destruct (IH a' b' eq_refl) as (-> & Hf & Hb).
      cbn. rewrite E, Hf. repeat split. exact Hb.
    + injection H as <- <-. repeat split. exact E.
Qed.

Lemma match_src_sound t g :
  match_src t = Some g ->
  exists q1 q2 post,
    t = s_ "src=" ++ q1 :: g ++ q2 :: post /\
    is_quote q1 = true /\ is_quote q2 = true /\
    forallb (fun c => negb (is_quote c)) g = true.
Proof.
  unfold match_src. destruct (startswith (s_ "src=") t) eqn:Es; [|discriminate].
  apply startswith_split in Es. change (length (s_ "src=")) with 4%nat in Es.
  destruct (skipn 4 t) as [|q r]; [discriminate|].
  destruct (is_quote q) eqn:Eq; [|discriminate].
  destruct (span (fun c => negb (is_quote c)) r) as [a b] eqn:Ea.
  destruct a as [|c a]; [discriminate|]. destruct b as [|q2 post]; [discriminate|].
  intros H. injection H as <-.
  destruct (span_split _ _ Ea) as (-> & Hf & Hq).
  exists q, q2, post. repeat split; auto.
  now apply negb_false_iff in Hq.
Qed.

Lemma match_attrs_sound t : forall g,
  match_attrs t = Some g ->
  exists b rest,
    t = b ++ rest /\ forallb (fun c => negb (c =? 62)) b = true /\
    match_src rest = Some g.
Proof.
  induction t as [|c t IH]; intros g H.
  - exists [], []. auto.
  - cbn [match_attrs] in H. destruct (c =? 62) eqn:Ec.
    + exists [], (c :: t). auto.
    + destruct (match_attrs t) as [g'|].
      * injection H as <-. destruct (IH g' eq_refl) as (b & rest & -> & Hb & Hm).
        exists (c :: b), rest. cbn. rewrite Ec, Hb. auto.
      * exists [], (c :: t). auto.
Qed.

Lemma re_search_sound t : forall g,
  re_search_video_src t = Some g ->
  exists a t0, t = a ++ t0 /\ match_video_tag t0 = Some g.
Proof.
  induction t as [|c t IH]; intros g H.
  - cbn in H. discriminate.
  - cbn [re_search_video_src] in H.
    destruct (match_video_tag (c :: t)) as [g'|] eqn:E.
    + injection H as <-. exists [], (c :: t). auto.
    + destruct (IH g H) as (a & t0 & -> & Hm). exists (c :: a), t0. auto.
Qed.

(** X16. What [extract_url_from_html] returns is never empty and is one
    of two things: the text between two quotes (single or double, not
    necessarily the same) that follows src= inside a video tag, free of
    quotes, the attributes before it holding no closing bracket; or,
    when the text holds no such tag, the whole text, which then starts
    with http.  A value that is not a string gives nothing. *)
Theorem extract_url_sound (v : value) (url : str) :
  extract_url_from_html v = Some url ->
  exists t, v = VStr t /\ url <> [] /\
    ((exists a b q1 q2 post,
        t = a ++ s_ "<video" ++ b ++ s_ "src=" ++ q1 :: url ++ q2 :: post /\
        b <> [] /\ forallb (fun c => negb (c =? 62)) b = true /\
        is_quote q1 = true /\ is_quote q2 = true /\
        forallb (fun c => negb (is_quote c)) url = true) \/
     (re_search_video_src t = None /\ url = t /\ startswith (s_ "http") t = true)).
Proof.
  intros H. pose proof (extract_url_nonempty _ H) as Hn.
  destruct v as [| | | |t| | |]; try discriminate.
  exists t. split; [reflexivity|]. split; [exact Hn|].
  cbn [extract_url_from_html] in H.
  destruct (re_search_video_src t) as [g|] eqn:E.
  - injection H as ->. left.
    destruct (re_search_sound _ E) as (a & t0 & -> & Hm).
    unfold match_video_tag in Hm.
    destruct (startswith (s_ "<video") t0) eqn:Es; [|discriminate].
    apply startswith_split in Es. change (length (s_ "<video")) with 6%nat in Es.
    destruct (skipn 6 t0) as [|c t1]; [discriminate|].
    destruct (c =? 62) eqn:Ec; [discriminate|].
    destruct (match_attrs_sound _ Hm) as (b & rest & -> & Hb & Hs).
    destruct (match_src_sound _ Hs) as (q1 & q2 & post & -> & Hq1 & Hq2 & Hu).
    exists a, (c :: b), q1, q2, post. rewrite Es. cbn [forallb]. rewrite Ec, Hb.
    repeat split; auto. discriminate.
  - destruct (startswith (s_ "http") t) eqn:Eh; [|discriminate].
    injection H as <-. right. auto.
Qed.

Lemma extract_url_sound_witness :
  extract_url_from_html
    (VStr (dq "<p><video controls src='http://x/v.mp4' loop></video>")) =
    Some (s_ "http://x/v.mp4") /\
  exists t,
    VStr (dq "<p><video controls src='http://x/v.mp4' loop></video>") = VStr t /\
    s_ "http://x/v.mp4" <> [] /\
    ((exists a b q1 q2 post,
        t = a ++ s_ "<video" ++ b ++ s_ "src=" ++ q1 :: s_ "http://x/v.mp4" ++ q2 :: post /\
        b <> [] /\ forallb (fun c => negb (c =? 62)) b = true /\
        is_quote q1 = true /\ is_quote q2 = true /\
        forallb (fun c => negb (is_quote c)) (s_ "http://x/v.mp4") = true) \/
     (re_search_video_src t = None /\ s_ "http://x/v.mp4" = t /\
      startswith (s_ "http") t = true)).
Proof.
  split; [vm_compute; reflexivity|].
  apply (@extract_url_sound
           (VStr (dq "<p><video controls src='http://x/v.mp4' loop></video>"))
           (s_ "http://x/v.mp4")).
  vm_compute. reflexivity.
Defined.

(** ** The image encoder *)




(** ** The request *)

Lemma b64encode_empty data : b64encode data = [] -> data = [].
Proof.
  destruct data as [|x [|y [|z rest]]]; [reflexivity|discriminate..].
Qed.

(** X19. The content of the request is the image entries followed by
    exactly one text entry, which comes last; an image argument that is
    None or the empty string gives no entry.  So the encoding of an empty
    image file, which is the empty string, is dropped from the request
    without an error, while any other encoded image is sent as a data URL
    whose base64 part decodes back to the bytes of the file. *)
Theorem request_content_shape (prompt : str) (img1_b64 img2_b64 : option str) :
  (exists images,
     request_content prompt img1_b64 img2_b64 = images ++ [text_entry prompt] /\
     images =
       List.map image_entry
         (List.filter (fun s => match s with [] => false | _ :: _ => true end)
            (match img1_b64 with Some s => [s] | None => [] end ++
             match img2_b64 with Some s => [s] | None => [] end))) /\
  (forall max_size formats f s,
     encode_image_to_base64 max_size formats (Some f) = Encoded s ->
     (image_data f = [] ->
      request_content prompt (Some s) None = [text_entry prompt]) /\
     (image_data f <> [] ->
      request_content prompt (Some s) None = [image_entry s; text_entry prompt] /\
      _decode_video_data (VStr s) = Some (image_data f))).
Proof.
  split.
  - eexists. split; [|reflexivity]. unfold request_content.
    destruct img1_b64 as [[|c1 s1]|], img2_b64 as [[|c2 s2]|]; reflexivity.
  - intros max_size formats f s H.
    pose proof (@encoded_image_decodes max_size formats f s H) as D.
    unfold encode_image_to_base64 in H.
    destruct (negb _); [discriminate|]. destruct (_ <? _); [discriminate|].
    injection H as <-. split.
    + intros ->. reflexivity.
    + intros Hn. split; [|exact D]. unfold request_content.
      destruct (decode_ascii (b64encode (image_data f))) as [|c s] eqn:E;
        [|reflexivity].
      unfold decode_ascii in E. apply map_eq_nil in E.
      now apply b64encode_empty in E.
Qed.

Lemma request_content_shape_witness :
  encode_image_to_base64 3 [s_ ".jpg"; s_ ".png"] (Some empty_png) = Encoded [] /\
  request_content (s_ "a cat") (Some []) None = [text_entry (s_ "a cat")] /\
  request_content (s_ "a cat") (Some (s_ "cG5n")) None =
    [image_entry (s_ "cG5n"); text_entry (s_ "a cat")].
Proof.
  split; [reflexivity|]. split.
  - apply (proj1 (proj2 (@request_content_shape (s_ "a cat") None None)
                    3 [s_ ".jpg"; s_ ".png"] empty_png [] eq_refl)).
    reflexivity.
  - apply (proj2 (proj2 (@request_content_shape (s_ "a cat") None None)
                    3 [s_ ".jpg"; s_ ".png"] small_png (s_ "cG5n") eq_refl)).
    discriminate.
Defined.

(** X20. The entry point generate_video.py calls [generate_video] with
    the two encoded images and the prompt, in that order, for the
    parameters prompt, model, first image, second image: the request it
    sends names the second image as its model, carries the first image as
    its text, and holds the prompt in a data URL as its only image.  The
    commands i2v and t2v, which pass their arguments by keyword, send the
    prompt as the text and the model as the model. *)
Theorem main_request_swaps_arguments (img1_b64 img2_b64 prompt_text : str) :
  prompt_text <> [] ->
  main_request img1_b64 img2_b64 prompt_text =
    VDict [(s_ "model", VStr img2_b64);
           (s_ "messages",
            VList [VDict [(s_ "role", VStr (s_ "user"));
                          (s_ "content",
                           VList [image_entry prompt_text; text_entry img1_b64])]]);
           (s_ "stream", VBool true)] /\
  (forall model_id img2,
     py_getitem (i2v_request prompt_text model_id img1_b64 img2) (s_ "model") =
       Ok (VStr model_id) /\
     last (request_content prompt_text (Some img1_b64) img2) VNone =
       text_entry prompt_text) /\
  (forall model_id,
     t2v_request prompt_text model_id =
     VDict [(s_ "model", VStr model_id);
            (s_ "messages",
             VList [VDict [(s_ "role", VStr (s_ "user"));
                           (s_ "content", VList [text_entry prompt_text])]]);
            (s_ "stream", VBool true)]).
Proof.
  intros Hp. split; [|split].
  - unfold main_request, request_payload, request_content.
    destruct prompt_text; [contradiction|reflexivity].
  - intros model_id img2. split; [reflexivity|].
    unfold request_content. apply last_last.
  - reflexivity.
Qed.

Lemma main_request_swaps_arguments_witness :
  py_getitem (main_request (s_ "aW1nMQ==") (s_ "aW1nMg==") (s_ "a cat")) (s_ "model") =
  Ok (VStr (s_ "aW1nMg==")).
Proof.
  rewrite (proj1 (@main_request_swaps_arguments
                    (s_ "aW1nMQ==") (s_ "aW1nMg==") (s_ "a cat") ltac:(discriminate))).
  reflexivity.
Defined.

(** ** The model selector and the catalog *)

(** X21. [select_model] checks a manual model against the catalog and
    nothing else: a manual model that is in the catalog is returned
    whatever the mode, the number of images and the orientation are, and
    one that is not raises [ModelNotFoundError].  Without manual model
    (None or the empty string) the catalog is not consulted, so the
    result is the same with an empty catalog; the selection succeeds
    exactly for the mode t2v and for the mode i2v with one or two images,
    and raises [ValueError] otherwise. *)
Theorem select_model_validation (models : Models.catalog) (mode : str)
  (image_count : Z) (manual_model : option str) (orientation : str) :
  (forall m, manual_model = Some m -> m <> [] ->
     Models.select_model models mode image_count manual_model orientation =
     match Models.lookup m models with
     | Some _ => Models.Done m
     | None => Models.Fails Models.ModelNotFoundError
     end) /\
  (manual_model = None \/ manual_model = Some [] ->
     Models.select_model models mode image_count manual_model orientation =
     Models.select_model [] mode image_count manual_model orientation /\
     Models.select_model models mode image_count manual_model orientation <>
     Models.Fails Models.ModelNotFoundError /\
     (Models.select_model models mode image_count manual_model orientation =
      Models.Fails Models.ValueError <->
      ~ (mode = s_ "t2v" \/
         (mode = s_ "i2v" /\ (image_count = 1 \/ image_count = 2)%Z)))).
Proof.
  split.
  - intros m -> Hm. destruct m as [|c s]; [contradiction|].
    unfold Models.select_model, Models.get_model.
    now destruct (Models.lookup (c :: s) models).
  - intros Hm.
    assert (E : Models.select_model models mode image_count manual_model orientation =
                if str_eqb mode (s_ "t2v") then
                  if str_eqb orientation (s_ "portrait")
                  then Models.Done (s_ "veo_3_1_t2v_fast_portrait")
                  else Models.Done (s_ "veo_3_1_t2v_fast_landscape")
                else if str_eqb mode (s_ "i2v") then
                  if (image_count =? 1)%Z then
                    if str_eqb orientation (s_ "portrait")
                    then Models.Done (s_ "veo_3_1_i2v_s_portrait")
                    else Models.Done (s_ "veo_3_1_i2v_s_landscape")
                  else if (image_count =? 2)%Z then
                    if str_eqb orientation (s_ "portrait")
                    then Models.Done (s_ "veo_3_1_i2v_s_fast_portrait_fl")
                    else Models.Done (s_ "veo_3_1_i2v_s_fast_fl")
                  else Models.Fails Models.ValueError
                else Models.Fails Models.ValueError).
    { destruct Hm as [->| ->]; reflexivity. }
    split; [destruct Hm as [->| ->]; reflexivity|]. rewrite E. clear E.
    destruct (str_eqb mode (s_ "t2v")) eqn:Et.
    { apply str_eqb_eq in Et. subst mode.
      split; [destruct (str_eqb orientation _); discriminate|].
      split.
      + intros H. destruct (str_eqb orientation _); discriminate H.
      + intros H. exfalso. apply H. now left. }
    assert (Nt : mode <> s_ "t2v").
    { intros ->. now rewrite str_eqb_refl in Et. }
    destruct (str_eqb mode (s_ "i2v")) eqn:Ei.
    + apply str_eqb_eq in Ei. subst mode.
      destruct (image_count =? 1)%Z eqn:E1.
      { apply Z.eqb_eq in E1.
        split; [destruct (str_eqb orientation _); discriminate|].
        split.
        - intros H. destruct (str_eqb orientation _); discriminate H.
        - intros H. exfalso. apply H. right. auto. }
      destruct (image_count =? 2)%Z eqn:E2.
      { apply Z.eqb_eq in E2.
        split; [destruct (str_eqb orientation _); discriminate|].
        split.
        - intros H. destruct (str_eqb orientation _); discriminate H.
        - intros H. exfalso. apply H. right. auto. }
      apply Z.eqb_neq in E1, E2.
      split; [discriminate|]. split; [|reflexivity].
      intros _ [H|[_ [H|H]]]; [discriminate H|contradiction..].
    + assert (Ni : mode <> s_ "i2v").
      { intros ->. now rewrite str_eqb_refl in Ei. }
      split; [discriminate|]. split; [|reflexivity].
      intros _ [H|[H _]]; contradiction.
Qed.

Lemma select_model_validation_witness :
  Models.select_model Models.sample (s_ "t2v") 0
    (Some (s_ "veo_3_1_i2v_s_landscape")) (s_ "landscape") =
    Models.Done (s_ "veo_3_1_i2v_s_landscape") /\
  Models.select_model Models.sample (s_ "i2v") 2 None (s_ "landscape") =
    Models.select_model [] (s_ "i2v") 2 None (s_ "landscape").
Proof.
  split.
  - rewrite (proj1 (@select_model_validation Models.sample (s_ "t2v") 0
                      (Some (s_ "veo_3_1_i2v_s_landscape")) (s_ "landscape"))
                   (s_ "veo_3_1_i2v_s_landscape") eq_refl ltac:(discriminate)).
    reflexivity.
  - apply (proj2 (@select_model_validation Models.sample (s_ "i2v") 2 None
                    (s_ "landscape"))). now left.
Defined.

Lemma lookup_in_values model_id models m :
  Models.lookup model_id models = Some m -> In m (Models.values models).
Proof.
  induction models as [|[k m'] models IH]; [discriminate|]. cbn.
  destruct (str_eqb k model_id); [intros H; injection H as ->; now left|].
  intros H. right. now apply IH.
Qed.

(** X22. The queries of the catalog agree with each other: the models
    listed for a category are the models of the whole list that have that
    category, in the same order; the recommended model of a category is
    the first recommended entry of that list, and
    [ModelNotFoundError] is raised exactly when the list has none; a
    model found by its id is in the whole list. *)
Theorem catalog_queries_agree (models : Models.catalog) (category : str) :
  category <> [] ->
  Models.list_models models (Some category) =
    List.filter (fun m => str_eqb (Models.category m) category)
                (Models.list_models models None) /\
  (forall m, In m (Models.list_models models (Some category)) <->
             In m (Models.list_models models None) /\ Models.category m = category) /\
  Models.get_recommended models category =
    match List.find Models.recommended (Models.list_models models (Some category)) with
    | Some m => Models.Done m
    | None => Models.Fails Models.ModelNotFoundError
    end /\
  (forall m, Models.get_recommended models category = Models.Done m ->
             In m (Models.list_models models (Some category)) /\
             Models.recommended m = true) /\
  (forall model_id m, Models.get_model models model_id = Models.Done m ->
                      In m (Models.list_models models None)).
Proof.
  intros Hc. destruct category as [|c s]; [contradiction|].
  assert (L : Models.list_models models (Some (c :: s)) =
              List.filter (fun m => str_eqb (Models.category m) (c :: s))
                          (Models.list_models models None)) by reflexivity.
  assert (R : Models.get_recommended models (c :: s) =
              match List.find Models.recommended
                      (Models.list_models models (Some (c :: s))) with
              | Some m => Models.Done m
              | None => Models.Fails Models.ModelNotFoundError
              end).
  { rewrite L. unfold Models.get_recommended, Models.list_models.
    induction (Models.values models) as [|m ms IH]; [reflexivity|].
    cbn [List.filter]. destruct (str_eqb (Models.category m) (c :: s)); cbn [andb].
    - cbn [List.find]. destruct (Models.recommended m); [reflexivity|exact IH].
    - exact IH. }
  split; [exact L|]. split; [|split; [exact R|split]].
  - intros m. unfold Models.list_models. split.
    + intros H. apply filter_In in H as [H1 H2]. split; [exact H1|].
      now apply str_eqb_eq.
    + intros [H1 H2]. apply filter_In. split; [exact H1|].
      rewrite H2. apply str_eqb_refl.
  - intros m H. rewrite R in H.
    destruct (List.find _ _) as [m'|] eqn:E; [|discriminate].
    injection H as ->. now apply find_some in E.
  - intros model_id m. unfold Models.get_model.
    destruct (Models.lookup model_id models) as [m'|] eqn:E; [|discriminate].
    intros H. injection H as ->. now apply (@lookup_in_values model_id).
Qed.

Lemma catalog_queries_agree_witness :
  Models.get_recommended Models.sample (s_ "t2v") =
    Models.get_model Models.sample (s_ "veo_3_1_t2v_fast_landscape") /\
  Models.get_recommended Models.sample (s_ "i2v") =
    Models.Fails Models.ModelNotFoundError.
Proof.
  split.
  - rewrite (proj1 (proj2 (proj2 (@catalog_queries_agree Models.sample (s_ "t2v")
                                    ltac:(discriminate))))).
    reflexivity.
  - rewrite (proj1 (proj2 (proj2 (@catalog_queries_agree Models.sample (s_ "i2v")
                                    ltac:(discriminate))))).
    reflexivity.
Defined.

(** ** Saving the video *)

Lemma read_remove_same path d : read_bytes path (remove_file path d) = None.
Proof.
  induction d as [|[p c] d IH]; [reflexivity|]. cbn.
  destruct (str_eqb p path) eqn:E; [exact IH|]. cbn. now rewrite E.
Qed.

Lemma read_remove_other path path' d :
  str_eqb path path' = false ->
  read_bytes path' (remove_file path d) = read_bytes path' d.
Proof.
  intros H. induction d as [|[p c] d IH]; [reflexivity|]. cbn.
  destruct (str_eqb p path) eqn:E.
  - apply str_eqb_eq in E. subst p. now rewrite H.
  - cbn. now rewrite IH.
Qed.

Lemma read_put_same path content d : read_bytes path (put_file path content d) = Some content.
Proof. unfold put_file. cbn. now rewrite str_eqb_refl. Qed.

Lemma read_put_other path path' content d :
  str_eqb path path' = false ->
  read_bytes path' (put_file path content d) = read_bytes path' d.
Proof. intros H. unfold put_file. cbn. rewrite H. now apply read_remove_other. Qed.

(** X23. [save_video_stream] leaves at the output path either the whole
    video or, when the write fails and the clean-up succeeds, no file at
    all: the part that was written is removed, and so is a file that was
    there before, even when the write failed without touching it.
    [SaveError] is raised exactly then.  Only when the clean-up itself
    fails does [OSError] leave the function, with whatever the write left
    behind.  No other file is touched. *)
Theorem save_leaves_whole_video_or_nothing (write : write_outcome)
  (unlink_fails : bool) (stream_content : bytes) (output_path : str) (d : disk) :
  match fst (save_video_stream write unlink_fails stream_content output_path d) with
  | Saved =>
      write = Written /\
      read_bytes output_path
        (snd (save_video_stream write unlink_fails stream_content output_path d)) =
      Some stream_content
  | SaveError =>
      write <> Written /\ unlink_fails = false /\
      read_bytes output_path
        (snd (save_video_stream write unlink_fails stream_content output_path d)) = None
  | OSError =>
      unlink_fails = true /\
      exists partial,
        write = WriteFailed partial /\
        read_bytes output_path
          (snd (save_video_stream write unlink_fails stream_content output_path d)) =
        match partial with
        | Some part => Some part
        | None => read_bytes output_path d
        end
  end /\
  (forall other, str_eqb output_path other = false ->
     read_bytes other
       (snd (save_video_stream write unlink_fails stream_content output_path d)) =
     read_bytes other d).
Proof.
  unfold save_video_stream. destruct write as [|[part|]], unlink_fails; cbn [fst snd];
    (split; [|intros other Ho;
              rewrite ?read_remove_other, ?read_put_other, ?read_remove_other by exact Ho;
              reflexivity]).
  - split; [reflexivity|apply read_put_same].
  - split; [reflexivity|apply read_put_same].
  - split; [reflexivity|]. exists (Some part). split; [reflexivity|apply read_put_same].
  - split; [discriminate|]. split; [reflexivity|apply read_remove_same].
  - split; [reflexivity|]. exists None. split; reflexivity.
  - split; [discriminate|]. split; [reflexivity|apply read_remove_same].
Qed.

(** ** Hexadecimal text of an even number of bytes *)

Lemma a2b_loop_quads (k : nat) :
  forall data lc p out,
    length data = (4 * k)%nat ->
    forallb is_hex_digit data = true ->
    exists b, a2b_loop data 0 lc p out = Some b /\
              length b = (length out + 3 * k)%nat.
Proof.
  induction k as [|k IH]; intros data lc p out Hl Hd.
  - destruct data; [|discriminate]. exists out. split; [reflexivity|lia].
  - destruct data as [|c1 [|c2 [|c3 [|c4 data]]]]; cbn [length] in Hl; try lia.
    cbn [forallb] in Hd.
    apply andb_prop in Hd as [H1 Hd]. apply andb_prop in Hd as [H2 Hd].
    apply andb_prop in Hd as [H3 Hd]. apply andb_prop in Hd as [H4 Hd].
    destruct (@hex_digit_base64 c1 H1) as (P1 & [v1 V1] & _).
    destruct (@hex_digit_base64 c2 H2) as (P2 & [v2 V2] & _).
    destruct (@hex_digit_base64 c3 H3) as (P3 & [v3 V3] & _).
    destruct (@hex_digit_base64 c4 H4) as (P4 & [v4 V4] & _).
    cbn [a2b_loop]. rewrite P1, V1. cbn [N.eqb].
    cbn [a2b_loop]. rewrite P2, V2. cbn [N.eqb Pos.eqb].
    cbn [a2b_loop]. rewrite P3, V3. cbn [N.eqb Pos.eqb].
    cbn [a2b_loop]. rewrite P4, V4. cbn [N.eqb Pos.eqb].
    destruct (IH data 0 0
                (((out ++ [byte_of_N (N.lor (N.shiftl v1 2) (N.shiftr v2 4))]) ++
                  [byte_of_N (N.lor (N.shiftl (N.land v2 15) 4) (N.shiftr v3 2))]) ++
                 [byte_of_N (N.lor (N.shiftl (N.land v3 3) 6) v4)])
                ltac:(lia) Hd) as (b & Hb & Lb).
    exists b. split; [exact Hb|]. rewrite Lb, !length_app. cbn [length]. lia.
Qed.

Lemma fromhex_loop_length s :
  forall out,
    forallb is_hex_digit s = true -> Nat.even (length s) = true ->
    exists h, fromhex_loop s out = Some h /\
              (2 * length h = 2 * length out + length s)%nat.
Proof.
  induction s as [|c|c d s IH] using list_ind2; intros out Hs He.
  - exists out. split; [reflexivity|cbn; lia].
  - discriminate.
  - cbn [forallb] in Hs. apply andb_prop in Hs as [Hc Hs].
    apply andb_prop in Hs as [Hd Hs].
    destruct (@hex_digit_base64 c Hc) as (_ & _ & _ & Hsp).
    cbn [fromhex_loop]. rewrite Hsp. unfold is_hex_digit in Hc, Hd.
    destruct (hex_value c) as [top|]; [|discriminate].
    destruct (hex_value d) as [bot|]; [|discriminate].
    destruct (IH (out ++ [byte_of_N (N.shiftl top 4 + bot)]) Hs He) as (h & Hh & Lh).
    exists h. split; [exact Hh|]. rewrite length_app in Lh. cbn [length] in *. lia.
Qed.

(** X17. The hexadecimal form of a video reaches the hex decoder only
    when the video has an odd number of bytes.  The hex text of an even,
    non-zero number of bytes has a multiple of four digits, all of them in
    the base64 alphabet: it is decoded as base64, and what comes out has
    one and a half times the length of the video, so it is not the
    video.  With an odd number of bytes base64 fails and the hex reading
    is returned. *)
Theorem hex_of_even_length_is_read_as_base64 (s : str) (k : nat) :
  forallb is_hex_digit s = true ->
  (length s = (4 * k)%nat -> (0 < k)%nat ->
   exists h b,
     fromhex s = Some h /\ length h = (2 * k)%nat /\
     _decode_video_data (VStr s) = Some b /\ length b = (3 * k)%nat /\ b <> h) /\
  (length s = (4 * k + 2)%nat ->
   exists h,
     fromhex s = Some h /\ length h = (2 * k + 1)%nat /\
     _decode_video_data (VStr s) = Some h).
Proof.
  intros Hd. split.
  - intros Hl Hk.
    destruct (@fromhex_loop_length s [] Hd) as (h & Hh & Lh).
    { rewrite Hl. apply Nat.even_spec. exists (2 * k)%nat. lia. }
    destruct (@a2b_loop_quads k s 0 0 [] Hl Hd) as (b & Hb & Lb).
    exists h, b. cbn [length] in Lh, Lb.
    assert (F : fromhex s = Some h).
    { unfold fromhex. now rewrite (@hex_digits_ascii s Hd). }
    assert (B : b64decode s = Some b).
    { unfold b64decode, encode_ascii, a2b_base64.
      now rewrite (@hex_digits_ascii s Hd), (@to_N_byte_of_hex s Hd). }
    split; [exact F|]. split; [lia|]. split; [cbn; now rewrite B|].
    split; [lia|]. intros ->. lia.
  - intros Hl.
    destruct (@fromhex_loop_length s [] Hd) as (h & Hh & Lh).
    { rewrite Hl. apply Nat.even_spec. exists (2 * k + 1)%nat. lia. }
    exists h. cbn [length] in Lh.
    assert (F : fromhex s = Some h).
    { unfold fromhex. now rewrite (@hex_digits_ascii s Hd). }
    split; [exact F|]. split; [lia|].
    pose proof (@hex_text_decoding s Hd) as T.
    replace (N.of_nat (length s) mod 4) with 2 in T.
    + destruct T as (_ & h' & F' & D). congruence.
    + rewrite Hl. replace (N.of_nat (4 * k + 2)) with (2 + N.of_nat k * 4) by lia.
      now rewrite N.Div0.mod_add.
Qed.

Lemma hex_of_even_length_is_read_as_base64_witness :
  fromhex (s_ "00112233") = Some [x00; x11; x22; x33] /\
  exists h b,
    fromhex (s_ "00112233") = Some h /\ length h = (2 * 2)%nat /\
    _decode_video_data (VStr (s_ "00112233")) = Some b /\
    length b = (3 * 2)%nat /\ b <> h.
Proof.
  split; [vm_compute; reflexivity|].
  apply (proj1 (@hex_of_even_length_is_read_as_base64 (s_ "00112233") 2 eq_refl));
    [reflexivity|lia].
Defined.

(** ** The length header *)

Lemma parser_same_body s r r' total_size total_size' w :
  same_body r r' -> parser_of s r' total_size' w = parser_of s r total_size w.
Proof.
  intros (_ & _ & _ & Hb & Ht & He). destruct s; cbn [parser_of].
  - unfold _parse_binary_stream. now rewrite Hb, He.
  - unfold _parse_sse_stream. now rewrite Ht, He.
  - unfold _parse_json_stream. now rewrite Ht, He.
  - unfold _parse_unknown_stream. now rewrite Hb, He.
Qed.

Lemma handle_response_same_body r r' total_size total_size' w :
  same_body r r' ->
  total_size_of r = Ok total_size -> total_size_of r' = Ok total_size' ->
  handle_response r' w = handle_response r w.
Proof.
  intros B Ht Ht'. pose proof B as (Hs & Hc & Hx & _).
  unfold handle_response. rewrite Hs, Hx, Hc.
  destruct (400 <=? status_code r)%Z.
  { destruct B as (_ & _ & _ & _ & _ & ->). reflexivity. }
  fold (lowered_content_type r).
  apply bind_ext. intros u w1. apply bind_ext. intros u' w2.
  apply bind_ext_l. intros w3.
  replace (lowered_content_type r) with (lowered_content_type r') at 1
    by (unfold lowered_content_type; now rewrite Hc).
  rewrite !dispatch_by_class, Ht, Ht', Hc.
  unfold lowered_content_type. rewrite Hc.
  rewrite !bind_lift_ok. apply bind_ext. intros u'' w4.
  now apply parser_same_body.
Qed.

(** X24. The Content-Length header is read for the progress display and
    for nothing else: two responses with the same status, content type
    and body give the same result, the same GETs and the same log
    whatever lengths they announce, so a body shorter or longer than
    announced is returned as it is.  A header that is not a number, on
    the other hand, ends the call with a [StreamingError] before a byte
    of the body is read. *)
Theorem content_length_is_not_checked (r r' : response) (w : world)
  (total_size total_size' : option Z) :
  same_body r r' ->
  total_size_of r = Ok total_size ->
  (total_size_of r' = Ok total_size' ->
   generate_video (Connected r') w = generate_video (Connected r) w) /\
  (total_size_of r' = Raise ValueError -> (status_code r' < 400)%Z ->
   generate_video (Connected r') w =
   (Raise (StreamingError (s_ "Unexpected error during video generation")), w,
    [LogStatus (status_code r'); LogContentType (lowered_content_type r');
     LogUnexpected ValueError])).
Proof.
  intros B Ht. split.
  - intros Ht'. unfold generate_video, try_except.
    now rewrite (@handle_response_same_body r r' total_size total_size' w B Ht Ht').
  - intros Ht' Hs. unfold generate_video, try_except, handle_response.
    apply Z.leb_gt in Hs. rewrite Hs. fold (lowered_content_type r').
    unfold bind at 1. cbn [logger]. unfold bind at 1. cbn [logger].
    unfold bind at 1. unfold _parse_streaming_response, bind at 1.
    rewrite Ht'. reflexivity.
Qed.

Lemma content_length_is_not_checked_witness :
  fst (fst (generate_video
              (Connected (announced_response 1000000 (s_ "1000000") [b_ "AB"; b_ "CD"]))
              quiet_world)) = Ok (b_ "ABCD") /\
  fst (fst (generate_video (Connected (bad_length_response [b_ "AB"; b_ "CD"]))
              quiet_world)) =
  Raise (StreamingError (s_ "Unexpected error during video generation")).
Proof.
  split.
  - rewrite (proj1 (@content_length_is_not_checked
                      (binary_response [b_ "AB"; b_ "CD"])
                      (announced_response 1000000 (s_ "1000000") [b_ "AB"; b_ "CD"])
                      quiet_world None (Some 1000000%Z)
                      ltac:(repeat split) eq_refl) eq_refl).
    reflexivity.
  - rewrite (proj2 (@content_length_is_not_checked
                      (binary_response [b_ "AB"; b_ "CD"])
                      (bad_length_response [b_ "AB"; b_ "CD"])
                      quiet_world None None
                      ltac:(repeat split) eq_refl) eq_refl ltac:(cbn; lia)).
    reflexivity.
Defined.

(** ** A stream of one chunk without content type *)

(** X25. The text strategies of the auto-detecting parser process the
    lines of the first chunk only when a further chunk arrives.  A
    stream without known content type that comes as one chunk, and does
    not start with a video signature, is therefore never parsed: the
    chunk itself is returned as the video, whatever it holds, and no GET
    is issued. *)
Theorem single_chunk_is_returned_verbatim (r : response) (total_size : option Z)
  (w : world) (first_chunk : bytes) :
  iter_bytes r = [first_chunk] ->
  ending r = Closed ->
  fst (_parse_unknown_stream r total_size w) = (Ok first_chunk, w).
Proof.
  intros Hi He. unfold _parse_unknown_stream. rewrite Hi, He.
  destruct (existsb _ video_signatures).
  { unfold bind, logger. rewrite drain_closed. unfold join. cbn [concat].
    now rewrite app_nil_r. }
  unfold try_text. destruct (utf8_decode first_chunk) as [text_data|].
  - destruct (startswith (s_ "data:") (strip text_data)) eqn:Es.
    + rewrite (@sse_like_not_json_like _ Es).
      unfold text_strategy. cbn [fst snd text_loop stream_stop].
      unfold bind, logger, ret. cbn [fst snd].
      rewrite (@drain_exhausted first_chunk w). reflexivity.
    + destruct (startswith (s_ "{") (strip text_data)).
      * unfold text_strategy. cbn [fst snd].
        unfold bind, logger, ret. cbn [fst snd text_loop stream_stop].
        unfold bind, ret. cbn [fst snd].
        rewrite (@drain_exhausted first_chunk w). reflexivity.
      * unfold bind, logger, ret. rewrite drain_closed. unfold join. cbn [concat].
        now rewrite app_nil_r.
  - unfold bind, logger, ret. rewrite drain_closed. unfold join. cbn [concat].
    now rewrite app_nil_r.
Qed.

Lemma single_chunk_is_returned_verbatim_witness :
  fst (fst (_parse_json_stream
              (text_response (s_ "application/json") [decode_ascii one_chunk_answer])
              None quiet_world)) = Ok (b_ "hi") /\
  fst (_parse_unknown_stream (untyped_response [one_chunk_answer]) None quiet_world) =
  (Ok one_chunk_answer, quiet_world).
Proof.
  split; [vm_compute; reflexivity|].
  apply (@single_chunk_is_returned_verbatim (untyped_response [one_chunk_answer])
           None quiet_world one_chunk_answer eq_refl eq_refl).
Defined.

(** ** Where the auto-detecting parser agrees with the declared parsers *)

Lemma for_each_feed_any St (on_line : str -> St -> M St) chunks buffer st w :
  chunks <> [] ->
  for_each chunks (feed on_line) (buffer, st) w =
  bind (for_each (complete_lines (buffer ++ concat chunks)) on_line st)
       (fun st' => ret (residual (buffer ++ concat chunks), st')) w.
Proof.
  destruct chunks as [|c chunks]; [contradiction|]. intros _.
  cbn [for_each concat]. rewrite feed_eq, bind_assoc.
  rewrite app_assoc, (complete_lines_app (buffer ++ c) (concat chunks)),
    (residual_app (buffer ++ c) (concat chunks)).
  rewrite (@bind_ext_l _ _ _ _ _ _ (for_each_app _ _ on_line st)), bind_assoc.
  apply bind_ext. intros a w'. rewrite bind_ret_l.
  apply for_each_feed, residual_no_nl.
Qed.

Lemma text_loop_decoded on_line pending texts :
  decoded pending texts ->
  forall e buffer video_chunks w,
    text_loop on_line pending e buffer video_chunks w =
    (st <- for_each texts (feed on_line) (buffer, video_chunks) ;;
     stream_stop e ;;;
     ret (Finished (snd st))) w.
Proof.
  induction 1 as [|chunk t pending texts Hd _ IH]; intros e buffer vc w.
  - cbn [text_loop for_each]. now rewrite bind_ret_l.
  - cbn [text_loop for_each]. rewrite Hd, bind_assoc.
    apply bind_ext. intros [b v] w'. apply IH.
Qed.

Lemma auto_json_line_agrees line acc w :
  mask id (auto_json_line line acc w) = mask id (json_line line acc w).
Proof.
  unfold auto_json_line, json_line. destruct (strip line) as [|c s]; [reflexivity|].
  destruct (json_loads (c :: s)); reflexivity.
Qed.

Lemma auto_json_lines_agree lines :
  forall acc w,
    mask id (for_each lines auto_json_line acc w) =
    mask id (for_each lines json_line acc w).
Proof.
  induction lines as [|line lines IH]; intros acc w; [reflexivity|].
  cbn [for_each]. rewrite !mask_bind.
  pose proof (auto_json_line_agrees line acc w) as H. unfold mask in H.
  destruct (auto_json_line line acc w) as [[[a|e] w1] l1],
           (json_line line acc w) as [[[a'|e'] w1'] l1'];
    cbn in H; unfold id in H; try discriminate; injection H as -> ->.
  - apply IH.
  - reflexivity.
Qed.

Lemma auto_sse_line_agrees line n acc w st w1 l1 :
  sse_line line (n, acc) w = (Ok st, w1, l1) ->
  mask id (auto_sse_line line acc w) = (Ok (snd st), w1).
Proof.
  unfold sse_line, auto_sse_line. intros H.
  apply bind_ok_inv in H as (u & w0 & l0 & l2 & H0 & H & _).
  assert (w0 = w) as -> by (destruct (strip line); injection H0 as _ <- _; reflexivity).
  clear H0. destruct (startswith (s_ "data:") (strip line)).
  - destruct (str_eqb _ _).
    + injection H as <- <- _. reflexivity.
    + destruct (json_loads _) as [data|].
      * apply bind_ok_inv in H as (u' & w2 & l3 & l4 & H0 & H & _).
        injection H0 as _ <- _. rewrite mask_bind.
        apply bind_ok_inv in H as (vc & w3 & l5 & l6 & -> & H & _).
        destruct (truthy vc).
        -- apply bind_ok_inv in H as (u'' & w4 & l7 & l8 & H0 & H & _).
           injection H0 as _ <- _. injection H as <- <- _. reflexivity.
        -- destruct data; try discriminate.
           apply bind_ok_inv in H as (u'' & w4 & l7 & l8 & H0 & H & _).
           injection H0 as _ <- _. injection H as <- <- _. reflexivity.
      * apply bind_ok_inv in H as (u' & w2 & l3 & l4 & H0 & H & _).
        injection H0 as _ <- _.
        apply bind_ok_inv in H as (u'' & w3 & l5 & l6 & H0 & H & _).
        injection H0 as _ <- _. injection H as <- <- _. reflexivity.
  - injection H as <- <- _. reflexivity.
Qed.

Lemma auto_sse_lines_agree lines :
  forall n acc w st w1 l1,
    for_each lines sse_line (n, acc) w = (Ok st, w1, l1) ->
    mask id (for_each lines auto_sse_line acc w) = (Ok (snd st), w1).
Proof.
  induction lines as [|line lines IH]; intros n acc w st w1 l1 H.
  - cbn in H. injection H as <- <- _. reflexivity.
  - cbn [for_each] in *.
    apply bind_ok_inv in H as ([n' acc'] & w2 & l2 & l3 & H1 & H2 & _).
    rewrite mask_bind.
    pose proof (@auto_sse_line_agrees line n acc w (n', acc') w2 l2 H1) as A.
    unfold mask in A.
    destruct (auto_sse_line line acc w) as [[[a|e] w'] l']; cbn in A;
      [|discriminate].
    unfold id in A. injection A as -> ->. exact (IH n' acc' w2 st w1 l3 H2).
Qed.

(** What a text strategy gives on a stream of at least two chunks that
    all decode: the lines of the whole text are handled. *)
Lemma text_strategy_lines on_line text_data pending texts w :
  pending <> [] -> decoded pending texts ->
  text_strategy on_line text_data (pending, Closed) w =
  (video_chunks <- for_each (complete_lines (text_data ++ concat texts)) on_line [] ;;
   match video_chunks with
   | [] => ret (Next exhausted)
   | _ :: _ => ret (Returned (join video_chunks))
   end) w.
Proof.
  intros Hn Hd. unfold text_strategy. cbn [fst snd].
  rewrite (@bind_ext_l _ _ _ _ _ _
             (fun w' => @text_loop_decoded on_line pending texts Hd Closed
                          text_data [] w')).
  assert (Ht : texts <> []).
  { intros ->. inversion Hd. now subst. }
  rewrite bind_assoc.
  rewrite (@bind_ext_l _ _ _ _ _ _
             (fun w' => @for_each_feed_any _ on_line texts text_data [] w' Ht)).
  rewrite bind_assoc. apply bind_ext. intros vc w1.
  rewrite bind_ret_l. cbn [stream_stop snd]. rewrite bind_assoc, !bind_ret_l.
  destruct vc; reflexivity.
Qed.

(** X26. On a stream without known content type that arrives in at
    least two chunks, each of them valid UTF-8, the auto-detecting parser
    finds what the declared parsers find: when the text starts with a
    brace and the NDJSON parser returns a video for that text, or when it
    starts with data: and the SSE parser returns one, the auto-detecting
    parser returns the same video after the same GETs. *)
Theorem auto_detection_agrees (r r' : response) (total_size : option Z) (w w1 : world)
  (first_chunk : bytes) (pending : list bytes) (text_data : str) (texts : list str)
  (video : bytes) :
  iter_bytes r = first_chunk :: pending ->
  pending <> [] ->
  ending r = Closed ->
  existsb (fun sig => bytes_startswith sig first_chunk) video_signatures = false ->
  decoded (first_chunk :: pending) (text_data :: texts) ->
  iter_text r' = text_data :: texts ->
  ending r' = Closed ->
  (startswith (s_ "{") (strip text_data) = true ->
   fst (_parse_json_stream r' total_size w) = (Ok video, w1) ->
   fst (_parse_unknown_stream r total_size w) = (Ok video, w1)) /\
  (startswith (s_ "data:") (strip text_data) = true ->
   fst (_parse_sse_stream r' total_size w) = (Ok video, w1) ->
   fst (_parse_unknown_stream r total_size w) = (Ok video, w1)).
Proof.
  intros Hi Hn He Hs Hd Ht He'.
  inversion Hd as [|? ? ? ? Hf Hp]; subst.
  assert (L : lines_of r' = complete_lines (text_data ++ concat texts)).
  { unfold lines_of, body_text. now rewrite Ht. }
  split.
  - intros Hb Hj. rewrite parse_json_lines, L, He' in Hj.
    unfold json_over_lines in Hj.
    destruct (bind _ _ w) as [[o w'] l] eqn:E. cbn [fst] in Hj.
    injection Hj as -> ->.
    apply bind_ok_inv in E as (vc & w2 & l1 & l2 & E1 & E2 & _).
    apply bind_ok_inv in E2 as (u & w3 & l3 & l4 & E2 & E3 & _).
    injection E2 as _ <- _.
    destruct vc as [|c vc]; [discriminate|]. injection E3 as <- <- _.
    pose proof (auto_json_lines_agree
                  (complete_lines (text_data ++ concat texts)) [] w) as A.
    rewrite E1 in A. unfold mask in A.
    destruct (for_each _ auto_json_line [] w) as [[[a|x] w4] l5] eqn:E4;
      cbn in A; [|discriminate].
    unfold id in A. injection A as -> ->.
    unfold _parse_unknown_stream. rewrite Hi, Hs, He. unfold try_text. rewrite Hf.
    destruct (startswith (s_ "data:") (strip text_data)) eqn:Es.
    { rewrite (@sse_like_not_json_like _ Es) in Hb. discriminate. }
    rewrite Hb. cbv iota. rewrite bind_assoc, bind_ret_l. cbv beta iota.
    rewrite !bind_assoc. unfold bind at 1. cbn [logger]. unfold bind at 1.
    rewrite (@text_strategy_lines auto_json_line text_data pending texts w Hn Hp).
    unfold bind at 1. rewrite E4. reflexivity.
  - intros Hb Hj. rewrite parse_sse_lines, L, He' in Hj.
    unfold sse_over_lines in Hj.
    destruct (bind _ _ w) as [[o w'] l] eqn:E. cbn [fst] in Hj.
    injection Hj as -> ->.
    apply bind_ok_inv in E as (st & w2 & l1 & l2 & E1 & E2 & _).
    apply bind_ok_inv in E2 as (u & w3 & l3 & l4 & E2 & E3 & _).
    injection E2 as _ <- _. unfold sse_result in E3.
    destruct (snd st) as [|c vc] eqn:Est; [discriminate|]. injection E3 as <- <- _.
    pose proof (@auto_sse_lines_agree
                  (complete_lines (text_data ++ concat texts)) 0%nat [] w st w2 l1 E1)
      as A.
    rewrite Est in A. unfold mask in A.
    destruct (for_each _ auto_sse_line [] w) as [[[a|x] w4] l5] eqn:E4;
      cbn in A; [|discriminate].
    unfold id in A. injection A as -> ->.
    unfold _parse_unknown_stream. rewrite Hi, Hs, He. unfold try_text. rewrite Hf, Hb.
    rewrite !bind_assoc. unfold bind at 1. cbn [logger]. unfold bind at 1.
    rewrite (@text_strategy_lines auto_sse_line text_data pending texts w Hn Hp).
    unfold bind at 1. rewrite E4. reflexivity.
Qed.

Lemma auto_detection_agrees_witness :
  fst (_parse_unknown_stream (untyped_response [video_line_bytes; b_ "{}"])
         None quiet_world) = (Ok (b_ "hi"), quiet_world).
Proof.
  apply (proj1 (@auto_detection_agrees
                  (untyped_response [video_line_bytes; b_ "{}"])
                  (text_response (s_ "application/json")
                     [decode_ascii video_line_bytes; s_ "{}"])
                  None quiet_world quiet_world video_line_bytes [b_ "{}"]
                  (decode_ascii video_line_bytes) [s_ "{}"] (b_ "hi")
                  eq_refl ltac:(discriminate) eq_refl
                  ltac:(vm_compute; reflexivity)
                  ltac:(repeat constructor)
                  eq_refl eq_refl));
    vm_compute; reflexivity.
Defined.
